(** * The action-queue expansion and playback engine

    A shallow embedding of [Action.js], [ActionGroup.js], [RepeatBlock.js],
    [RecursiveGroup.js] and [ActionQueue.js], and of the methods of the
    [Game] class that edit a recursion depth or a repeat count.

    Numbers that JavaScript uses as times (durations, frame deltas, progress)
    are IEEE-754 binary64 values and are modelled by Rocq's primitive floats,
    so [deltaTime / duration] and [progress >= 1] behave here as they do in
    the engine (including infinities and NaN).  Numbers used as counters and
    indices (repeat counts, recursion depths, array indices) are taken to be
    integers and are modelled by [Z] and [nat].

    The random [id] strings of the objects carry no behaviour and are left
    out; object identity, where the engine relies on it, is modelled by
    locations in an object store (see [Obj] and [ActionQueue.World]). *)

From Stdlib Require Import ZArith List Bool Lia.
From Stdlib Require Import Floats.PrimFloat.
From stdpp Require Import base option list sorting strings pretty.
Import ListNotations.

Local Open Scope Z_scope.

(** ** Action.js *)

Inductive ActionType := MOVE_UP | MOVE_DOWN | MOVE_LEFT | MOVE_RIGHT | WAIT.

Module CONFIG.
(** [CONFIG.animation.actionDuration] *)
Definition actionDuration : float := 300%float.
(** [CONFIG.actions.maxQueueSize] *)
Definition maxQueueSize : Z := 50.
End CONFIG.

Module EASING.
(** [t < 0.5 ? 4*t*t*t : (t - 1) * (2*t - 2) * (2*t - 2) + 1] *)
Definition easeInOutCubic (t : float) : float :=
  (if t <? 0.5 then 4 * t * t * t
   else (t - 1) * (2 * t - 2) * (2 * t - 2) + 1)%float.
End EASING.

Module Action.

Record t := mk {
  type : ActionType;
  duration : float;
  isExecuting : bool;
  isComplete : bool;
  progress : float
}.

(** [constructor(type, duration)] *)
Definition new (ty : ActionType) (d : float) : t := mk ty d false false 0%float.

(** [new Action(type)], with the configured default duration. *)
Definition newDefault (ty : ActionType) : t := new ty CONFIG.actionDuration.

(** [DirectionVectors[this.type]] as the pair (dx, dy). *)
Definition getDirection (a : t) : Z * Z :=
  match type a with
  | MOVE_UP => (0, -1)
  | MOVE_DOWN => (0, 1)
  | MOVE_LEFT => (-1, 0)
  | MOVE_RIGHT => (1, 0)
  | WAIT => (0, 0)
  end.

Definition isMovement (a : t) : bool :=
  match type a with WAIT => false | _ => true end.

Definition start (a : t) : t := mk (type a) (duration a) true false 0%float.

(** [update(deltaTime)]: the action after the call, and the returned number. *)
Definition update (deltaTime : float) (a : t) : t * float :=
  if negb (isExecuting a) || isComplete a then (a, progress a)
  else
    let p := (progress a + deltaTime / duration a)%float in
    (* [this.progress >= 1] *)
    if (1 <=? p)%float
    then (mk (type a) (duration a) false true 1%float, EASING.easeInOutCubic 1%float)
    else (mk (type a) (duration a) (isExecuting a) (isComplete a) p, EASING.easeInOutCubic p).

Definition reset (a : t) : t := mk (type a) (duration a) false false 0%float.

Definition clone (a : t) : t := new (type a) (duration a).

(** [getIcon()]: the icon, a string of one UTF-16 code unit (the arrows
    U+2191, U+2193, U+2190, U+2192 and the diamond U+25C7).  Strings that
    are measured and cut are lists of code units. *)
Definition getIcon (a : t) : list N :=
  match type a with
  | MOVE_UP => [8593%N]
  | MOVE_DOWN => [8595%N]
  | MOVE_LEFT => [8592%N]
  | MOVE_RIGHT => [8594%N]
  | WAIT => [9671%N]
  end.

(** The plain object [toJSON()] returns and [fromJSON(data)] reads.  Stored
    data may lack [duration]; [toJSON()] always writes it. *)
Record Data := mkData {
  data_type : ActionType;
  data_duration : option float
}.

Definition toJSON (a : t) : Data := mkData (type a) (Some (duration a)).

(** [new Action(data.type, data.duration)]: a missing duration takes the
    default of the constructor. *)
Definition fromJSON (data : Data) : t :=
  new (data_type data)
      (match data_duration data with
       | Some d => d
       | None => CONFIG.actionDuration
       end).

End Action.

(** ** ActionGroup.js *)

Definition GroupColors : list string :=
  ["#FF6B6B"; "#4ECDC4"; "#FFE66D"; "#95E1D3"; "#F38181"; "#AA96DA"; "#FCBAD3"; "#A8D8EA"].

Module ActionGroup.

Record t := mk {
  name : string;
  color : string;
  actions : list Action.t
}.

Definition addAction (a : Action.t) (g : t) : t :=
  mk (name g) (color g) (actions g ++ [Action.clone a]).

Definition addActionByType (ty : ActionType) (g : t) : t :=
  mk (name g) (color g) (actions g ++ [Action.newDefault ty]).

(** [removeActionAt(index)]: out-of-range indices are ignored. *)
Definition removeActionAt (index : Z) (g : t) : t :=
  if (0 <=? index) && (index <? Z.of_nat (length (actions g)))
  then mk (name g) (color g) (delete (Z.to_nat index) (actions g))
  else g.

(** [getActions()]: fresh clones, never the template instances. *)
Definition getActions (g : t) : list Action.t := map Action.clone (actions g).

Definition size (g : t) : Z := Z.of_nat (length (actions g)).

Definition isEmpty (g : t) : bool := size g =? 0.

(** [constructor(name, color)], given the static counter [groupCount]: the
    new group and the counter after the call.  An argument that is missing,
    [null] or empty is the empty string here: all take the default. *)
Definition construct (groupCount : nat) (nm col : string) : t * nat :=
  (mk (if decide (nm = "") then "Block " +:+ pretty groupCount else nm)
      (if decide (col = "") then nth (groupCount mod 8) GroupColors "" else col)
      [],
   S groupCount).

(** [clone()], given the static counter: [new ActionGroup(this.name + ' copy',
    this.color)], to which every action is added with [addAction]; the group
    and the counter after the call. *)
Definition clone (groupCount : nat) (g : t) : t * nat :=
  let '(newGroup, groupCount') := construct groupCount (name g +:+ " copy") (color g) in
  (fold_left (fun acc a => addAction a acc) (actions g) newGroup, groupCount').

(** [getCompactView()]: the icons of the actions, joined. *)
Definition getCompactView (g : t) : list N := flat_map Action.getIcon (actions g).

(** [getShortLabel(maxLength)]; [substring(0, n)] keeps the first [n] code
    units, none for a negative [n]; the ellipsis is U+2026. *)
Definition getShortLabel (maxLength : Z) (g : t) : list N :=
  let icons := getCompactView g in
  if Z.of_nat (length icons) <=? maxLength then icons
  else take (Z.to_nat (maxLength - 1)) icons ++ [8230%N].

(** The object [toJSON()] returns, without its [id] member. *)
Record Json := mkJson {
  json_name : string;
  json_color : string;
  json_actions : list Action.Data
}.

Definition toJSON (g : t) : Json :=
  mkJson (name g) (color g) (map Action.toJSON (actions g)).

(** [fromJSON(data)], given the static counter: the group (whose [id] is
    then set to [data.id]) and the counter after the call. *)
Definition fromJSON (groupCount : nat) (data : Json) : t * nat :=
  let '(g, groupCount') := construct groupCount (json_name data) (json_color data) in
  (mk (name g) (color g) (actions g ++ map Action.fromJSON (json_actions data)),
   groupCount').

End ActionGroup.

Module GroupReference.

Record t := mk {
  group : ActionGroup.t;
  isExecuting : bool;
  isComplete : bool;
  currentActionIndex : Z
}.

Definition new (g : ActionGroup.t) : t := mk g false false 0.

Definition getActions (r : t) : list Action.t := ActionGroup.getActions (group r).

Definition reset (r : t) : t := mk (group r) false false 0.

(** [clone()]: a new reference to the same group. *)
Definition clone (r : t) : t := new (group r).

(** [getIcon()]: the short label of the group, at its default length 3. *)
Definition getIcon (r : t) : list N := ActionGroup.getShortLabel 3 (group r).

End GroupReference.

(** ** RecursiveGroup.js *)

Definition MAX_RECURSION_DEPTH : Z := 5.
Definition DEFAULT_RECURSION_DEPTH : Z := 3.

Inductive Phase := pre | post.

Module RecursiveGroup.

Record t := mk {
  name : string;
  color : string;
  preActions : list Action.t;
  postActions : list Action.t;
  maxDepth : Z;
  currentDepth : Z;
  isComplete : bool;
  isExecuting : bool
}.

(** The fields the constructor sets apart from [id], [name] and [color]. *)
Definition new (nm col : string) : t :=
  mk nm col [] [] DEFAULT_RECURSION_DEPTH 0 false false.

Definition addPreAction (a : Action.t) (g : t) : t :=
  mk (name g) (color g) (preActions g ++ [Action.clone a]) (postActions g)
     (maxDepth g) (currentDepth g) (isComplete g) (isExecuting g).

Definition addPostAction (a : Action.t) (g : t) : t :=
  mk (name g) (color g) (preActions g) (postActions g ++ [Action.clone a])
     (maxDepth g) (currentDepth g) (isComplete g) (isExecuting g).

(** [Math.max(1, Math.min(MAX_RECURSION_DEPTH, depth))] *)
Definition setMaxDepth (depth : Z) (g : t) : t :=
  mk (name g) (color g) (preActions g) (postActions g)
     (Z.max 1 (Z.min MAX_RECURSION_DEPTH depth))
     (currentDepth g) (isComplete g) (isExecuting g).

Definition baseSize (g : t) : Z :=
  Z.of_nat (length (preActions g)) + Z.of_nat (length (postActions g)).

Definition isEmpty (g : t) : bool :=
  (Z.of_nat (length (preActions g)) =? 0) && (Z.of_nat (length (postActions g)) =? 0).

(** One element of the array [getExpandedActions] returns. *)
Record Entry := mkEntry {
  action : Action.t;
  depth : Z;
  phase : Phase;
  actionIndex : Z;
  isBaseCase : bool;
  isFirstAtDepth : bool;
  isLastAtDepth : bool
}.

(** The first [forEach]: the pre-actions of one depth. *)
Definition preEntries (g : t) (d : Z) : list Entry :=
  imap (fun index a =>
          mkEntry (Action.clone a) d pre (Z.of_nat index) false
                  (Z.of_nat index =? 0) false)
       (preActions g).

(** The second [forEach]: the post-actions of one depth. *)
Definition postEntries (g : t) (d : Z) (isBase : bool) : list Entry :=
  imap (fun index a =>
          mkEntry (Action.clone a) d post (Z.of_nat index)
                  (isBase && (Z.of_nat index =? 0)) false
                  (Z.of_nat index =? Z.of_nat (length (postActions g)) - 1))
       (postActions g).

(** The body of [getExpandedActions(depth)].  The method calls itself on
    [depth + 1]; [levels] bounds the number of nested calls. *)
Fixpoint expandLevels (g : t) (levels : nat) (d : Z) : list Entry :=
  match levels with
  | O => []
  | S levels' =>
      if maxDepth g <=? d then []
      else
        let isBase := d =? maxDepth g - 1 in
        preEntries g d
        ++ (if negb isBase then expandLevels g levels' (d + 1) else [])
        ++ postEntries g d isBase
  end.

(** [getExpandedActions(depth)]: [maxDepth - depth] nested calls are all the
    method can make before [depth >= maxDepth] stops it
    (see [getExpandedActions_unfold]). *)
Definition getExpandedActions (g : t) (d : Z) : list Entry :=
  expandLevels g (Z.to_nat (maxDepth g - d)) d.

(** [baseSize * maxDepth] *)
Definition getTotalActionCount (g : t) : Z := baseSize g * maxDepth g.

Definition reset (g : t) : t :=
  mk (name g) (color g) (map Action.reset (preActions g))
     (map Action.reset (postActions g)) (maxDepth g) 0 false false.

(** [constructor(name)], given the module's counter
    [recursiveGroupIdCounter]: the new group and the counter after the call
    (which is the [id] of the group).  A name that is missing, [null] or
    empty takes the default. *)
Definition construct (counter : nat) (nm : string) : t * nat :=
  let id := S counter in
  (mk (if decide (nm = "") then "R" +:+ pretty id else nm)
      (nth ((id - 1) mod 8) GroupColors "")
      [] [] DEFAULT_RECURSION_DEPTH 0 false false,
   id).

(** [clone()], given the module's counter. *)
Definition clone (counter : nat) (g : t) : t * nat :=
  let '(cloned, counter') := construct counter (name g) in
  (mk (name cloned) (color g)
      (preActions cloned ++ map Action.clone (preActions g))
      (postActions cloned ++ map Action.clone (postActions g))
      (maxDepth g) (currentDepth cloned) (isComplete cloned) (isExecuting cloned),
   counter').

(** The object [toJSON()] returns, without its [id] and its constant
    [type: 'RecursiveGroup']; and what [fromJSON(json)] reads, where the two
    arrays may be missing. *)
Record Json := mkJson {
  json_name : string;
  json_color : string;
  json_maxDepth : Z;
  json_preActions : option (list Action.Data);
  json_postActions : option (list Action.Data)
}.

Definition toJSON (g : t) : Json :=
  mkJson (name g) (color g) (maxDepth g)
         (Some (map Action.toJSON (preActions g)))
         (Some (map Action.toJSON (postActions g))).

(** [fromJSON(json)], given the module's counter.  The depth is stored as
    read. *)
Definition fromJSON (counter : nat) (json : Json) : t * nat :=
  let '(g, counter') := construct counter (json_name json) in
  (mk (name g) (json_color json)
      (preActions g
       ++ match json_preActions json with
          | Some l => map Action.fromJSON l
          | None => []
          end)
      (postActions g
       ++ match json_postActions json with
          | Some l => map Action.fromJSON l
          | None => []
          end)
      (json_maxDepth json) (currentDepth g) (isComplete g) (isExecuting g),
   counter').

End RecursiveGroup.

Module RecursiveReference.

Record t := mk {
  group : RecursiveGroup.t;
  isComplete : bool;
  isExecuting : bool;
  currentDepth : Z
}.

Definition new (g : RecursiveGroup.t) : t := mk g false false 0.

(** [getExpandedActions()]: the group's expansion from depth 0. *)
Definition getExpandedActions (r : t) : list RecursiveGroup.Entry :=
  RecursiveGroup.getExpandedActions (group r) 0.

Definition getActions (r : t) : list Action.t :=
  map RecursiveGroup.action (getExpandedActions r).

Definition getMaxDepth (r : t) : Z := RecursiveGroup.maxDepth (group r).

Definition reset (r : t) : t := mk (group r) false false 0.

End RecursiveReference.

(** ** RepeatBlock.js *)

Definition MAX_REPETITIONS : Z := 99.
Definition DEFAULT_REPETITIONS : Z := 2.
Definition MAX_ITEMS_IN_REPEAT : Z := 2.

Module RepeatBlock.

(** What a repeat block holds: an action, a group reference, or (the third
    branch of [getExpandedActions]) a group itself. *)
Inductive Item :=
| ItemAction (a : Action.t)
| ItemGroupRef (r : GroupReference.t)
| ItemGroup (g : ActionGroup.t).

(** [item.clone()], given the static counter of [ActionGroup], which the
    clone of a group moves: the clone and the counter after the call. *)
Definition cloneItem (groupCount : nat) (item : Item) : Item * nat :=
  match item with
  | ItemAction a => (ItemAction (Action.clone a), groupCount)
  | ItemGroupRef r => (ItemGroupRef (GroupReference.clone r), groupCount)
  | ItemGroup g =>
      let '(g', groupCount') := ActionGroup.clone groupCount g in
      (ItemGroup g', groupCount')
  end.

(** [item.reset()], for the items that have one. *)
Definition resetItem (item : Item) : Item :=
  match item with
  | ItemAction a => ItemAction (Action.reset a)
  | ItemGroupRef r => ItemGroupRef (GroupReference.reset r)
  | ItemGroup g => ItemGroup g
  end.

Record t := mk {
  count : Z;
  items : list Item;
  isExecuting : bool;
  isComplete : bool;
  currentIteration : Z;
  currentItemIndex : Z
}.

(** [Math.min(Math.max(1, count), MAX_REPETITIONS)] *)
Definition clampCount (n : Z) : Z := Z.min (Z.max 1 n) MAX_REPETITIONS.

Definition new (n : Z) : t := mk (clampCount n) [] false false 0 0.

(** [addItem(item)], given the static counter of [ActionGroup]: the block
    after the call with the returned boolean, and the counter after the
    call. *)
Definition addItem (groupCount : nat) (item : Item) (b : t) : t * bool * nat :=
  if MAX_ITEMS_IN_REPEAT <=? Z.of_nat (length (items b)) then (b, false, groupCount)
  else
    let '(cloned, groupCount') := cloneItem groupCount item in
    (mk (count b) (items b ++ [cloned]) (isExecuting b) (isComplete b)
        (currentIteration b) (currentItemIndex b),
     true, groupCount').

Definition isFull (b : t) : bool := MAX_ITEMS_IN_REPEAT <=? Z.of_nat (length (items b)).

Definition setCount (n : Z) (b : t) : t :=
  mk (clampCount n) (items b) (isExecuting b) (isComplete b)
     (currentIteration b) (currentItemIndex b).

Definition increment (b : t) : t :=
  if count b <? MAX_REPETITIONS
  then mk (count b + 1) (items b) (isExecuting b) (isComplete b)
          (currentIteration b) (currentItemIndex b)
  else b.

Definition decrement (b : t) : t :=
  if 1 <? count b
  then mk (count b - 1) (items b) (isExecuting b) (isComplete b)
          (currentIteration b) (currentItemIndex b)
  else b.

(** One element of the array [getExpandedActions] returns; its [repeatBlock]
    field is the block itself. *)
Record Entry := mkEntry {
  action : Action.t;
  iteration : Z;
  isFromRepeat : bool
}.

(** The body of [this.items.forEach] for one item in one iteration. *)
Definition expandItem (it : Z) (item : Item) : list Entry :=
  match item with
  | ItemGroupRef r =>
      map (fun a => mkEntry (Action.clone a) it true) (GroupReference.getActions r)
  | ItemGroup g =>
      map (fun a => mkEntry a it true) (ActionGroup.getActions g)
  | ItemAction a => [mkEntry (Action.clone a) it true]
  end.

(** The values [iteration] takes in
    [for (let iteration = 0; iteration < this.count; iteration++)]. *)
Definition iterations (n : Z) : list Z := map Z.of_nat (seq 0 (Z.to_nat n)).

Definition getExpandedActions (b : t) : list Entry :=
  flat_map (fun it => flat_map (expandItem it) (items b)) (iterations (count b)).

(** The contribution of one item to [getTotalActionCount]. *)
Definition itemSize (item : Item) : Z :=
  match item with
  | ItemGroupRef r => ActionGroup.size (GroupReference.group r)
  | ItemGroup g => ActionGroup.size g
  | ItemAction _ => 1
  end.

Definition getTotalActionCount (b : t) : Z :=
  fold_left (fun itemCount item => itemCount + itemSize item) (items b) 0 * count b.

Definition reset (b : t) : t :=
  mk (count b) (map resetItem (items b)) false false 0 0.

Definition isEmpty (b : t) : bool := Z.of_nat (length (items b)) =? 0.

Definition size (b : t) : Z := Z.of_nat (length (items b)).

(** The clones of the items, made one after the other. *)
Fixpoint cloneItems (groupCount : nat) (l : list Item) : list Item * nat :=
  match l with
  | [] => ([], groupCount)
  | item :: l' =>
      let '(cloned, groupCount') := cloneItem groupCount item in
      let '(rest, groupCount'') := cloneItems groupCount' l' in
      (cloned :: rest, groupCount'')
  end.

(** [clone()], given the static counter of [ActionGroup]: a block made by
    the constructor from [this.count], to which the clone of every item is
    pushed (without the check of [addItem]); the block and the counter after
    the call. *)
Definition clone (groupCount : nat) (b : t) : t * nat :=
  let '(cloned, groupCount') := cloneItems groupCount (items b) in
  (mk (clampCount (count b)) cloned false false 0 0, groupCount').

(** [item.getIcon ? item.getIcon() : '?']: a group has an [icon] member but
    no [getIcon] method. *)
Definition itemIcon (item : Item) : list N :=
  match item with
  | ItemAction a => Action.getIcon a
  | ItemGroupRef r => GroupReference.getIcon r
  | ItemGroup _ => [63%N]
  end.

(** [getIcon()] *)
Definition getIcon (b : t) : list N :=
  let content := flat_map itemIcon (items b) in
  take 3 content ++ (if 3 <? Z.of_nat (length content) then [8230%N] else []).

(** An element of [items] in the object [toJSON()] returns: what the item's
    own [toJSON()] gives, or the item itself when it has none (a group
    reference). *)
Inductive ItemJson :=
| JsonAction (data : Action.Data)
| JsonGroup (data : ActionGroup.Json)
| RawGroupRef (r : GroupReference.t).

(** The object [toJSON()] returns, without its [id] member. *)
Record Json := mkJson {
  json_count : Z;
  json_items : list ItemJson
}.

Definition toJSON (b : t) : Json :=
  mkJson (count b)
         (map (fun item =>
                 match item with
                 | ItemAction a => JsonAction (Action.toJSON a)
                 | ItemGroup g => JsonGroup (ActionGroup.toJSON g)
                 | ItemGroupRef r => RawGroupRef r
                 end)
              (items b)).

End RepeatBlock.

(** ** The object store

    A queue item is a JavaScript object that the queue, the expanded steps
    and the caller all hold by reference: the expanded step of a plain action
    holds the very [Action] that sits in [items], and a step of a repeat
    block, group or recursion holds the item it came from.  Such objects live
    in a store and are named by their location.  The clones that expansion
    makes are reachable from their step alone and are kept in the step. *)

Abbreviation loc := nat (only parsing).

Inductive Obj :=
| ObjAction (a : Action.t)
| ObjGroupRef (r : GroupReference.t)
| ObjRepeat (b : RepeatBlock.t)
| ObjRecursiveRef (r : RecursiveReference.t).

Module Obj.

(** [item.reset()] *)
Definition reset (o : Obj) : Obj :=
  match o with
  | ObjAction a => ObjAction (Action.reset a)
  | ObjGroupRef r => ObjGroupRef (GroupReference.reset r)
  | ObjRepeat b => ObjRepeat (RepeatBlock.reset b)
  | ObjRecursiveRef r => ObjRecursiveRef (RecursiveReference.reset r)
  end.

(** [o.isExecuting = v] *)
Definition setExecuting (v : bool) (o : Obj) : Obj :=
  match o with
  | ObjAction a =>
      ObjAction (Action.mk (Action.type a) (Action.duration a) v
                           (Action.isComplete a) (Action.progress a))
  | ObjGroupRef r =>
      ObjGroupRef (GroupReference.mk (GroupReference.group r) v
                     (GroupReference.isComplete r) (GroupReference.currentActionIndex r))
  | ObjRepeat b =>
      ObjRepeat (RepeatBlock.mk (RepeatBlock.count b) (RepeatBlock.items b) v
                   (RepeatBlock.isComplete b) (RepeatBlock.currentIteration b)
                   (RepeatBlock.currentItemIndex b))
  | ObjRecursiveRef r =>
      ObjRecursiveRef (RecursiveReference.mk (RecursiveReference.group r)
                         (RecursiveReference.isComplete r) v
                         (RecursiveReference.currentDepth r))
  end.

(** [o.isComplete = v] *)
Definition setComplete (v : bool) (o : Obj) : Obj :=
  match o with
  | ObjAction a =>
      ObjAction (Action.mk (Action.type a) (Action.duration a)
                           (Action.isExecuting a) v (Action.progress a))
  | ObjGroupRef r =>
      ObjGroupRef (GroupReference.mk (GroupReference.group r)
                     (GroupReference.isExecuting r) v (GroupReference.currentActionIndex r))
  | ObjRepeat b =>
      ObjRepeat (RepeatBlock.mk (RepeatBlock.count b) (RepeatBlock.items b)
                   (RepeatBlock.isExecuting b) v (RepeatBlock.currentIteration b)
                   (RepeatBlock.currentItemIndex b))
  | ObjRecursiveRef r =>
      ObjRecursiveRef (RecursiveReference.mk (RecursiveReference.group r) v
                         (RecursiveReference.isExecuting r)
                         (RecursiveReference.currentDepth r))
  end.

End Obj.

(** The [action] field of an expanded step: the queue item itself (a plain
    action) or a clone that only the step holds. *)
Inductive ActionRef :=
| Shared (l : loc)
| Owned (a : Action.t).

(** ** ActionQueue.js *)

Inductive QueueState := IDLE | RUNNING | PAUSED | COMPLETE.

Definition QueueState_eqb (s1 s2 : QueueState) : bool :=
  match s1, s2 with
  | IDLE, IDLE | RUNNING, RUNNING | PAUSED, PAUSED | COMPLETE, COMPLETE => true
  | _, _ => false
  end.

(** The callback slots.  A call of a slot is recorded with the arguments
    that identify what it was called about.  The methods of the queue are
    given twice: first for slots that are empty or hold a handler that only
    observes ([fire]), then with the handlers as an argument ([fireWith]). *)
Inductive Event :=
| onActionStart (a : Action.t) (index : nat)
| onActionComplete (a : Action.t) (index : nat)
| onQueueComplete
| onQueueChange (items : list loc) (currentIndex : Z)
| onGroupStart (groupRef : loc) (itemIndex : nat)
| onGroupComplete (groupRef : loc) (itemIndex : nat)
| onRepeatStart (repeatBlock : loc) (itemIndex : nat)
| onRepeatIteration (repeatBlock : loc) (iteration totalIterations : Z)
| onRepeatComplete (repeatBlock : loc) (itemIndex : nat)
| onRecursionStart (recursiveRef : loc) (itemIndex : nat)
| onRecursionDepthChange (recursiveRef : option loc) (recursionDepth : Z)
                         (recursionPhase : option Phase)
| onRecursionComplete (recursiveRef : loc) (itemIndex : nat).

Module ActionQueue.

(** One element of [expandedActions].  The fields that only the steps of a
    recursion carry ([recursionMaxDepth], [isBaseCase], [isFirstAtDepth],
    [isLastAtDepth], [isFirstInRecursion], [isLastInRecursion]) are absent on
    the other steps, where every use of them is a truth test: they read
    [false] (or [None]) there. *)
Record ExpandedStep := mkStep {
  action : ActionRef;
  itemIndex : nat;
  isFromGroup : bool;
  isFromRepeat : bool;
  isFromRecursion : bool;
  repeatBlock : option loc;
  recursiveRef : option loc;
  recursionDepth : Z;
  recursionPhase : option Phase;
  recursionMaxDepth : option Z;
  isBaseCase : bool;
  isFirstAtDepth : bool;
  isLastAtDepth : bool;
  iteration : Z;
  totalIterations : Z;
  isFirstInIteration : bool;
  isLastInIteration : bool;
  isFirstInRepeat : bool;
  isLastInRepeat : bool;
  isFirstInRecursion : bool;
  isLastInRecursion : bool;
  groupRef : option loc;
  actionIndexInGroup : Z;
  isFirstInGroup : bool;
  isLastInGroup : bool
}.

Definition setAction (r : ActionRef) (s : ExpandedStep) : ExpandedStep :=
  mkStep r (itemIndex s) (isFromGroup s) (isFromRepeat s) (isFromRecursion s)
         (repeatBlock s) (recursiveRef s) (recursionDepth s) (recursionPhase s)
         (recursionMaxDepth s) (isBaseCase s) (isFirstAtDepth s) (isLastAtDepth s)
         (iteration s) (totalIterations s) (isFirstInIteration s)
         (isLastInIteration s) (isFirstInRepeat s) (isLastInRepeat s)
         (isFirstInRecursion s) (isLastInRecursion s) (groupRef s)
         (actionIndexInGroup s) (isFirstInGroup s) (isLastInGroup s).

Record t := mk {
  items : list loc;
  maxSize : Z;
  currentIndex : Z;
  state : QueueState;
  expandedActions : list ExpandedStep;
  expandedIndex : nat
}.

(** [constructor(maxSize)] *)
Definition new (size : Z) : t := mk [] size 0 IDLE [] 0%nat.

Definition setItems (v : list loc) (q : t) : t :=
  mk v (maxSize q) (currentIndex q) (state q) (expandedActions q) (expandedIndex q).
Definition setCurrentIndex (v : Z) (q : t) : t :=
  mk (items q) (maxSize q) v (state q) (expandedActions q) (expandedIndex q).
Definition setState (v : QueueState) (q : t) : t :=
  mk (items q) (maxSize q) (currentIndex q) v (expandedActions q) (expandedIndex q).
Definition setExpandedActions (v : list ExpandedStep) (q : t) : t :=
  mk (items q) (maxSize q) (currentIndex q) (state q) v (expandedIndex q).
Definition setExpandedIndex (v : nat) (q : t) : t :=
  mk (items q) (maxSize q) (currentIndex q) (state q) (expandedActions q) v.

(** What a method of the queue can read and write: the objects, the queue
    itself, and the calls made to the callback slots so far. *)
Record World := mkWorld {
  objects : list Obj;
  queue : t;
  fired : list Event
}.

Definition onQueue (f : t -> t) (w : World) : World :=
  mkWorld (objects w) (f (queue w)) (fired w).
Definition onObject (l : loc) (f : Obj -> Obj) (w : World) : World :=
  mkWorld (alter f l (objects w)) (queue w) (fired w).
Definition fire (e : Event) (w : World) : World :=
  mkWorld (objects w) (queue w) (fired w ++ [e]).

(** [if (c) { ... }] *)
Definition when (c : bool) (f : World -> World) (w : World) : World :=
  if c then f w else w.

(** A world with a fresh queue over the given objects. *)
Definition init (objs : list Obj) (size : Z) : World := mkWorld objs (new size) [].

(** [notifyChange()] *)
Definition notifyChange (w : World) : World :=
  fire (onQueueChange (items (queue w)) (currentIndex (queue w))) w.

(** [add(item)]: the world after the call, and the returned boolean. *)
Definition add (item : loc) (w : World) : World * bool :=
  if maxSize (queue w) <=? Z.of_nat (length (items (queue w))) then (w, false)
  else if QueueState_eqb (state (queue w)) RUNNING then (w, false)
  else (notifyChange (onQueue (fun q => setItems (items q ++ [item]) q) w), true).

(** [new Action(actionType)] put at a fresh location, then [add]. *)
Definition addByType (ty : ActionType) (w : World) : World * bool :=
  add (length (objects w))
      (mkWorld (objects w ++ [ObjAction (Action.newDefault ty)]) (queue w) (fired w)).

(** [new GroupReference(group)] put at a fresh location, then [add]. *)
Definition addGroupReference (g : ActionGroup.t) (w : World) : World * bool :=
  add (length (objects w))
      (mkWorld (objects w ++ [ObjGroupRef (GroupReference.new g)]) (queue w) (fired w)).

Definition addRepeatBlock (blk : loc) (w : World) : World * bool := add blk w.

(** [new RecursiveReference(group)] put at a fresh location, then [add]. *)
Definition addRecursiveReference (g : RecursiveGroup.t) (w : World) : World * bool :=
  add (length (objects w))
      (mkWorld (objects w ++ [ObjRecursiveRef (RecursiveReference.new g)])
               (queue w) (fired w)).

(** [removeAt(index)]: the world after the call, and the removed item
    ([None] for [null]). *)
Definition removeAt (index : Z) (w : World) : World * option loc :=
  if QueueState_eqb (state (queue w)) RUNNING then (w, None)
  else if (index <? 0) || (Z.of_nat (length (items (queue w))) <=? index) then (w, None)
  else
    (notifyChange
       (onQueue (fun q => setItems (delete (Z.to_nat index) (items q)) q) w),
     items (queue w) !! Z.to_nat index).

Definition removeLast (w : World) : World * option loc :=
  removeAt (Z.of_nat (length (items (queue w))) - 1) w.

(** [reset()] *)
Definition reset (w : World) : World :=
  mkWorld (fold_left (fun objs l => alter Obj.reset l objs) (items (queue w)) (objects w))
          (mk (items (queue w)) (maxSize (queue w)) 0 IDLE [] 0%nat)
          (fired w).

(** [stop()] *)
Definition stop (w : World) : World := reset (onQueue (setState IDLE) w).

(** [clear()] *)
Definition clear (w : World) : World :=
  let w1 := when (QueueState_eqb (state (queue w)) RUNNING) stop w in
  notifyChange
    (onQueue (fun q => mk [] (maxSize q) 0 IDLE [] 0%nat) w1).

(** *** Expansion *)

(** The object pushed for one element of a repeat block's expansion.
    [lastIteration] is the loop variable of that name. *)
Definition repeatStep (item : loc) (idx : nat) (b : RepeatBlock.t)
    (expandedRepeat : list RepeatBlock.Entry) (lastIteration : Z)
    (actionIndex : nat) (expandedItem : RepeatBlock.Entry) : ExpandedStep :=
  let isNewIteration := negb (RepeatBlock.iteration expandedItem =? lastIteration) in
  let isLastAction := Z.of_nat actionIndex =? Z.of_nat (length expandedRepeat) - 1 in
  {| action := Owned (RepeatBlock.action expandedItem);
     itemIndex := idx;
     isFromGroup := false;
     isFromRepeat := true;
     isFromRecursion := false;
     repeatBlock := Some item;
     recursiveRef := None;
     recursionDepth := 0;
     recursionPhase := None;
     recursionMaxDepth := None;
     isBaseCase := false;
     isFirstAtDepth := false;
     isLastAtDepth := false;
     iteration := RepeatBlock.iteration expandedItem;
     totalIterations := RepeatBlock.count b;
     isFirstInIteration := isNewIteration;
     (* [expandedRepeat[actionIndex + 1]?.iteration !== expandedItem.iteration]
        is true when there is no next element *)
     isLastInIteration :=
       (Z.of_nat actionIndex =? Z.of_nat (length expandedRepeat) - 1)
       || match expandedRepeat !! S actionIndex with
          | Some next =>
              negb (RepeatBlock.iteration next =? RepeatBlock.iteration expandedItem)
          | None => true
          end;
     isFirstInRepeat := Z.of_nat actionIndex =? 0;
     isLastInRepeat := isLastAction;
     isFirstInRecursion := false;
     isLastInRecursion := false;
     groupRef := None;
     actionIndexInGroup := -1;
     isFirstInGroup := false;
     isLastInGroup := false |}.

(** [expandedRepeat.forEach((expandedItem, actionIndex) => ...)], from the
    element at [actionIndex] on, with [lastIteration] carried along. *)
Fixpoint repeatSteps (item : loc) (idx : nat) (b : RepeatBlock.t)
    (expandedRepeat : list RepeatBlock.Entry) (lastIteration : Z)
    (actionIndex : nat) (rest : list RepeatBlock.Entry) : list ExpandedStep :=
  match rest with
  | [] => []
  | expandedItem :: rest' =>
      repeatStep item idx b expandedRepeat lastIteration actionIndex expandedItem
      :: repeatSteps item idx b expandedRepeat (RepeatBlock.iteration expandedItem)
                     (S actionIndex) rest'
  end.

(** The object pushed for one action of a referenced group. *)
Definition groupStep (item : loc) (idx : nat) (actions : list Action.t)
    (actionIndex : nat) (a : Action.t) : ExpandedStep :=
  {| action := Owned a;
     itemIndex := idx;
     isFromGroup := true;
     isFromRepeat := false;
     isFromRecursion := false;
     repeatBlock := None;
     recursiveRef := None;
     recursionDepth := 0;
     recursionPhase := None;
     recursionMaxDepth := None;
     isBaseCase := false;
     isFirstAtDepth := false;
     isLastAtDepth := false;
     iteration := 0;
     totalIterations := 1;
     isFirstInIteration := false;
     isLastInIteration := false;
     isFirstInRepeat := false;
     isLastInRepeat := false;
     isFirstInRecursion := false;
     isLastInRecursion := false;
     groupRef := Some item;
     actionIndexInGroup := Z.of_nat actionIndex;
     isFirstInGroup := Z.of_nat actionIndex =? 0;
     isLastInGroup := Z.of_nat actionIndex =? Z.of_nat (length actions) - 1 |}.

(** The object pushed for one element of a recursion's expansion.  (The loop
    also keeps [lastDepth] and computes [isNewDepth], which nothing reads.) *)
Definition recursionStep (item : loc) (idx : nat) (r : RecursiveReference.t)
    (expandedRecursive : list RecursiveGroup.Entry)
    (actionIndex : nat) (expandedItem : RecursiveGroup.Entry) : ExpandedStep :=
  let isLastAction := Z.of_nat actionIndex =? Z.of_nat (length expandedRecursive) - 1 in
  let isFirstAction := Z.of_nat actionIndex =? 0 in
  {| action := Owned (RecursiveGroup.action expandedItem);
     itemIndex := idx;
     isFromGroup := false;
     isFromRepeat := false;
     isFromRecursion := true;
     repeatBlock := None;
     recursiveRef := Some item;
     recursionDepth := RecursiveGroup.depth expandedItem;
     recursionPhase := Some (RecursiveGroup.phase expandedItem);
     recursionMaxDepth := Some (RecursiveReference.getMaxDepth r);
     isBaseCase := RecursiveGroup.isBaseCase expandedItem;
     isFirstAtDepth := RecursiveGroup.isFirstAtDepth expandedItem;
     isLastAtDepth := RecursiveGroup.isLastAtDepth expandedItem;
     iteration := 0;
     totalIterations := 1;
     isFirstInIteration := false;
     isLastInIteration := false;
     isFirstInRepeat := false;
     isLastInRepeat := false;
     isFirstInRecursion := isFirstAction;
     isLastInRecursion := isLastAction;
     groupRef := None;
     actionIndexInGroup := -1;
     isFirstInGroup := false;
     isLastInGroup := false |}.

(** The object pushed for a plain action: its [action] is the item itself. *)
Definition plainStep (item : loc) (idx : nat) : ExpandedStep :=
  {| action := Shared item;
     itemIndex := idx;
     isFromGroup := false;
     isFromRepeat := false;
     isFromRecursion := false;
     repeatBlock := None;
     recursiveRef := None;
     recursionDepth := 0;
     recursionPhase := None;
     recursionMaxDepth := None;
     isBaseCase := false;
     isFirstAtDepth := false;
     isLastAtDepth := false;
     iteration := 0;
     totalIterations := 1;
     isFirstInIteration := false;
     isLastInIteration := false;
     isFirstInRepeat := false;
     isLastInRepeat := false;
     isFirstInRecursion := false;
     isLastInRecursion := false;
     groupRef := None;
     actionIndexInGroup := -1;
     isFirstInGroup := false;
     isLastInGroup := false |}.

(** The body of [this.items.forEach((item, itemIndex) => ...)]: what one
    item appends to [expandedActions].  The tests [isRepeatBlock],
    [isGroupReference] and [isRecursiveReference] are made in this order;
    whatever passes none of them is taken for a plain action. *)
Definition expandItem (objs : list Obj) (idx : nat) (item : loc) : list ExpandedStep :=
  match objs !! item with
  | Some (ObjRepeat b) =>
      let expandedRepeat := RepeatBlock.getExpandedActions b in
      repeatSteps item idx b expandedRepeat (-1) 0 expandedRepeat
  | Some (ObjGroupRef r) =>
      let actions := GroupReference.getActions r in
      imap (groupStep item idx actions) actions
  | Some (ObjRecursiveRef r) =>
      let expandedRecursive := RecursiveReference.getExpandedActions r in
      imap (recursionStep item idx r expandedRecursive) expandedRecursive
  | _ => [plainStep item idx]
  end.

(** The array [expandItems()] builds from [items]. *)
Definition expansion (objs : list Obj) (its : list loc) : list ExpandedStep :=
  concat (imap (expandItem objs) its).

(** [expandItems()] *)
Definition expandItems (w : World) : World :=
  onQueue (setExpandedActions (expansion (objects w) (items (queue w)))) w.

(** [getCurrentItemInfo()]: the step at the cursor, [None] for [null]. *)
Definition getCurrentItemInfo (q : t) : option ExpandedStep :=
  if (expandedIndex q <? length (expandedActions q))%nat
  then expandedActions q !! expandedIndex q
  else None.

(** The action object a step refers to, as it is now. *)
Definition readAction (w : World) (r : ActionRef) : option Action.t :=
  match r with
  | Owned a => Some a
  | Shared l =>
      match objects w !! l with
      | Some (ObjAction a) => Some a
      | _ => None
      end
  end.

(** Storing the new state of the action object of the step at [index]. *)
Definition writeAction (index : nat) (info : ExpandedStep) (a : Action.t)
    (w : World) : World :=
  match action info with
  | Owned _ =>
      onQueue (fun q =>
                 setExpandedActions
                   (<[index := setAction (Owned a) info]> (expandedActions q)) q) w
  | Shared l => onObject l (fun _ => ObjAction a) w
  end.

(** [getCurrentAction()] *)
Definition getCurrentAction (w : World) : option Action.t :=
  match getCurrentItemInfo (queue w) with
  | Some info => readAction w (action info)
  | None => None
  end.

(** *** Playback *)

(** [if (flag && ref) { ... }], the body given the object [ref] names. *)
Definition withRef (flag : bool) (ref : option loc) (f : loc -> World -> World)
    (w : World) : World :=
  match ref with
  | Some l => when flag (f l) w
  | None => w
  end.

(** What [start()] and [update()] both do with the step the cursor has just
    reached: start its action, report the boundaries it opens, then report
    the action.  (The two methods spell this block out separately, with
    [currentInfo] and [nextInfo].)  In the engine the [action] of a step is
    always an object; for a reference that names no action of the store the
    world is left as it is. *)
Definition openStep (info : ExpandedStep) (w : World) : World :=
  match readAction w (action info) with
  | None => w
  | Some a =>
      let w := writeAction (expandedIndex (queue w)) info (Action.start a) w in
      let w := withRef (isFirstInRepeat info) (repeatBlock info)
                 (fun rb w => fire (onRepeatStart rb (itemIndex info))
                                   (onObject rb (Obj.setExecuting true) w)) w in
      let w := withRef (isFirstInIteration info) (repeatBlock info)
                 (fun rb w => fire (onRepeatIteration rb (iteration info)
                                                      (totalIterations info)) w) w in
      let w := withRef (isFirstInRecursion info) (recursiveRef info)
                 (fun rr w => fire (onRecursionStart rr (itemIndex info))
                                   (onObject rr (Obj.setExecuting true) w)) w in
      let w := when (isFromRecursion info && isFirstAtDepth info)
                 (fire (onRecursionDepthChange (recursiveRef info)
                                               (recursionDepth info)
                                               (recursionPhase info))) w in
      let w := withRef (isFirstInGroup info) (groupRef info)
                 (fun gr w => fire (onGroupStart gr (itemIndex info))
                                   (onObject gr (Obj.setExecuting true) w)) w in
      fire (onActionStart (Action.start a) (expandedIndex (queue w))) w
  end.

(** [ref.isComplete = true; ref.isExecuting = false] *)
Definition markComplete (l : loc) (w : World) : World :=
  onObject l (Obj.setExecuting false) (onObject l (Obj.setComplete true) w).

(** The boundaries a completed step closes, in the order [update()] checks
    them. *)
Definition closeStep (info : ExpandedStep) (w : World) : World :=
  let w := withRef (isLastInIteration info) (repeatBlock info)
             (fun rb w =>
                let hasMoreIterations := iteration info <? totalIterations info - 1 in
                when (negb hasMoreIterations && isLastInRepeat info)
                     (fun w => fire (onRepeatComplete rb (itemIndex info))
                                    (markComplete rb w)) w) w in
  let w := withRef (isLastInGroup info) (groupRef info)
             (fun gr w => fire (onGroupComplete gr (itemIndex info))
                               (markComplete gr w)) w in
  withRef (isLastInRecursion info) (recursiveRef info)
    (fun rr w => fire (onRecursionComplete rr (itemIndex info))
                      (markComplete rr w)) w.

(** [start()] *)
Definition start (w : World) : World :=
  if Z.of_nat (length (items (queue w))) =? 0 then w
  else
    let w := when (QueueState_eqb (state (queue w)) COMPLETE) reset w in
    let w := expandItems w in
    if Z.of_nat (length (expandedActions (queue w))) =? 0 then w
    else
      let w := onQueue (setState RUNNING) w in
      let w := match getCurrentItemInfo (queue w) with
               | Some currentInfo => openStep currentInfo w
               | None => w
               end in
      notifyChange w.

(** [pause()] *)
Definition pause (w : World) : World :=
  when (QueueState_eqb (state (queue w)) RUNNING) (onQueue (setState PAUSED)) w.

(** [resume()] *)
Definition resume (w : World) : World :=
  when (QueueState_eqb (state (queue w)) PAUSED) (onQueue (setState RUNNING)) w.

(** The object [update()] returns.  [res_action] is the state of the
    current action right after its own update. *)
Record UpdateResult := mkResult {
  res_action : option Action.t;
  res_progress : float;
  res_direction : Z * Z;
  res_actionComplete : bool;
  res_groupInfo : option ExpandedStep
}.

Definition emptyResult : UpdateResult := mkResult None 0%float (0, 0) false None.

(** [update(deltaTime)]: the world after the call, and the returned object.
    (As in [openStep], a step whose reference names no action of the store
    leaves the world as it is.) *)
Definition update (deltaTime : float) (w : World) : World * UpdateResult :=
  if negb (QueueState_eqb (state (queue w)) RUNNING) then (w, emptyResult)
  else
    match getCurrentItemInfo (queue w) with
    | None => (fire onQueueComplete (onQueue (setState COMPLETE) w), emptyResult)
    | Some currentInfo =>
        match readAction w (action currentInfo) with
        | None => (w, emptyResult)
        | Some a =>
            let '(currentAction, p) := Action.update deltaTime a in
            let w := writeAction (expandedIndex (queue w)) currentInfo currentAction w in
            if Action.isComplete currentAction then
              let w := fire (onActionComplete currentAction (expandedIndex (queue w))) w in
              let w := closeStep currentInfo w in
              (* [this.expandedIndex++] *)
              let w := onQueue (fun q => setExpandedIndex (S (expandedIndex q)) q) w in
              let w := match getCurrentItemInfo (queue w) with
                       | Some nextInfo => openStep nextInfo w
                       | None => fire onQueueComplete (onQueue (setState COMPLETE) w)
                       end in
              (notifyChange w,
               mkResult (Some currentAction) p (Action.getDirection currentAction)
                        true (Some currentInfo))
            else
              (w,
               mkResult (Some currentAction) p (Action.getDirection currentAction)
                        false (Some currentInfo))
        end
    end.

(** *** The callback slots and their handlers

    [fire] records a call of a slot and goes on: it is the call of a slot
    that is empty ([this.onActionStart?.(...)]), or of one whose handler
    leaves the queue and the objects it plays as they are.  A handler is code
    of the caller, though, and it runs in the middle of the method that calls
    it: the handler [Game] puts in [onActionComplete] calls
    [checkTargetCollision()], which calls [actionQueue.stop()] when the ball
    has reached the finish.  The methods that call a slot are given here once
    more, with the handlers as an argument: they are the methods above with
    [fireWith] in the place of [fire]. *)

(** What the handlers do when a slot is called: the world they leave. *)
Definition Handler := Event -> World -> World.

Section Handlers.

Variable handle : Handler.

(** A call of a slot: the call is recorded, then the handler runs. *)
Definition fireWith (e : Event) (w : World) : World := handle e (fire e w).

(** [notifyChange()] *)
Definition notifyChangeWith (w : World) : World :=
  fireWith (onQueueChange (items (queue w)) (currentIndex (queue w))) w.

(** [add(item)] *)
Definition addWith (item : loc) (w : World) : World * bool :=
  if maxSize (queue w) <=? Z.of_nat (length (items (queue w))) then (w, false)
  else if QueueState_eqb (state (queue w)) RUNNING then (w, false)
  else (notifyChangeWith (onQueue (fun q => setItems (items q ++ [item]) q) w), true).

(** [removeAt(index)] *)
Definition removeAtWith (index : Z) (w : World) : World * option loc :=
  if QueueState_eqb (state (queue w)) RUNNING then (w, None)
  else if (index <? 0) || (Z.of_nat (length (items (queue w))) <=? index) then (w, None)
  else
    (notifyChangeWith
       (onQueue (fun q => setItems (delete (Z.to_nat index) (items q)) q) w),
     items (queue w) !! Z.to_nat index).

(** [clear()] *)
Definition clearWith (w : World) : World :=
  let w1 := when (QueueState_eqb (state (queue w)) RUNNING) stop w in
  notifyChangeWith
    (onQueue (fun q => mk [] (maxSize q) 0 IDLE [] 0%nat) w1).

(** The block of [start()] and [update()] that enters a step; [info] is the
    local [currentInfo] or [nextInfo], which the handlers cannot change. *)
Definition openStepWith (info : ExpandedStep) (w : World) : World :=
  match readAction w (action info) with
  | None => w
  | Some a =>
      let w := writeAction (expandedIndex (queue w)) info (Action.start a) w in
      let w := withRef (isFirstInRepeat info) (repeatBlock info)
                 (fun rb w => fireWith (onRepeatStart rb (itemIndex info))
                                       (onObject rb (Obj.setExecuting true) w)) w in
      let w := withRef (isFirstInIteration info) (repeatBlock info)
                 (fun rb w => fireWith (onRepeatIteration rb (iteration info)
                                                          (totalIterations info)) w) w in
      let w := withRef (isFirstInRecursion info) (recursiveRef info)
                 (fun rr w => fireWith (onRecursionStart rr (itemIndex info))
                                       (onObject rr (Obj.setExecuting true) w)) w in
      let w := when (isFromRecursion info && isFirstAtDepth info)
                 (fireWith (onRecursionDepthChange (recursiveRef info)
                                                   (recursionDepth info)
                                                   (recursionPhase info))) w in
      let w := withRef (isFirstInGroup info) (groupRef info)
                 (fun gr w => fireWith (onGroupStart gr (itemIndex info))
                                       (onObject gr (Obj.setExecuting true) w)) w in
      fireWith (onActionStart (Action.start a) (expandedIndex (queue w))) w
  end.

(** The boundaries a completed step closes; [info] is the local
    [currentInfo]. *)
Definition closeStepWith (info : ExpandedStep) (w : World) : World :=
  let w := withRef (isLastInIteration info) (repeatBlock info)
             (fun rb w =>
                let hasMoreIterations := iteration info <? totalIterations info - 1 in
                when (negb hasMoreIterations && isLastInRepeat info)
                     (fun w => fireWith (onRepeatComplete rb (itemIndex info))
                                        (markComplete rb w)) w) w in
  let w := withRef (isLastInGroup info) (groupRef info)
             (fun gr w => fireWith (onGroupComplete gr (itemIndex info))
                                   (markComplete gr w)) w in
  withRef (isLastInRecursion info) (recursiveRef info)
    (fun rr w => fireWith (onRecursionComplete rr (itemIndex info))
                          (markComplete rr w)) w.

(** [start()] *)
Definition startWith (w : World) : World :=
  if Z.of_nat (length (items (queue w))) =? 0 then w
  else
    let w := when (QueueState_eqb (state (queue w)) COMPLETE) reset w in
    let w := expandItems w in
    if Z.of_nat (length (expandedActions (queue w))) =? 0 then w
    else
      let w := onQueue (setState RUNNING) w in
      let w := match getCurrentItemInfo (queue w) with
               | Some currentInfo => openStepWith currentInfo w
               | None => w
               end in
      notifyChangeWith w.

(** [update(deltaTime)].  Whatever the handler of [onActionComplete] and the
    handlers of the closed boundaries have done to the queue, the method goes
    on with [this.expandedIndex++] and looks for the next step in the queue
    as they have left it. *)
Definition updateWith (deltaTime : float) (w : World) : World * UpdateResult :=
  if negb (QueueState_eqb (state (queue w)) RUNNING) then (w, emptyResult)
  else
    match getCurrentItemInfo (queue w) with
    | None => (fireWith onQueueComplete (onQueue (setState COMPLETE) w), emptyResult)
    | Some currentInfo =>
        match readAction w (action currentInfo) with
        | None => (w, emptyResult)
        | Some a =>
            let '(currentAction, p) := Action.update deltaTime a in
            let w := writeAction (expandedIndex (queue w)) currentInfo currentAction w in
            if Action.isComplete currentAction then
              let w := fireWith (onActionComplete currentAction (expandedIndex (queue w)))
                                w in
              let w := closeStepWith currentInfo w in
              (* [this.expandedIndex++] *)
              let w := onQueue (fun q => setExpandedIndex (S (expandedIndex q)) q) w in
              let w := match getCurrentItemInfo (queue w) with
                       | Some nextInfo => openStepWith nextInfo w
                       | None => fireWith onQueueComplete (onQueue (setState COMPLETE) w)
                       end in
              (notifyChangeWith w,
               mkResult (Some currentAction) p (Action.getDirection currentAction)
                        true (Some currentInfo))
            else
              (w,
               mkResult (Some currentAction) p (Action.getDirection currentAction)
                        false (Some currentInfo))
        end
    end.

End Handlers.

(** *** Queries *)

Definition size (w : World) : Z := Z.of_nat (length (items (queue w))).

(** [get totalActions()] *)
Definition totalActions (w : World) : Z :=
  fold_left (fun count item =>
               match objects w !! item with
               | Some (ObjGroupRef r) => count + ActionGroup.size (GroupReference.group r)
               | _ => count + 1
               end)
            (items (queue w)) 0.

Definition isEmpty (w : World) : bool := Z.of_nat (length (items (queue w))) =? 0.

Definition isFull (w : World) : bool :=
  maxSize (queue w) <=? Z.of_nat (length (items (queue w))).

Definition isRunning (w : World) : bool := QueueState_eqb (state (queue w)) RUNNING.

(** *** Serialization *)

(** What [toJSON()] makes of one item. *)
Inductive ItemJson :=
| JsonAction (data : Action.Data)
| JsonRepeat (data : RepeatBlock.Json).

(** [action.toJSON()] for the item at a location: an action and a repeat
    block have the method; a group reference and a recursive reference have
    none, and the call throws ([None]). *)
Definition itemToJSON (objs : list Obj) (item : loc) : option ItemJson :=
  match objs !! item with
  | Some (ObjAction a) => Some (JsonAction (Action.toJSON a))
  | Some (ObjRepeat b) => Some (JsonRepeat (RepeatBlock.toJSON b))
  | _ => None
  end.

(** [toJSON()]: the array, or [None] when a call of [toJSON] throws. *)
Definition toJSON (w : World) : option (list ItemJson) :=
  mapM (itemToJSON (objects w)) (items (queue w)).

(** [fromJSON(data)]: [clear()], then for every element a new action, put
    at a fresh location, and [add]. *)
Definition fromJSON (data : list Action.Data) (w : World) : World :=
  fold_left
    (fun w actionData =>
       fst (add (length (objects w))
                (mkWorld (objects w ++ [ObjAction (Action.fromJSON actionData)])
                         (queue w) (fired w))))
    data (clear w).

End ActionQueue.

(** ** The Game class: editing a depth and a count

    The methods of [Game] that change the depth of a recursive group and the
    count of a repeat block; what they do besides (logging, redrawing) does
    not touch the group or the block. *)

Module Game.

(** [array.indexOf(x)]: the first index of [x], or -1. *)
Fixpoint indexOf (x : Z) (l : list Z) : Z :=
  match l with
  | [] => -1
  | y :: l' =>
      if y =? x then 0
      else match indexOf x l' with
           | -1 => -1
           | i => i + 1
           end
  end.

(** The step common to the two cycling methods: the value after [current]
    in [cycleValues], going round; [cycleValues[nextIndex]] is always within
    the array. *)
Definition nextInCycle (cycleValues : list Z) (current : Z) : option Z :=
  let currentIndex := indexOf current cycleValues in
  let nextIndex := Z.rem (currentIndex + 1) (Z.of_nat (length cycleValues)) in
  cycleValues !! Z.to_nat nextIndex.

(** [changeRecursionDepth(delta)], on [this.buildingRecursiveGroup] ([None]
    when there is none). *)
Definition changeRecursionDepth (delta : Z) (building : option RecursiveGroup.t)
    : option RecursiveGroup.t :=
  match building with
  | None => None
  | Some g =>
      let newDepth :=
        Z.max 1 (Z.min MAX_RECURSION_DEPTH (RecursiveGroup.maxDepth g + delta)) in
      Some (RecursiveGroup.setMaxDepth newDepth g)
  end.

(** [cycleRecursionDepth(group, index)]: 2, 3, 4, 5, then 2 again. *)
Definition cycleRecursionDepth (g : RecursiveGroup.t) : RecursiveGroup.t :=
  match nextInCycle [2; 3; 4; 5] (RecursiveGroup.maxDepth g) with
  | Some v => RecursiveGroup.setMaxDepth v g
  | None => g
  end.

(** [editRepeatCount(repeatBlock, index)]: 2, 3, 4, 5, 10, then 2 again. *)
Definition editRepeatCount (b : RepeatBlock.t) : RepeatBlock.t :=
  match nextInCycle [2; 3; 4; 5; 10] (RepeatBlock.count b) with
  | Some v => RepeatBlock.setCount v b
  | None => b
  end.

(** [checkTargetCollision()], as far as the queue goes: when the ball is on
    the finish target, not collected yet, it calls [actionQueue.stop()];
    collecting a target, the effects and the sounds leave the queue alone.
    [onFinish] says whether the ball is there. *)
Definition checkTargetCollision (onFinish : bool) (w : ActionQueue.World)
    : ActionQueue.World :=
  if onFinish then ActionQueue.stop w else w.

(** The handlers [setupActionQueueCallbacks()] puts in the slots, as far as
    the queue goes: the handler of [onActionComplete] calls
    [checkTargetCollision()]; the others log, redraw and move the ball.
    [reachesFinish index] says whether the action completed at [index] has
    brought the ball to the finish. *)
Definition handlers (reachesFinish : nat -> bool) : ActionQueue.Handler :=
  fun e w =>
    match e with
    | onActionComplete _ index => checkTargetCollision (reachesFinish index) w
    | _ => w
    end.

End Game.

(** * Vocabulary of the statements *)

(** ** Runs of a queue *)

(** The operations a caller applies to a queue. *)
Inductive Op :=
| OpStart
| OpUpdate (deltaTime : float)
| OpPause
| OpResume
| OpStop
| OpReset
| OpClear
| OpAdd (item : loc)
| OpRemoveAt (index : Z).

Definition step (op : Op) (w : ActionQueue.World) : ActionQueue.World :=
  match op with
  | OpStart => ActionQueue.start w
  | OpUpdate deltaTime => fst (ActionQueue.update deltaTime w)
  | OpPause => ActionQueue.pause w
  | OpResume => ActionQueue.resume w
  | OpStop => ActionQueue.stop w
  | OpReset => ActionQueue.reset w
  | OpClear => ActionQueue.clear w
  | OpAdd item => fst (ActionQueue.add item w)
  | OpRemoveAt index => fst (ActionQueue.removeAt index w)
  end.

Definition run (ops : list Op) (w : ActionQueue.World) : ActionQueue.World :=
  fold_left (fun w op => step op w) ops w.

(** [start()] is called on a queue at rest: [IDLE] or [COMPLETE]. *)
Definition atRest (w : ActionQueue.World) : bool :=
  QueueState_eqb (ActionQueue.state (ActionQueue.queue w)) IDLE
  || QueueState_eqb (ActionQueue.state (ActionQueue.queue w)) COMPLETE.

(** Every [start()] of the run is called on a queue at rest. *)
Fixpoint startsAtRest (ops : list Op) (w : ActionQueue.World) : bool :=
  match ops with
  | [] => true
  | op :: ops' =>
      (match op with OpStart => atRest w | _ => true end)
      && startsAtRest ops' (step op w)
  end.

(** ** Runs with handlers *)

(** A handler that only observes: whatever slot is called, it leaves the
    queue and the objects it plays as they are.  It does not call back into
    the queue. *)
Definition observes (handle : ActionQueue.Handler) : Prop :=
  forall (e : Event) (w : ActionQueue.World), handle e w = w.

(** The handlers of [Game] on a level where no action of the run brings the
    ball to the finish, and where the first action does. *)
Definition awayFromFinish : ActionQueue.Handler := Game.handlers (fun _ => false).

Definition finishAtFirst : ActionQueue.Handler :=
  Game.handlers (fun index => (index =? 0)%nat).

Definition stepWith (handle : ActionQueue.Handler) (op : Op) (w : ActionQueue.World)
    : ActionQueue.World :=
  match op with
  | OpStart => ActionQueue.startWith handle w
  | OpUpdate deltaTime => fst (ActionQueue.updateWith handle deltaTime w)
  | OpPause => ActionQueue.pause w
  | OpResume => ActionQueue.resume w
  | OpStop => ActionQueue.stop w
  | OpReset => ActionQueue.reset w
  | OpClear => ActionQueue.clearWith handle w
  | OpAdd item => fst (ActionQueue.addWith handle item w)
  | OpRemoveAt index => fst (ActionQueue.removeAtWith handle index w)
  end.

Definition runWith (handle : ActionQueue.Handler) (ops : list Op) (w : ActionQueue.World)
    : ActionQueue.World :=
  fold_left (fun w op => stepWith handle op w) ops w.

(** Every [start()] of the run is called on a queue at rest. *)
Fixpoint startsAtRestWith (handle : ActionQueue.Handler) (ops : list Op)
    (w : ActionQueue.World) : bool :=
  match ops with
  | [] => true
  | op :: ops' =>
      (match op with OpStart => atRest w | _ => true end)
      && startsAtRestWith handle ops' (stepWith handle op w)
  end.

(** [update(deltaTime)] called once per frame, for the frame times given. *)
Definition updatesWith (handle : ActionQueue.Handler) (deltas : list float)
    (w : ActionQueue.World) : ActionQueue.World :=
  fold_left (fun w deltaTime => fst (ActionQueue.updateWith handle deltaTime w)) deltas w.

(** ** Callbacks and frames *)

(** Calls of [onActionComplete], and calls of [onQueueComplete]. *)
Definition isActionComplete (e : Event) : bool :=
  match e with onActionComplete _ _ => true | _ => false end.

Definition isQueueComplete (e : Event) : bool :=
  match e with onQueueComplete => true | _ => false end.

(** A frame as long as the action's duration brings a freshly started action
    to completion: [0 + d / d >= 1].  This holds of every finite duration
    other than zero, and fails for 0, the infinities and NaN, where [d / d]
    is NaN. *)
Definition completesInOneFrame (d : float) : bool := (1 <=? 0 + d / d)%float.

(** ** The cursor *)

(** The playback cursor of a world: state, index, length of the expansion. *)
Definition cursor (w : ActionQueue.World) : QueueState * nat * nat :=
  (ActionQueue.state (ActionQueue.queue w),
   ActionQueue.expandedIndex (ActionQueue.queue w),
   length (ActionQueue.expandedActions (ActionQueue.queue w))).

(** Where the cursor can be in each state: at 0 of an empty expansion when
    [IDLE], on a step when [RUNNING] or [PAUSED], just past the last step of
    a non-empty expansion when [COMPLETE]. *)
Definition cursorInv (w : ActionQueue.World) : Prop :=
  match cursor w with
  | (IDLE, index, len) => index = 0%nat /\ len = 0%nat
  | (RUNNING, index, len) | (PAUSED, index, len) => (index < len)%nat
  | (COMPLETE, index, len) => index = len /\ (0 < len)%nat
  end.

(** Two worlds that differ at most in the state of the queue: the same
    objects (so every action has the progress it had), the same record of
    callback calls, the same items, expansion and cursor. *)
Definition differOnlyInState (w w' : ActionQueue.World) : Prop :=
  ActionQueue.objects w' = ActionQueue.objects w
  /\ ActionQueue.fired w' = ActionQueue.fired w
  /\ ActionQueue.items (ActionQueue.queue w') = ActionQueue.items (ActionQueue.queue w)
  /\ ActionQueue.maxSize (ActionQueue.queue w') = ActionQueue.maxSize (ActionQueue.queue w)
  /\ ActionQueue.currentIndex (ActionQueue.queue w')
     = ActionQueue.currentIndex (ActionQueue.queue w)
  /\ ActionQueue.expandedActions (ActionQueue.queue w')
     = ActionQueue.expandedActions (ActionQueue.queue w)
  /\ ActionQueue.expandedIndex (ActionQueue.queue w')
     = ActionQueue.expandedIndex (ActionQueue.queue w).

(** From [w] to [w'] the cursor has not moved, no action of the store has
    ceased to be one, and no step other than the one at the cursor has been
    touched. *)
Definition settled (w w' : ActionQueue.World) : Prop :=
  cursor w' = cursor w
  /\ (forall l a, ActionQueue.objects w !! l = Some (ObjAction a) ->
                  exists a', ActionQueue.objects w' !! l = Some (ObjAction a'))
  /\ (forall j, j <> ActionQueue.expandedIndex (ActionQueue.queue w) ->
                ActionQueue.expandedActions (ActionQueue.queue w') !! j
                = ActionQueue.expandedActions (ActionQueue.queue w) !! j).

(** From [w] to [w'] callbacks may have been called, but not
    [onActionComplete]. *)
Definition quiet (w w' : ActionQueue.World) : Prop :=
  exists es, ActionQueue.fired w' = ActionQueue.fired w ++ es
             /\ List.filter isActionComplete es = [].

Definition steady (w w' : ActionQueue.World) : Prop := settled w w' /\ quiet w w'.

(** The action a reference leads to has just been started: no progress, not
    complete. *)
Definition justStarted (w : ActionQueue.World) (r : ActionRef) : Prop :=
  exists a, ActionQueue.readAction w r = Some a
            /\ Action.progress a = 0%float /\ Action.isComplete a = false.

(** From [w] to [w'] the queue is the same and every action that had just
    been started still has: only flags of objects and the record of
    callbacks may differ. *)
Definition onlyFlags (w w' : ActionQueue.World) : Prop :=
  ActionQueue.queue w' = ActionQueue.queue w
  /\ (forall r, justStarted w r -> justStarted w' r).

(** ** The stages of an update that completes an action *)

(** What [update()] does once the current action is complete and the
    cursor has moved on: enter the next step, or finish the queue. *)
Definition enterNext (w : ActionQueue.World) : ActionQueue.World :=
  match ActionQueue.getCurrentItemInfo (ActionQueue.queue w) with
  | Some nextInfo => ActionQueue.openStep nextInfo w
  | None => ActionQueue.fire onQueueComplete
              (ActionQueue.onQueue (ActionQueue.setState COMPLETE) w)
  end.

(** The stages of [update()] when the action [a] of the current step [info]
    completes: the action written back and reported, the boundaries closed
    and the cursor moved, the next step entered and the change notified
    (see [update_cases]). *)
Definition reported (deltaTime : float) (w : ActionQueue.World)
    (info : ActionQueue.ExpandedStep) (a : Action.t) : ActionQueue.World :=
  ActionQueue.fire
    (onActionComplete (fst (Action.update deltaTime a))
                      (ActionQueue.expandedIndex (ActionQueue.queue w)))
    (ActionQueue.writeAction (ActionQueue.expandedIndex (ActionQueue.queue w))
                             info (fst (Action.update deltaTime a)) w).

Definition moved (deltaTime : float) (w : ActionQueue.World)
    (info : ActionQueue.ExpandedStep) (a : Action.t) : ActionQueue.World :=
  ActionQueue.onQueue
    (fun q => ActionQueue.setExpandedIndex (S (ActionQueue.expandedIndex q)) q)
    (ActionQueue.closeStep info (reported deltaTime w info a)).

Definition final (deltaTime : float) (w : ActionQueue.World)
    (info : ActionQueue.ExpandedStep) (a : Action.t) : ActionQueue.World :=
  ActionQueue.notifyChange (enterNext (moved deltaTime w info a)).

(** ** Counting actions and steps *)

(** What one pass of the [for] loop of [RepeatBlock.getExpandedActions]
    pushes. *)
Definition pass (b : RepeatBlock.t) (it : Z) : list RepeatBlock.Entry :=
  flat_map (RepeatBlock.expandItem it) (RepeatBlock.items b).

(** How the [totalActions] query counts the item at a location: a group
    reference as the number of actions of its group, everything else (a
    plain action, a repeat block, a recursive reference) as 1. *)
Definition countedAs (objs : list Obj) (item : loc) : Z :=
  match objs !! item with
  | Some (ObjAction _) => 1
  | Some (ObjGroupRef r) => Z.of_nat (length (ActionGroup.actions (GroupReference.group r)))
  | Some (ObjRepeat _) => 1
  | Some (ObjRecursiveRef _) => 1
  | None => 1
  end.

(** How many steps [expandItems()] makes of the item at a location. *)
Definition stepsOf (objs : list Obj) (item : loc) : nat :=
  match objs !! item with
  | Some (ObjAction _) => 1
  | Some (ObjGroupRef r) => length (ActionGroup.actions (GroupReference.group r))
  | Some (ObjRepeat b) => length (RepeatBlock.getExpandedActions b)
  | Some (ObjRecursiveRef r) => length (RecursiveReference.getExpandedActions r)
  | None => 1
  end.

(** The item is no repeat block or recursive reference that expands to
    fewer than [n] steps. *)
Definition expandsToAtLeast (n : nat) (objs : list Obj) (item : loc) : Prop :=
  match objs !! item with
  | Some (ObjRepeat b) => (n <= length (RepeatBlock.getExpandedActions b))%nat
  | Some (ObjRecursiveRef r) => (n <= length (RecursiveReference.getExpandedActions r))%nat
  | _ => True
  end.

(** The item is a repeat block or a recursive reference that expands to two
    steps or more. *)
Definition expandsToSeveral (objs : list Obj) (item : loc) : Prop :=
  match objs !! item with
  | Some (ObjRepeat b) => (2 <= length (RepeatBlock.getExpandedActions b))%nat
  | Some (ObjRecursiveRef r) => (2 <= length (RecursiveReference.getExpandedActions r))%nat
  | _ => False
  end.

(** The sum of a list of integers. *)
Definition sumZ (l : list Z) : Z := fold_right Z.add 0 l.

(** ** Concrete queues *)

(** The queue of scenario A: the items Up and Right of the configured
    duration, as two calls of [addByType] on a fresh queue leave them, with
    an empty record of callback calls; and the same queue started. *)
Definition scenarioA : ActionQueue.World :=
  ActionQueue.mkWorld
    [ObjAction (Action.newDefault MOVE_UP); ObjAction (Action.newDefault MOVE_RIGHT)]
    (ActionQueue.mk [0%nat; 1%nat] CONFIG.maxQueueSize 0 IDLE [] 0%nat) [].

Definition playingTwo : ActionQueue.World := ActionQueue.start scenarioA.

(** The world of scenario A after [start()] and one [update] with the
    duration of Up, for actions of durations [d1] and [d2]. *)
Definition afterUp (d1 d2 : float) (size : Z) : ActionQueue.World :=
  ActionQueue.mkWorld
    [ObjAction (Action.mk MOVE_UP d1 false true 1%float);
     ObjAction (Action.mk MOVE_RIGHT d2 true false 0%float)]
    (ActionQueue.mk [0%nat; 1%nat] size 0 RUNNING
       [ActionQueue.plainStep 0%nat 0%nat; ActionQueue.plainStep 1%nat 1%nat] 1%nat)
    [onActionStart (Action.mk MOVE_UP d1 true false 0%float) 0%nat;
     onQueueChange [0%nat; 1%nat] 0;
     onActionComplete (Action.mk MOVE_UP d1 false true 1%float) 0%nat;
     onActionStart (Action.mk MOVE_RIGHT d2 true false 0%float) 1%nat;
     onQueueChange [0%nat; 1%nat] 0].

(** The block and the queue of scenario B: a repeat block with count 3 and
    the single item Right, alone in a queue. *)
Definition blockB : RepeatBlock.t :=
  fst (fst (RepeatBlock.addItem 1 (RepeatBlock.ItemAction (Action.newDefault MOVE_RIGHT))
                                (RepeatBlock.new 3))).

Definition scenarioB : ActionQueue.World :=
  fst (ActionQueue.add 0%nat (ActionQueue.init [ObjRepeat blockB] CONFIG.maxQueueSize)).

(** A queue that is playing: one item, started. *)
Definition playingOne : ActionQueue.World :=
  ActionQueue.start
    (fst (ActionQueue.addByType MOVE_UP (ActionQueue.init [] CONFIG.maxQueueSize))).

(** A fresh queue over three plain actions of the configured duration, and
    three runs on it: one that plays two items to the end, one that stops
    after starting, and one that calls [start()] again on the paused queue
    after removing items. *)
Definition threeActions : ActionQueue.World :=
  ActionQueue.init
    [ObjAction (Action.newDefault MOVE_UP);
     ObjAction (Action.newDefault MOVE_RIGHT);
     ObjAction (Action.newDefault MOVE_DOWN)]
    CONFIG.maxQueueSize.

Definition playedRun : list Op :=
  [OpAdd 0%nat; OpAdd 1%nat; OpStart; OpUpdate 300; OpPause; OpResume; OpUpdate 300].

Definition stoppedRun : list Op := [OpAdd 0%nat; OpStart; OpStop].

(** Two items, started, and one frame that completes the first action. *)
Definition finishRun : list Op := [OpAdd 0%nat; OpAdd 1%nat; OpStart; OpUpdate 300].

Definition restartedRun : list Op :=
  [OpAdd 0%nat; OpAdd 1%nat; OpAdd 2%nat; OpStart; OpUpdate 300; OpUpdate 300;
   OpPause; OpRemoveAt 0; OpRemoveAt 0; OpStart].

(** A queue holding one repeat block with count 2 and no items; and a queue
    holding a recursive reference with one pre-action, one post-action and
    maximum depth 1, followed by such an empty repeat block. *)
Definition emptyRepeatQueue : ActionQueue.World :=
  fst (ActionQueue.add 0%nat
         (ActionQueue.init [ObjRepeat (RepeatBlock.new 2)] CONFIG.maxQueueSize)).

Definition shallowRecursion : RecursiveGroup.t :=
  RecursiveGroup.setMaxDepth 1
    (RecursiveGroup.addPostAction (Action.newDefault MOVE_DOWN)
       (RecursiveGroup.addPreAction (Action.newDefault MOVE_RIGHT)
          (RecursiveGroup.new "R1" "#FF6B6B"))).

Definition recursionAndEmptyRepeat : ActionQueue.World :=
  fst (ActionQueue.add 1%nat
         (fst (ActionQueue.add 0%nat
                 (ActionQueue.init
                    [ObjRecursiveRef (RecursiveReference.new shallowRecursion);
                     ObjRepeat (RepeatBlock.new 2)]
                    CONFIG.maxQueueSize)))).

(** ** Calls in sequence *)

(** The methods that change the state of an action, and a sequence of
    calls on one action. *)
Inductive ActionOp :=
| ActStart
| ActUpdate (deltaTime : float)
| ActReset.

Definition applyActionOp (op : ActionOp) (a : Action.t) : Action.t :=
  match op with
  | ActStart => Action.start a
  | ActUpdate deltaTime => fst (Action.update deltaTime a)
  | ActReset => Action.reset a
  end.

Definition applyActionOps (ops : list ActionOp) (a : Action.t) : Action.t :=
  fold_left (fun a op => applyActionOp op a) ops a.

(** The methods that edit a repeat block, and a sequence of calls on one
    block; [addItem] with the static counter of [ActionGroup] as it is at
    the call. *)
Inductive BlockOp :=
| BlockSetCount (n : Z)
| BlockIncrement
| BlockDecrement
| BlockAddItem (groupCount : nat) (item : RepeatBlock.Item).

Definition applyBlockOp (op : BlockOp) (b : RepeatBlock.t) : RepeatBlock.t :=
  match op with
  | BlockSetCount n => RepeatBlock.setCount n b
  | BlockIncrement => RepeatBlock.increment b
  | BlockDecrement => RepeatBlock.decrement b
  | BlockAddItem groupCount item => fst (fst (RepeatBlock.addItem groupCount item b))
  end.

Definition applyBlockOps (ops : list BlockOp) (b : RepeatBlock.t) : RepeatBlock.t :=
  fold_left (fun b op => applyBlockOp op b) ops b.

(** The depths [0, 1, ..., n - 1] of a recursion of maximum depth [n]. *)
Definition depths (n : Z) : list Z := map Z.of_nat (seq 0 (Z.to_nat n)).

(** ** Every call on a queue *)

(** The methods of the queue that change it: those of [Op], and the other
    ways of adding and removing items and of loading a queue. *)
Inductive Call :=
| Basic (op : Op)
| AddByType (ty : ActionType)
| AddGroupReference (g : ActionGroup.t)
| AddRepeatBlock (blk : loc)
| AddRecursiveReference (g : RecursiveGroup.t)
| RemoveLast
| FromJSON (data : list Action.Data).

Definition call (c : Call) (w : ActionQueue.World) : ActionQueue.World :=
  match c with
  | Basic op => step op w
  | AddByType ty => fst (ActionQueue.addByType ty w)
  | AddGroupReference g => fst (ActionQueue.addGroupReference g w)
  | AddRepeatBlock blk => fst (ActionQueue.addRepeatBlock blk w)
  | AddRecursiveReference g => fst (ActionQueue.addRecursiveReference g w)
  | RemoveLast => fst (ActionQueue.removeLast w)
  | FromJSON data => ActionQueue.fromJSON data w
  end.

Definition calls (cs : list Call) (w : ActionQueue.World) : ActionQueue.World :=
  fold_left (fun w c => call c w) cs w.

(** The calls made while a queue plays that leave the playback going:
    [update], [pause], [resume], and the (rejected or accepted) edits [add]
    and [removeAt]. *)
Definition isPlayback (op : Op) : bool :=
  match op with
  | OpUpdate _ | OpPause | OpResume | OpAdd _ | OpRemoveAt _ => true
  | OpStart | OpStop | OpReset | OpClear => false
  end.

(** [update(deltaTime)] called once per frame, for the frame times given. *)
Definition updates (deltas : list float) (w : ActionQueue.World) : ActionQueue.World :=
  fold_left (fun w deltaTime => fst (ActionQueue.update deltaTime w)) deltas w.

(** ** Callbacks counted *)

(** From [w] to [w'] the callbacks called include [onActionComplete]
    [completions] times and [onQueueComplete] [ends] times. *)
Definition emits (completions ends : nat) (w w' : ActionQueue.World) : Prop :=
  exists es, ActionQueue.fired w' = ActionQueue.fired w ++ es
             /\ length (List.filter isActionComplete es) = completions
             /\ length (List.filter isQueueComplete es) = ends.

(** ** What playback keeps *)

(** From [w] to [w'] the cursor has not moved and no step other than the
    one at the cursor has been touched ([settled]); the items, the capacity
    and [currentIndex] are the same; and every action of the store is still
    an action of the same type and duration. *)
Record kept (w w' : ActionQueue.World) : Prop := mkKept {
  kept_settled : settled w w';
  kept_items :
    ActionQueue.items (ActionQueue.queue w') = ActionQueue.items (ActionQueue.queue w);
  kept_maxSize :
    ActionQueue.maxSize (ActionQueue.queue w') = ActionQueue.maxSize (ActionQueue.queue w);
  kept_currentIndex :
    ActionQueue.currentIndex (ActionQueue.queue w')
    = ActionQueue.currentIndex (ActionQueue.queue w);
  kept_actions :
    forall l a, ActionQueue.objects w !! l = Some (ObjAction a) ->
                exists a', ActionQueue.objects w' !! l = Some (ObjAction a')
                           /\ Action.type a' = Action.type a
                           /\ Action.duration a' = Action.duration a
}.

(** [kept], with no call of [onActionComplete] or [onQueueComplete]. *)
Definition calm (w w' : ActionQueue.World) : Prop := kept w w' /\ emits 0 0 w w'.

(** From [w] to [w'] the queue is the same and every action that was in the
    state [start()] leaves it in still is. *)
Definition firm (w w' : ActionQueue.World) : Prop :=
  ActionQueue.queue w' = ActionQueue.queue w
  /\ (forall r a, ActionQueue.readAction w r = Some (Action.start a) ->
                  ActionQueue.readAction w' r = Some (Action.start a)).

(** ** Playing to the end *)

(** A frame of [deltaTime] brings a freshly started action of duration [d]
    to completion: [0 + deltaTime / d >= 1]. *)
Definition frameCompletes (deltaTime d : float) : bool := (1 <=? 0 + deltaTime / d)%float.

(** The reference leads to an action that one frame of [deltaTime]
    completes. *)
Definition wellTimed (deltaTime : float) (w : ActionQueue.World) (r : ActionRef) : Prop :=
  exists a, ActionQueue.readAction w r = Some a
            /\ frameCompletes deltaTime (Action.duration a) = true.

(** A queue that is playing, as [start()] and [update()] leave it: the
    action at the cursor has been started and nothing more, and that action
    and the actions of all steps to come are completed by one frame of
    [deltaTime]. *)
Definition ready (deltaTime : float) (w : ActionQueue.World) : Prop :=
  ActionQueue.state (ActionQueue.queue w) = RUNNING
  /\ (exists info a,
         ActionQueue.getCurrentItemInfo (ActionQueue.queue w) = Some info
         /\ ActionQueue.readAction w (ActionQueue.action info) = Some (Action.start a)
         /\ frameCompletes deltaTime (Action.duration a) = true)
  /\ Forall (fun s => wellTimed deltaTime w (ActionQueue.action s))
            (drop (S (ActionQueue.expandedIndex (ActionQueue.queue w)))
                  (ActionQueue.expandedActions (ActionQueue.queue w))).

(** The steps still to be played, the one at the cursor included. *)
Definition stepsLeft (w : ActionQueue.World) : nat :=
  (length (ActionQueue.expandedActions (ActionQueue.queue w))
   - ActionQueue.expandedIndex (ActionQueue.queue w))%nat.

(** ** Steps and their items *)

(** A step that opens its block (the first of a repeat, of a group, of a
    recursion), one that closes it, and one that belongs to a block. *)
Definition opens (s : ActionQueue.ExpandedStep) : bool :=
  ActionQueue.isFirstInRepeat s || ActionQueue.isFirstInGroup s
  || ActionQueue.isFirstInRecursion s.

Definition closes (s : ActionQueue.ExpandedStep) : bool :=
  ActionQueue.isLastInRepeat s || ActionQueue.isLastInGroup s
  || ActionQueue.isLastInRecursion s.

Definition inBlock (s : ActionQueue.ExpandedStep) : bool :=
  ActionQueue.isFromRepeat s || ActionQueue.isFromGroup s || ActionQueue.isFromRecursion s.

(** The item at a location has a [toJSON] method: it is an action or a
    repeat block. *)
Definition hasToJSON (objs : list Obj) (item : loc) : bool :=
  match objs !! item with
  | Some (ObjAction _) | Some (ObjRepeat _) => true
  | _ => false
  end.

(** A queue of four items over a store of four objects: a plain action, a
    reference to a group of two actions, a repeat block of two passes over
    one action, and a reference to a recursive group of depth 2 with one
    pre-action and one post-action. *)
Definition mixedQueue : ActionQueue.World :=
  ActionQueue.mkWorld
    [ObjAction (Action.newDefault MOVE_UP);
     ObjGroupRef
       (GroupReference.new
          (ActionGroup.addActionByType MOVE_LEFT
             (ActionGroup.addActionByType MOVE_RIGHT
                (ActionGroup.mk "Block 1" "#4ECDC4" []))));
     ObjRepeat
       (fst (fst (RepeatBlock.addItem 1 (RepeatBlock.ItemAction (Action.newDefault WAIT))
                                      (RepeatBlock.new 2))));
     ObjRecursiveRef
       (RecursiveReference.new
          (RecursiveGroup.setMaxDepth 2
             (RecursiveGroup.addPostAction (Action.newDefault MOVE_DOWN)
                (RecursiveGroup.addPreAction (Action.newDefault MOVE_RIGHT)
                   (RecursiveGroup.new "R1" "#FF6B6B")))))]
    (ActionQueue.mk [0%nat; 1%nat; 2%nat; 3%nat] CONFIG.maxQueueSize 0 IDLE [] 0%nat) [].

(** The queue has the capacity [size] and holds no more items than that. *)
Definition withinCapacity (size : Z) (w : ActionQueue.World) : Prop :=
  ActionQueue.maxSize (ActionQueue.queue w) = size
  /\ Z.of_nat (length (ActionQueue.items (ActionQueue.queue w))) <= Z.max 0 size.

(** The queue has been played to its end. *)
Definition finished (w : ActionQueue.World) : bool :=
  QueueState_eqb (ActionQueue.state (ActionQueue.queue w)) COMPLETE.

(** * Properties *)

(** Case analysis on every integer comparison of the goal. *)
Ltac Zbools :=
  repeat match goal with
         | |- context [(?a <=? ?b)%Z] => destruct (Z.leb_spec a b)
         | |- context [(?a <? ?b)%Z] => destruct (Z.ltb_spec a b)
         | |- context [(?a =? ?b)%Z] => destruct (Z.eqb_spec a b)
         end;
  simpl; try reflexivity; try lia.

(** ** Clamping setters *)

(** [Math.max(1, Math.min(5, d))] by cases on [d]. *)
Lemma maxDepth_setMaxDepth (d : Z) (g : RecursiveGroup.t) :
  RecursiveGroup.maxDepth (RecursiveGroup.setMaxDepth d g)
  = if d <? 1 then 1 else if 5 <? d then 5 else d.
Proof.
  unfold RecursiveGroup.setMaxDepth, MAX_RECURSION_DEPTH; simpl.
  destruct (Z.ltb_spec d 1), (Z.ltb_spec 5 d); lia.
Qed.

Lemma count_setCount (n : Z) (b : RepeatBlock.t) :
  RepeatBlock.count (RepeatBlock.setCount n b)
  = if n <? 1 then 1 else if 99 <? n then 99 else n.
Proof.
  unfold RepeatBlock.setCount, RepeatBlock.clampCount, MAX_REPETITIONS; simpl.
  destruct (Z.ltb_spec n 1), (Z.ltb_spec 99 n); lia.
Qed.

(** C8: for every integer [d], [setMaxDepth d] stores the clamp of [d] into
    [1, 5] (below 1 gives 1, above 5 gives 5, otherwise [d]), and for every
    integer [n], [setCount n] stores the clamp of [n] into [1, 99]; the other
    fields of the group and of the block are kept. *)
Theorem C8_setters_clamp (d n : Z) (g : RecursiveGroup.t) (b : RepeatBlock.t) :
  (1 <= RecursiveGroup.maxDepth (RecursiveGroup.setMaxDepth d g) <= 5
   /\ RecursiveGroup.maxDepth (RecursiveGroup.setMaxDepth d g)
      = (if d <? 1 then 1 else if 5 <? d then 5 else d)
   /\ RecursiveGroup.preActions (RecursiveGroup.setMaxDepth d g) = RecursiveGroup.preActions g
   /\ RecursiveGroup.postActions (RecursiveGroup.setMaxDepth d g) = RecursiveGroup.postActions g)
  /\ (1 <= RepeatBlock.count (RepeatBlock.setCount n b) <= 99
      /\ RepeatBlock.count (RepeatBlock.setCount n b)
         = (if n <? 1 then 1 else if 99 <? n then 99 else n)
      /\ RepeatBlock.items (RepeatBlock.setCount n b) = RepeatBlock.items b).
Proof.
  rewrite maxDepth_setMaxDepth, count_setCount.
  repeat split; try reflexivity.
  all: destruct (Z.ltb_spec d 1), (Z.ltb_spec 5 d),
                (Z.ltb_spec n 1), (Z.ltb_spec 99 n); lia.
Qed.

(** ** RepeatBlock.addItem *)

Lemma clone_clone (a : Action.t) : Action.clone (Action.clone a) = Action.clone a.
Proof. reflexivity. Qed.

Lemma map_clone_clone (l : list Action.t) :
  map Action.clone (map Action.clone l) = map Action.clone l.
Proof. rewrite map_map. reflexivity. Qed.

Lemma fold_addAction (l : list Action.t) :
  forall acc : ActionGroup.t,
    fold_left (fun acc a => ActionGroup.addAction a acc) l acc
    = ActionGroup.mk (ActionGroup.name acc) (ActionGroup.color acc)
                     (ActionGroup.actions acc ++ map Action.clone l).
Proof.
  induction l as [| a l IH]; intros acc; simpl.
  - rewrite app_nil_r. destruct acc; reflexivity.
  - rewrite IH. simpl. rewrite <- app_assoc. reflexivity.
Qed.

Lemma copy_not_empty (s : string) : s +:+ " copy" <> "".
Proof. destruct s; discriminate. Qed.

(** [ActionGroup.clone()], spelled out: the name is never empty, so the
    constructor keeps it; an empty color takes the palette color of the
    counter. *)
Lemma ActionGroup_clone_eq (groupCount : nat) (g : ActionGroup.t) :
  ActionGroup.clone groupCount g
  = (ActionGroup.mk (ActionGroup.name g +:+ " copy")
       (if decide (ActionGroup.color g = "")
        then nth (groupCount mod 8) GroupColors ""
        else ActionGroup.color g)
       (map Action.clone (ActionGroup.actions g)),
     S groupCount).
Proof.
  unfold ActionGroup.clone, ActionGroup.construct.
  destruct (decide (ActionGroup.name g +:+ " copy" = "")) as [Hempty | _].
  { exfalso. exact (copy_not_empty _ Hempty). }
  rewrite fold_addAction. reflexivity.
Qed.

Lemma addItem_full (groupCount : nat) (item : RepeatBlock.Item) (b : RepeatBlock.t) :
  (2 <= length (RepeatBlock.items b))%nat ->
  RepeatBlock.addItem groupCount item b = (b, false, groupCount).
Proof.
  intros H. unfold RepeatBlock.addItem, MAX_ITEMS_IN_REPEAT.
  destruct (Z.leb_spec 2 (Z.of_nat (length (RepeatBlock.items b)))); [reflexivity | lia].
Qed.

Lemma addItem_room (groupCount : nat) (item : RepeatBlock.Item) (b : RepeatBlock.t) :
  (length (RepeatBlock.items b) < 2)%nat ->
  RepeatBlock.addItem groupCount item b
  = (RepeatBlock.mk (RepeatBlock.count b)
       (RepeatBlock.items b ++ [fst (RepeatBlock.cloneItem groupCount item)])
       (RepeatBlock.isExecuting b) (RepeatBlock.isComplete b)
       (RepeatBlock.currentIteration b) (RepeatBlock.currentItemIndex b),
     true,
     snd (RepeatBlock.cloneItem groupCount item)).
Proof.
  intros H. unfold RepeatBlock.addItem, MAX_ITEMS_IN_REPEAT.
  destruct (Z.leb_spec 2 (Z.of_nat (length (RepeatBlock.items b)))); [lia |].
  destruct (RepeatBlock.cloneItem groupCount item) as [cloned groupCount']. reflexivity.
Qed.

(** C7: on a block that already holds two or more items, [addItem] returns
    [false] and leaves the block (and the static counter of [ActionGroup])
    as it is; on a block with fewer than two it appends the clone of the
    item, changes nothing else of the block and returns [true]; so a block
    with at most two items still has at most two after [addItem].  The clone
    is, for an action, a new action of the same type and duration that has
    not been started; for a group reference, a new reference to the same
    group that has not been played; for a group, the group
    [new ActionGroup(name + ' copy', color)] makes (named after the
    original, of its color or, if that is empty, of the palette color of
    the static counter, which moves by one) with a new action of the same
    type and duration for every action of the original, in order. *)
Theorem C7_addItem_cap (groupCount : nat) (item : RepeatBlock.Item) (b : RepeatBlock.t) :
  ((2 <= length (RepeatBlock.items b))%nat ->
   RepeatBlock.addItem groupCount item b = (b, false, groupCount))
  /\ ((length (RepeatBlock.items b) < 2)%nat ->
      snd (fst (RepeatBlock.addItem groupCount item b)) = true
      /\ RepeatBlock.items (fst (fst (RepeatBlock.addItem groupCount item b)))
         = RepeatBlock.items b ++ [fst (RepeatBlock.cloneItem groupCount item)]
      /\ RepeatBlock.count (fst (fst (RepeatBlock.addItem groupCount item b)))
         = RepeatBlock.count b
      /\ RepeatBlock.isExecuting (fst (fst (RepeatBlock.addItem groupCount item b)))
         = RepeatBlock.isExecuting b
      /\ RepeatBlock.isComplete (fst (fst (RepeatBlock.addItem groupCount item b)))
         = RepeatBlock.isComplete b
      /\ snd (RepeatBlock.addItem groupCount item b)
         = snd (RepeatBlock.cloneItem groupCount item))
  /\ ((length (RepeatBlock.items b) <= 2)%nat ->
      (length (RepeatBlock.items (fst (fst (RepeatBlock.addItem groupCount item b)))) <= 2)%nat)
  /\ (forall a,
         RepeatBlock.cloneItem groupCount (RepeatBlock.ItemAction a)
         = (RepeatBlock.ItemAction
              (Action.mk (Action.type a) (Action.duration a) false false 0%float),
            groupCount))
  /\ (forall r,
         RepeatBlock.cloneItem groupCount (RepeatBlock.ItemGroupRef r)
         = (RepeatBlock.ItemGroupRef
              (GroupReference.mk (GroupReference.group r) false false 0),
            groupCount))
  /\ (forall g,
         RepeatBlock.cloneItem groupCount (RepeatBlock.ItemGroup g)
         = (RepeatBlock.ItemGroup
              (ActionGroup.mk
                 (ActionGroup.name g +:+ " copy")
                 (if decide (ActionGroup.color g = "")
                  then nth (groupCount mod 8) GroupColors ""
                  else ActionGroup.color g)
                 (map (fun a => Action.mk (Action.type a) (Action.duration a)
                                          false false 0%float)
                      (ActionGroup.actions g))),
            S groupCount)).
Proof.
  split; [apply addItem_full |].
  split; [intros H; rewrite (addItem_room groupCount item b H); repeat split |].
  split.
  { intros H.
    destruct (Nat.lt_ge_cases (length (RepeatBlock.items b)) 2) as [Hlt | Hge].
    - rewrite (addItem_room groupCount item b Hlt); simpl. rewrite length_app; simpl. lia.
    - rewrite (addItem_full groupCount item b Hge); simpl. lia. }
  split; [reflexivity |]. split; [reflexivity |].
  intros g. unfold RepeatBlock.cloneItem. rewrite ActionGroup_clone_eq. reflexivity.
Qed.

(** A block filled by three calls of [addItem]: the third is refused.  The
    second item is a group without a color, cloned when the static counter
    is 2: the clone has the third color of the palette and the counter moves
    to 3. *)
Lemma C7_addItem_cap_witness :
  let a := RepeatBlock.ItemAction (Action.newDefault MOVE_RIGHT) in
  let g := RepeatBlock.ItemGroup
             (ActionGroup.mk "Block 1" ""
                [Action.mk MOVE_UP 300 true false 0.5%float]) in
  let b1 := fst (fst (RepeatBlock.addItem 2 a (RepeatBlock.new 3))) in
  let b2 := fst (fst (RepeatBlock.addItem 2 g b1)) in
  length (RepeatBlock.items b2) = 2%nat
  /\ RepeatBlock.addItem 3 a b2 = (b2, false, 3%nat)
  /\ snd (fst (RepeatBlock.addItem 2 a (RepeatBlock.new 3))) = true
  /\ RepeatBlock.items b2
     = [RepeatBlock.ItemAction (Action.mk MOVE_RIGHT 300 false false 0%float);
        RepeatBlock.ItemGroup
          (ActionGroup.mk "Block 1 copy" "#FFE66D"
             [Action.mk MOVE_UP 300 false false 0%float])]
  /\ snd (RepeatBlock.addItem 2 g b1) = 3%nat.
Proof.
  intros a g b1 b2.
  split; [reflexivity |].
  split.
  - apply (proj1 (C7_addItem_cap 3 a b2)). vm_compute. lia.
  - destruct (proj1 (proj2 (C7_addItem_cap 2 a (RepeatBlock.new 3)))) as (H1 & _).
    + vm_compute. lia.
    + split; [exact H1 |]. split; reflexivity.
Defined.

(** ** RecursiveGroup.getExpandedActions *)

(** The method satisfies its own recursive equation: the bound on nested
    calls in [expandLevels] is never the reason an expansion stops. *)
Lemma getExpandedActions_unfold (g : RecursiveGroup.t) (d : Z) :
  RecursiveGroup.getExpandedActions g d
  = if RecursiveGroup.maxDepth g <=? d then []
    else
      RecursiveGroup.preEntries g d
      ++ (if d =? RecursiveGroup.maxDepth g - 1 then []
          else RecursiveGroup.getExpandedActions g (d + 1))
      ++ RecursiveGroup.postEntries g d (d =? RecursiveGroup.maxDepth g - 1).
Proof.
  unfold RecursiveGroup.getExpandedActions.
  destruct (Z.leb_spec (RecursiveGroup.maxDepth g) d) as [Hle | Hlt].
  - replace (Z.to_nat (RecursiveGroup.maxDepth g - d)) with 0%nat by lia.
    reflexivity.
  - replace (Z.to_nat (RecursiveGroup.maxDepth g - d))
      with (S (Z.to_nat (RecursiveGroup.maxDepth g - (d + 1)))) by lia.
    simpl.
    destruct (Z.leb_spec (RecursiveGroup.maxDepth g) d); [lia |].
    destruct (d =? RecursiveGroup.maxDepth g - 1); reflexivity.
Qed.

Lemma length_preEntries (g : RecursiveGroup.t) (d : Z) :
  length (RecursiveGroup.preEntries g d) = length (RecursiveGroup.preActions g).
Proof. unfold RecursiveGroup.preEntries. apply length_imap. Qed.

Lemma length_postEntries (g : RecursiveGroup.t) (d : Z) (isBase : bool) :
  length (RecursiveGroup.postEntries g d isBase) = length (RecursiveGroup.postActions g).
Proof. unfold RecursiveGroup.postEntries. apply length_imap. Qed.

(** From depth [d], [maxDepth - d] levels remain, each with all the
    pre-actions and all the post-actions. *)
Lemma length_expandLevels (g : RecursiveGroup.t) (levels : nat) :
  forall d : Z,
    levels = Z.to_nat (RecursiveGroup.maxDepth g - d) ->
    length (RecursiveGroup.expandLevels g levels d)
    = ((length (RecursiveGroup.preActions g) + length (RecursiveGroup.postActions g))
       * levels)%nat.
Proof.
  induction levels as [| levels IH]; intros d Hlv; simpl.
  - lia.
  - destruct (Z.leb_spec (RecursiveGroup.maxDepth g) d) as [Hle | Hlt]; [lia |].
    rewrite !length_app, length_preEntries, length_postEntries.
    destruct (Z.eqb_spec d (RecursiveGroup.maxDepth g - 1)) as [Heq | Hne]; simpl.
    + assert (levels = 0%nat) by lia. subst levels. lia.
    + rewrite (IH (d + 1)) by lia. lia.
Qed.

Lemma length_getExpandedActions (g : RecursiveGroup.t) :
  0 <= RecursiveGroup.maxDepth g ->
  Z.of_nat (length (RecursiveGroup.getExpandedActions g 0))
  = RecursiveGroup.baseSize g * RecursiveGroup.maxDepth g.
Proof.
  intros Hm. unfold RecursiveGroup.getExpandedActions, RecursiveGroup.baseSize.
  rewrite (length_expandLevels g _ 0 eq_refl). lia.
Qed.

(** C1: [getExpandedActions] returns nothing at [depth >= maxDepth] and
    otherwise the pre-entries of the depth, then (unless
    [depth = maxDepth - 1]) the expansion from [depth + 1], then the
    post-entries of the depth; called with depth 0 on a group whose
    [maxDepth] is not negative it returns
    [(|preActions| + |postActions|) * maxDepth] entries; and for
    [preActions = [Right]], [postActions = [Down]], [maxDepth = 2] it
    returns exactly Right (depth 0, pre), Right (depth 1, pre),
    Down (depth 1, post, base case), Down (depth 0, post). *)
Theorem C1_recursive_expansion (g : RecursiveGroup.t) :
  (forall d : Z,
      RecursiveGroup.getExpandedActions g d
      = if RecursiveGroup.maxDepth g <=? d then []
        else
          RecursiveGroup.preEntries g d
          ++ (if d =? RecursiveGroup.maxDepth g - 1 then []
              else RecursiveGroup.getExpandedActions g (d + 1))
          ++ RecursiveGroup.postEntries g d (d =? RecursiveGroup.maxDepth g - 1))
  /\ (0 <= RecursiveGroup.maxDepth g ->
      Z.of_nat (length (RecursiveGroup.getExpandedActions g 0))
      = (Z.of_nat (length (RecursiveGroup.preActions g))
         + Z.of_nat (length (RecursiveGroup.postActions g)))
        * RecursiveGroup.maxDepth g)
  /\ (forall right down : Action.t,
         Action.type right = MOVE_RIGHT ->
         Action.type down = MOVE_DOWN ->
         RecursiveGroup.preActions g = [right] ->
         RecursiveGroup.postActions g = [down] ->
         RecursiveGroup.maxDepth g = 2 ->
         RecursiveGroup.getExpandedActions g 0
         = [ RecursiveGroup.mkEntry (Action.new MOVE_RIGHT (Action.duration right))
                                    0 pre 0 false true false;
             RecursiveGroup.mkEntry (Action.new MOVE_RIGHT (Action.duration right))
                                    1 pre 0 false true false;
             RecursiveGroup.mkEntry (Action.new MOVE_DOWN (Action.duration down))
                                    1 post 0 true false true;
             RecursiveGroup.mkEntry (Action.new MOVE_DOWN (Action.duration down))
                                    0 post 0 false false true ]).
Proof.
  split; [apply getExpandedActions_unfold |].
  split; [apply length_getExpandedActions |].
  intros right down Hr Hd Hpre Hpost Hmax.
  rewrite (getExpandedActions_unfold g 0), (getExpandedActions_unfold g (0 + 1)).
  unfold RecursiveGroup.preEntries, RecursiveGroup.postEntries.
  rewrite Hmax, Hpre, Hpost. simpl.
  unfold Action.clone. rewrite Hr, Hd. reflexivity.
Qed.

(** The group of scenario C, built with the group's own methods. *)
Lemma C1_recursive_expansion_witness :
  map (fun e => (Action.type (RecursiveGroup.action e), RecursiveGroup.depth e,
                 RecursiveGroup.phase e, RecursiveGroup.isBaseCase e))
      (RecursiveGroup.getExpandedActions
         (RecursiveGroup.setMaxDepth 2
            (RecursiveGroup.addPostAction (Action.newDefault MOVE_DOWN)
               (RecursiveGroup.addPreAction (Action.newDefault MOVE_RIGHT)
                  (RecursiveGroup.new "R1" "#FF6B6B")))) 0)
  = [ (MOVE_RIGHT, 0, pre, false); (MOVE_RIGHT, 1, pre, false);
      (MOVE_DOWN, 1, post, true); (MOVE_DOWN, 0, post, false) ]
  /\ Z.of_nat (length (RecursiveGroup.getExpandedActions
         (RecursiveGroup.setMaxDepth 2
            (RecursiveGroup.addPostAction (Action.newDefault MOVE_DOWN)
               (RecursiveGroup.addPreAction (Action.newDefault MOVE_RIGHT)
                  (RecursiveGroup.new "R1" "#FF6B6B")))) 0)) = 4.
Proof.
  pose proof (C1_recursive_expansion
    (RecursiveGroup.setMaxDepth 2
       (RecursiveGroup.addPostAction (Action.newDefault MOVE_DOWN)
          (RecursiveGroup.addPreAction (Action.newDefault MOVE_RIGHT)
             (RecursiveGroup.new "R1" "#FF6B6B"))))) as (_ & Hlen & Hscen).
  split.
  - rewrite (Hscen (Action.newDefault MOVE_RIGHT) (Action.newDefault MOVE_DOWN)
               eq_refl eq_refl eq_refl eq_refl eq_refl).
    reflexivity.
  - rewrite Hlen; [reflexivity | vm_compute; discriminate].
Defined.

(** ** RepeatBlock.getExpandedActions *)

Section RepeatOrder.

Variable b : RepeatBlock.t.

Lemma expandItem_iteration (it : Z) (item : RepeatBlock.Item) :
  Forall (fun e => RepeatBlock.iteration e = it) (RepeatBlock.expandItem it item).
Proof.
  destruct item as [a | r | g]; simpl.
  - constructor; [reflexivity | constructor].
  - apply List.Forall_forall. intros e He. apply in_map_iff in He as (a & <- & _). reflexivity.
  - apply List.Forall_forall. intros e He. apply in_map_iff in He as (a & <- & _). reflexivity.
Qed.

Lemma pass_iteration (it : Z) :
  Forall (fun e => RepeatBlock.iteration e = it) (pass b it).
Proof.
  unfold pass. induction (RepeatBlock.items b) as [| item items IH]; simpl.
  - constructor.
  - apply Forall_app. split; [apply expandItem_iteration | exact IH].
Qed.

Lemma In_iterations (n k : Z) :
  In k (RepeatBlock.iterations n) <-> 0 <= k < n.
Proof.
  unfold RepeatBlock.iterations. rewrite in_map_iff. split.
  - intros (i & <- & Hi). apply in_seq in Hi. lia.
  - intros Hk. exists (Z.to_nat k). split; [lia | apply in_seq; lia].
Qed.

(** Entries of equal iteration are in order whatever their order. *)
Lemma same_iteration_sorted (it : Z) (es : list RepeatBlock.Entry) :
  Forall (fun e => RepeatBlock.iteration e = it) es ->
  StronglySorted (fun e1 e2 => RepeatBlock.iteration e1 <= RepeatBlock.iteration e2) es.
Proof.
  induction 1 as [| e es He Hes IH]; constructor; [exact IH |].
  eapply List.Forall_impl; [| exact Hes]. simpl. intros e' He'. lia.
Qed.

Lemma passes_sorted (len start : nat) :
  StronglySorted (fun e1 e2 => RepeatBlock.iteration e1 <= RepeatBlock.iteration e2)
                 (flat_map (pass b) (map Z.of_nat (seq start len))).
Proof.
  revert start. induction len as [| len IH]; intros start; simpl.
  - constructor.
  - apply StronglySorted_app_2.
    + intros e1 e2 H1 H2.
      apply list_elem_of_In in H1, H2.
      pose proof (pass_iteration (Z.of_nat start)) as Hp.
      rewrite List.Forall_forall in Hp. rewrite (Hp e1 H1).
      apply in_flat_map in H2 as (it & Hit & He2).
      apply in_map_iff in Hit as (i & <- & Hi). apply in_seq in Hi.
      pose proof (pass_iteration (Z.of_nat i)) as Hq.
      rewrite List.Forall_forall in Hq. rewrite (Hq e2 He2). lia.
    + apply same_iteration_sorted with (it := Z.of_nat start). apply pass_iteration.
    + apply IH.
Qed.

Lemma getExpandedActions_sorted :
  StronglySorted (fun e1 e2 => RepeatBlock.iteration e1 <= RepeatBlock.iteration e2)
                 (RepeatBlock.getExpandedActions b).
Proof. apply passes_sorted. Qed.

Lemma filter_pass_same (k : Z) :
  List.filter (fun e => RepeatBlock.iteration e =? k) (pass b k) = pass b k.
Proof.
  pose proof (pass_iteration k) as H.
  induction H as [| e es He Hes IH]; simpl; [reflexivity |].
  rewrite He, Z.eqb_refl, IH. reflexivity.
Qed.

Lemma filter_pass_other (it k : Z) :
  it <> k ->
  List.filter (fun e => RepeatBlock.iteration e =? k) (pass b it) = [].
Proof.
  intros Hne. pose proof (pass_iteration it) as H.
  induction H as [| e es He Hes IH]; simpl; [reflexivity |].
  rewrite He. destruct (Z.eqb_spec it k); [contradiction | exact IH].
Qed.

Lemma filter_passes (k : Z) (len start : nat) :
  List.filter (fun e => RepeatBlock.iteration e =? k)
              (flat_map (pass b) (map Z.of_nat (seq start len)))
  = if (Z.of_nat start <=? k) && (k <? Z.of_nat start + Z.of_nat len)
    then pass b k else [].
Proof.
  revert start. induction len as [| len IH]; intros start; simpl.
  - Zbools.
  - rewrite List.filter_app, IH.
    destruct (Z.eq_dec (Z.of_nat start) k) as [Heq | Hne].
    + subst k. rewrite filter_pass_same. Zbools. apply app_nil_r.
    + rewrite (filter_pass_other _ _ Hne). Zbools.
Qed.

Lemma filter_getExpandedActions (k : Z) :
  0 <= k < RepeatBlock.count b ->
  List.filter (fun e => RepeatBlock.iteration e =? k) (RepeatBlock.getExpandedActions b)
  = flat_map (RepeatBlock.expandItem k) (RepeatBlock.items b).
Proof.
  intros Hk. unfold RepeatBlock.getExpandedActions, RepeatBlock.iterations.
  fold (pass b). rewrite filter_passes. Zbools.
Qed.

End RepeatOrder.

(** In a strongly sorted list, an earlier element is related to a later one. *)
Lemma StronglySorted_lookup_lt {A} (R : A -> A -> Prop) (l : list A) :
  StronglySorted R l ->
  forall (i j : nat) (x y : A),
    (i < j)%nat -> l !! i = Some x -> l !! j = Some y -> R x y.
Proof.
  induction 1 as [| a l Hl IH Ha]; intros i j x y Hij Hi Hj.
  - rewrite lookup_nil in Hi. discriminate.
  - destruct j as [| j]; [lia |]. simpl in Hj.
    destruct i as [| i]; simpl in Hi.
    + injection Hi as <-. rewrite List.Forall_forall in Ha. apply Ha.
      apply list_elem_of_In. eapply list_elem_of_lookup_2. exact Hj.
    + apply (IH i j); [lia | assumption | assumption].
Qed.

(** C3: in the array [getExpandedActions()] returns, an entry that comes
    earlier never has a later iteration, and the entries of iteration [k] are,
    in order, what the items yield in their own order (iteration-major,
    item-minor); and a block with [count = 3] and the single item Right,
    alone in the queue, expands under [expandItems()] to exactly three steps,
    all with [isFromRepeat], with iterations 0, 1, 2, [isFirstInRepeat] only
    on the first and [isLastInRepeat] only on the last. *)
Theorem C3_repeat_iteration_major (b : RepeatBlock.t) :
  (forall (i j : nat) (e1 e2 : RepeatBlock.Entry),
      (i < j)%nat ->
      RepeatBlock.getExpandedActions b !! i = Some e1 ->
      RepeatBlock.getExpandedActions b !! j = Some e2 ->
      RepeatBlock.iteration e1 <= RepeatBlock.iteration e2)
  /\ (forall k : Z,
         0 <= k < RepeatBlock.count b ->
         List.filter (fun e => RepeatBlock.iteration e =? k)
                     (RepeatBlock.getExpandedActions b)
         = flat_map (RepeatBlock.expandItem k) (RepeatBlock.items b))
  /\ (forall (w : ActionQueue.World) (l : loc) (right : Action.t),
         Action.type right = MOVE_RIGHT ->
         RepeatBlock.count b = 3 ->
         RepeatBlock.items b = [RepeatBlock.ItemAction right] ->
         ActionQueue.items (ActionQueue.queue w) = [l] ->
         ActionQueue.objects w !! l = Some (ObjRepeat b) ->
         let steps :=
           ActionQueue.expandedActions (ActionQueue.queue (ActionQueue.expandItems w)) in
         length steps = 3%nat
         /\ map ActionQueue.isFromRepeat steps = [true; true; true]
         /\ map ActionQueue.iteration steps = [0; 1; 2]
         /\ map ActionQueue.isFirstInRepeat steps = [true; false; false]
         /\ map ActionQueue.isLastInRepeat steps = [false; false; true]
         /\ map ActionQueue.action steps
            = [ Owned (Action.new MOVE_RIGHT (Action.duration right));
                Owned (Action.new MOVE_RIGHT (Action.duration right));
                Owned (Action.new MOVE_RIGHT (Action.duration right)) ]
         /\ map ActionQueue.itemIndex steps = [0%nat; 0%nat; 0%nat]).
Proof.
  split.
  { intros i j e1 e2 Hij H1 H2.
    exact (StronglySorted_lookup_lt _ _ (getExpandedActions_sorted b) i j e1 e2 Hij H1 H2). }
  split; [apply filter_getExpandedActions |].
  intros w l right Hty Hcount Hitems Hq Hobj steps. subst steps.
  unfold ActionQueue.expandItems, ActionQueue.expansion. simpl.
  rewrite Hq. simpl. unfold ActionQueue.expandItem. rewrite Hobj.
  unfold RepeatBlock.getExpandedActions. rewrite Hcount, Hitems. simpl.
  unfold Action.clone. rewrite Hty. repeat split; reflexivity.
Qed.

(** Scenario B on the queue built by the constructors and [add]. *)
Lemma C3_repeat_iteration_major_witness :
  (length (ActionQueue.expandedActions
             (ActionQueue.queue (ActionQueue.expandItems scenarioB))) = 3%nat
   /\ map ActionQueue.isFromRepeat
          (ActionQueue.expandedActions
             (ActionQueue.queue (ActionQueue.expandItems scenarioB)))
      = [true; true; true]
   /\ map ActionQueue.iteration
          (ActionQueue.expandedActions
             (ActionQueue.queue (ActionQueue.expandItems scenarioB)))
      = [0; 1; 2]
   /\ map ActionQueue.isFirstInRepeat
          (ActionQueue.expandedActions
             (ActionQueue.queue (ActionQueue.expandItems scenarioB)))
      = [true; false; false]
   /\ map ActionQueue.isLastInRepeat
          (ActionQueue.expandedActions
             (ActionQueue.queue (ActionQueue.expandItems scenarioB)))
      = [false; false; true])
  /\ List.filter (fun e => RepeatBlock.iteration e =? 1)
                 (RepeatBlock.getExpandedActions blockB)
     = [RepeatBlock.mkEntry (Action.newDefault MOVE_RIGHT) 1 true].
Proof.
  destruct (C3_repeat_iteration_major blockB) as (_ & Hfilter & Hscen).
  split.
  - destruct (Hscen scenarioB 0%nat (Action.newDefault MOVE_RIGHT)
                    eq_refl eq_refl eq_refl eq_refl eq_refl)
      as (H1 & H2 & H3 & H4 & H5 & _).
    auto.
  - rewrite (Hfilter 1); [reflexivity | vm_compute; split; discriminate || reflexivity].
Defined.

(** ** Playback of two plain actions *)

(** Durations a frame of the same length completes, and the ones it does
    not. *)
Example completesInOneFrame_samples :
  map completesInOneFrame [300; 0.5; 16.5; 0.125; 1000000]%float
  = [true; true; true; true; true]
  /\ map completesInOneFrame [0; infinity; neg_infinity; nan]%float
     = [false; false; false; false].
Proof. split; reflexivity. Qed.

Section ScenarioA.

Variables (d1 d2 : float) (size : Z).
Hypothesis Hd1 : completesInOneFrame d1 = true.
Hypothesis Hd2 : completesInOneFrame d2 = true.

Lemma scenarioA_first_update (ex1 co1 ex2 co2 : bool) (p1 p2 : float) :
  fst (ActionQueue.update d1
         (ActionQueue.start
            (ActionQueue.mkWorld
               [ObjAction (Action.mk MOVE_UP d1 ex1 co1 p1);
                ObjAction (Action.mk MOVE_RIGHT d2 ex2 co2 p2)]
               (ActionQueue.mk [0%nat; 1%nat] size 0 IDLE [] 0%nat) [])))
  = afterUp d1 d2 size.
Proof.
  unfold completesInOneFrame in Hd1.
  cbv. rewrite Hd1. reflexivity.
Qed.

Lemma scenarioA_second_update :
  fst (ActionQueue.update d2 (afterUp d1 d2 size))
  = ActionQueue.mkWorld
      [ObjAction (Action.mk MOVE_UP d1 false true 1%float);
       ObjAction (Action.mk MOVE_RIGHT d2 false true 1%float)]
      (ActionQueue.mk [0%nat; 1%nat] size 0 COMPLETE
         [ActionQueue.plainStep 0%nat 0%nat; ActionQueue.plainStep 1%nat 1%nat] 2%nat)
      (ActionQueue.fired (afterUp d1 d2 size)
       ++ [onActionComplete (Action.mk MOVE_RIGHT d2 false true 1%float) 1%nat;
           onQueueComplete;
           onQueueChange [0%nat; 1%nat] 0]).
Proof.
  unfold completesInOneFrame in Hd2.
  cbv. rewrite Hd2. reflexivity.
Qed.

Lemma scenarioA_facts (ex1 co1 ex2 co2 : bool) (p1 p2 : float) :
  let w0 := ActionQueue.mkWorld
              [ObjAction (Action.mk MOVE_UP d1 ex1 co1 p1);
               ObjAction (Action.mk MOVE_RIGHT d2 ex2 co2 p2)]
              (ActionQueue.mk [0%nat; 1%nat] size 0 IDLE [] 0%nat) [] in
  let w1 := fst (ActionQueue.update d1 (ActionQueue.start w0)) in
  let w2 := fst (ActionQueue.update d2 w1) in
  (ActionQueue.state (ActionQueue.queue w1) = RUNNING
   /\ ActionQueue.expandedIndex (ActionQueue.queue w1) = 1%nat
   /\ ActionQueue.getCurrentItemInfo (ActionQueue.queue w1)
      = Some (ActionQueue.plainStep 1%nat 1%nat)
   /\ ActionQueue.getCurrentAction w1
      = Some (Action.mk MOVE_RIGHT d2 true false 0%float)
   /\ List.filter isActionComplete (ActionQueue.fired w1)
      = [onActionComplete (Action.mk MOVE_UP d1 false true 1%float) 0%nat]
   /\ List.filter isQueueComplete (ActionQueue.fired w1) = [])
  /\ (ActionQueue.state (ActionQueue.queue w2) = COMPLETE
      /\ ActionQueue.expandedIndex (ActionQueue.queue w2) = 2%nat
      /\ List.filter isQueueComplete (ActionQueue.fired w2) = [onQueueComplete]).
Proof.
  intros w0 w1 w2. subst w0 w1 w2.
  rewrite scenarioA_first_update, scenarioA_second_update.
  repeat split; reflexivity.
Qed.

End ScenarioA.

(** C2: for a queue whose items are the two plain actions Up and Right,
    each of a duration that a frame of the same length completes: after
    [start()] and a first [update] with the duration of Up, the cursor is at
    the step of the item Right, whose action has been started, and
    [onActionComplete] has been called exactly once, for Up at index 0; after
    a second [update] with the duration of Right, the state is [COMPLETE] and
    [onQueueComplete] has been called exactly once. *)
Theorem C2_scenario_A (up right : Action.t) (size : Z) :
  Action.type up = MOVE_UP ->
  Action.type right = MOVE_RIGHT ->
  completesInOneFrame (Action.duration up) = true ->
  completesInOneFrame (Action.duration right) = true ->
  let w0 := ActionQueue.mkWorld [ObjAction up; ObjAction right]
              (ActionQueue.mk [0%nat; 1%nat] size 0 IDLE [] 0%nat) [] in
  let w1 := fst (ActionQueue.update (Action.duration up) (ActionQueue.start w0)) in
  let w2 := fst (ActionQueue.update (Action.duration right) w1) in
  (ActionQueue.state (ActionQueue.queue w1) = RUNNING
   /\ ActionQueue.expandedIndex (ActionQueue.queue w1) = 1%nat
   /\ ActionQueue.getCurrentItemInfo (ActionQueue.queue w1)
      = Some (ActionQueue.plainStep 1%nat 1%nat)
   /\ ActionQueue.getCurrentAction w1
      = Some (Action.mk MOVE_RIGHT (Action.duration right) true false 0%float)
   /\ List.filter isActionComplete (ActionQueue.fired w1)
      = [onActionComplete (Action.mk MOVE_UP (Action.duration up) false true 1%float) 0%nat]
   /\ List.filter isQueueComplete (ActionQueue.fired w1) = [])
  /\ (ActionQueue.state (ActionQueue.queue w2) = COMPLETE
      /\ ActionQueue.expandedIndex (ActionQueue.queue w2) = 2%nat
      /\ List.filter isQueueComplete (ActionQueue.fired w2) = [onQueueComplete]).
Proof.
  intros Hup Hright Hd1 Hd2.
  destruct up as [ty1 d1 ex1 co1 p1], right as [ty2 d2 ex2 co2 p2].
  simpl in Hup, Hright, Hd1, Hd2. subst ty1 ty2.
  exact (scenarioA_facts d1 d2 size Hd1 Hd2 ex1 co1 ex2 co2 p1 p2).
Qed.

(** Scenario A at the configured duration of 300 ms. *)
Lemma C2_scenario_A_witness :
  (ActionQueue.objects scenarioA, ActionQueue.queue scenarioA)
  = (let w := fst (ActionQueue.addByType MOVE_RIGHT
                     (fst (ActionQueue.addByType MOVE_UP
                             (ActionQueue.init [] CONFIG.maxQueueSize)))) in
     (ActionQueue.objects w, ActionQueue.queue w))
  /\ ActionQueue.expandedIndex
       (ActionQueue.queue
          (fst (ActionQueue.update 300 (ActionQueue.start scenarioA)))) = 1%nat
  /\ List.filter isActionComplete
       (ActionQueue.fired (fst (ActionQueue.update 300 (ActionQueue.start scenarioA))))
     = [onActionComplete (Action.mk MOVE_UP 300 false true 1%float) 0%nat]
  /\ ActionQueue.state
       (ActionQueue.queue
          (fst (ActionQueue.update 300
                  (fst (ActionQueue.update 300 (ActionQueue.start scenarioA))))))
     = COMPLETE
  /\ List.filter isQueueComplete
       (ActionQueue.fired
          (fst (ActionQueue.update 300
                  (fst (ActionQueue.update 300 (ActionQueue.start scenarioA))))))
     = [onQueueComplete].
Proof.
  split; [reflexivity |].
  destruct (C2_scenario_A (Action.newDefault MOVE_UP) (Action.newDefault MOVE_RIGHT)
              CONFIG.maxQueueSize eq_refl eq_refl eq_refl eq_refl)
    as ((_ & Hidx & _ & _ & Hdone & _) & (Hstate & _ & Hqc)).
  exact (conj Hidx (conj Hdone (conj Hstate Hqc))).
Defined.

(** ** pause and resume *)

Lemma pause_frame (w : ActionQueue.World) : differOnlyInState w (ActionQueue.pause w).
Proof.
  unfold ActionQueue.pause, ActionQueue.when.
  destruct (QueueState_eqb _ _); repeat split; reflexivity.
Qed.

Lemma resume_frame (w : ActionQueue.World) : differOnlyInState w (ActionQueue.resume w).
Proof.
  unfold ActionQueue.resume, ActionQueue.when.
  destruct (QueueState_eqb _ _); repeat split; reflexivity.
Qed.

Lemma differOnlyInState_trans (w1 w2 w3 : ActionQueue.World) :
  differOnlyInState w1 w2 -> differOnlyInState w2 w3 -> differOnlyInState w1 w3.
Proof.
  unfold differOnlyInState. intros (H1 & H2 & H3 & H4 & H5 & H6 & H7)
    (K1 & K2 & K3 & K4 & K5 & K6 & K7).
  repeat split; congruence.
Qed.

Lemma differOnlyInState_current (w w' : ActionQueue.World) :
  differOnlyInState w w' ->
  ActionQueue.getCurrentItemInfo (ActionQueue.queue w')
  = ActionQueue.getCurrentItemInfo (ActionQueue.queue w)
  /\ ActionQueue.getCurrentAction w' = ActionQueue.getCurrentAction w.
Proof.
  intros (H1 & H2 & H3 & H4 & H5 & H6 & H7).
  assert (ActionQueue.getCurrentItemInfo (ActionQueue.queue w')
          = ActionQueue.getCurrentItemInfo (ActionQueue.queue w)) as Hinfo.
  { unfold ActionQueue.getCurrentItemInfo. rewrite H6, H7. reflexivity. }
  split; [exact Hinfo |].
  unfold ActionQueue.getCurrentAction. rewrite Hinfo.
  destruct (ActionQueue.getCurrentItemInfo (ActionQueue.queue w)) as [info |];
    [| reflexivity].
  unfold ActionQueue.readAction. rewrite H1. reflexivity.
Qed.

(** C6: for every queue in any state, [pause()] changes nothing but the
    state, and that only from [RUNNING] to [PAUSED]; [resume()] changes
    nothing but the state, and that only from [PAUSED] to [RUNNING]; so after
    [pause()] then [resume()] the cursor, the expansion, every object (hence
    the progress of the current action) and the record of callback calls are
    what they were, and the state is [RUNNING] if it was [RUNNING] or
    [PAUSED] and unchanged otherwise. *)
Theorem C6_pause_resume_frame (w : ActionQueue.World) :
  (differOnlyInState w (ActionQueue.pause w)
   /\ ActionQueue.state (ActionQueue.queue (ActionQueue.pause w))
      = match ActionQueue.state (ActionQueue.queue w) with
        | RUNNING => PAUSED
        | s => s
        end)
  /\ (differOnlyInState w (ActionQueue.resume w)
      /\ ActionQueue.state (ActionQueue.queue (ActionQueue.resume w))
         = match ActionQueue.state (ActionQueue.queue w) with
           | PAUSED => RUNNING
           | s => s
           end)
  /\ (differOnlyInState w (ActionQueue.resume (ActionQueue.pause w))
      /\ ActionQueue.expandedIndex (ActionQueue.queue (ActionQueue.resume (ActionQueue.pause w)))
         = ActionQueue.expandedIndex (ActionQueue.queue w)
      /\ ActionQueue.getCurrentAction (ActionQueue.resume (ActionQueue.pause w))
         = ActionQueue.getCurrentAction w
      /\ ActionQueue.fired (ActionQueue.resume (ActionQueue.pause w)) = ActionQueue.fired w
      /\ ActionQueue.state (ActionQueue.queue (ActionQueue.resume (ActionQueue.pause w)))
         = match ActionQueue.state (ActionQueue.queue w) with
           | RUNNING | PAUSED => RUNNING
           | s => s
           end).
Proof.
  assert (differOnlyInState w (ActionQueue.resume (ActionQueue.pause w))) as Hboth.
  { eapply differOnlyInState_trans; [apply pause_frame | apply resume_frame]. }
  split; [split; [apply pause_frame |] |].
  { unfold ActionQueue.pause, ActionQueue.when.
    destruct (ActionQueue.state (ActionQueue.queue w)) eqn:Hs; simpl; rewrite ?Hs;
      reflexivity. }
  split; [split; [apply resume_frame |] |].
  { unfold ActionQueue.resume, ActionQueue.when.
    destruct (ActionQueue.state (ActionQueue.queue w)) eqn:Hs; simpl; rewrite ?Hs;
      reflexivity. }
  split; [exact Hboth |].
  split; [apply Hboth |].
  split; [apply (differOnlyInState_current _ _ Hboth) |].
  split; [apply Hboth |].
  unfold ActionQueue.resume, ActionQueue.pause, ActionQueue.when.
  destruct (ActionQueue.state (ActionQueue.queue w)) eqn:Hs;
    simpl; rewrite ?Hs; simpl; rewrite ?Hs; reflexivity.
Qed.

(** ** Mutation while the queue is running *)

Lemma QueueState_eqb_eq (s1 s2 : QueueState) : QueueState_eqb s1 s2 = true <-> s1 = s2.
Proof. destruct s1, s2; simpl; split; congruence. Qed.

Lemma QueueState_eqb_neq (s1 s2 : QueueState) : QueueState_eqb s1 s2 = false <-> s1 <> s2.
Proof. destruct s1, s2; simpl; split; congruence. Qed.

(** [clear()] empties the queue from every state. *)
Lemma clear_queue (w : ActionQueue.World) :
  ActionQueue.queue (ActionQueue.clear w)
  = ActionQueue.mk [] (ActionQueue.maxSize (ActionQueue.queue w)) 0 IDLE [] 0%nat.
Proof.
  unfold ActionQueue.clear, ActionQueue.when.
  destruct (QueueState_eqb _ _); reflexivity.
Qed.

(** C4, as the code has it, fails for [clear()]: on a running queue it is
    not rejected; it stops playback and empties [items]. *)
Lemma C4_clear_while_running :
  ActionQueue.state (ActionQueue.queue playingOne) = RUNNING
  /\ ActionQueue.items (ActionQueue.queue playingOne) = [0%nat]
  /\ ActionQueue.items (ActionQueue.queue (ActionQueue.clear playingOne)) = []
  /\ ActionQueue.state (ActionQueue.queue (ActionQueue.clear playingOne)) = IDLE.
Proof. repeat split; reflexivity. Qed.

(** C4, amended: while the state is [RUNNING], [add(item)] returns [false]
    and [removeAt(index)] returns [null], and both leave the queue, the
    objects and the callbacks untouched, whereas [clear()] is carried out: it
    leaves the queue [IDLE] with no items, no expansion and the cursor at 0.
    In every other state ([IDLE], [PAUSED], [COMPLETE]) [add] appends the
    item and returns [true] unless the queue is full, [removeAt] removes and
    returns the item at an index within range and refuses any other, and
    [clear()] empties the queue. *)
Theorem C4_mutation_guards (w : ActionQueue.World) (item : loc) (index : Z) :
  (ActionQueue.state (ActionQueue.queue w) = RUNNING ->
   ActionQueue.add item w = (w, false)
   /\ ActionQueue.removeAt index w = (w, None)
   /\ ActionQueue.queue (ActionQueue.clear w)
      = ActionQueue.mk [] (ActionQueue.maxSize (ActionQueue.queue w)) 0 IDLE [] 0%nat)
  /\ (ActionQueue.state (ActionQueue.queue w) <> RUNNING ->
      (Z.of_nat (length (ActionQueue.items (ActionQueue.queue w)))
       < ActionQueue.maxSize (ActionQueue.queue w) ->
       snd (ActionQueue.add item w) = true
       /\ ActionQueue.items (ActionQueue.queue (fst (ActionQueue.add item w)))
          = ActionQueue.items (ActionQueue.queue w) ++ [item])
      /\ (ActionQueue.maxSize (ActionQueue.queue w)
          <= Z.of_nat (length (ActionQueue.items (ActionQueue.queue w))) ->
          ActionQueue.add item w = (w, false))
      /\ (0 <= index < Z.of_nat (length (ActionQueue.items (ActionQueue.queue w))) ->
          snd (ActionQueue.removeAt index w)
          = ActionQueue.items (ActionQueue.queue w) !! Z.to_nat index
          /\ is_Some (snd (ActionQueue.removeAt index w))
          /\ ActionQueue.items (ActionQueue.queue (fst (ActionQueue.removeAt index w)))
             = delete (Z.to_nat index) (ActionQueue.items (ActionQueue.queue w)))
      /\ (index < 0 \/ Z.of_nat (length (ActionQueue.items (ActionQueue.queue w))) <= index ->
          ActionQueue.removeAt index w = (w, None))
      /\ ActionQueue.queue (ActionQueue.clear w)
         = ActionQueue.mk [] (ActionQueue.maxSize (ActionQueue.queue w)) 0 IDLE [] 0%nat).
Proof.
  split.
  - intros Hrun. unfold ActionQueue.add, ActionQueue.removeAt. rewrite Hrun. simpl.
    split; [destruct (_ <=? _); reflexivity |].
    split; [reflexivity | apply clear_queue].
  - intros Hnot. apply QueueState_eqb_neq in Hnot.
    unfold ActionQueue.add, ActionQueue.removeAt. rewrite Hnot.
    split; [| split; [| split; [| split; [| apply clear_queue]]]].
    + intros Hroom.
      destruct (Z.leb_spec (ActionQueue.maxSize (ActionQueue.queue w))
                  (Z.of_nat (length (ActionQueue.items (ActionQueue.queue w)))));
        [lia | split; reflexivity].
    + intros Hfull.
      destruct (Z.leb_spec (ActionQueue.maxSize (ActionQueue.queue w))
                  (Z.of_nat (length (ActionQueue.items (ActionQueue.queue w)))));
        [reflexivity | lia].
    + intros Hin.
      destruct (Z.ltb_spec index 0); [lia |].
      destruct (Z.leb_spec (Z.of_nat (length (ActionQueue.items (ActionQueue.queue w))))
                  index); [lia |].
      simpl. split; [reflexivity |]. split; [| reflexivity].
      apply lookup_lt_is_Some. lia.
    + intros Hout.
      destruct (Z.ltb_spec index 0); [reflexivity |].
      destruct (Z.leb_spec (Z.of_nat (length (ActionQueue.items (ActionQueue.queue w))))
                  index); [reflexivity | lia].
Qed.

(** The guards on a running queue, and the same calls once it is paused. *)
Lemma C4_mutation_guards_witness :
  (ActionQueue.add 7%nat playingOne = (playingOne, false)
   /\ ActionQueue.removeAt 0 playingOne = (playingOne, None)
   /\ ActionQueue.items (ActionQueue.queue (ActionQueue.clear playingOne)) = [])
  /\ (snd (ActionQueue.add 7%nat (ActionQueue.pause playingOne)) = true
      /\ ActionQueue.items
           (ActionQueue.queue (fst (ActionQueue.add 7%nat (ActionQueue.pause playingOne))))
         = [0%nat; 7%nat]
      /\ snd (ActionQueue.removeAt 0 (ActionQueue.pause playingOne)) = Some 0%nat
      /\ ActionQueue.items
           (ActionQueue.queue (fst (ActionQueue.removeAt 0 (ActionQueue.pause playingOne))))
         = []).
Proof.
  split.
  - destruct (proj1 (C4_mutation_guards playingOne 7%nat 0) eq_refl) as (Ha & Hr & Hc).
    rewrite Hc. auto.
  - destruct (proj2 (C4_mutation_guards (ActionQueue.pause playingOne) 7%nat 0))
      as (Ha & _ & Hr & _ & _).
    + vm_compute. discriminate.
    + destruct Ha as (Ha1 & Ha2); [vm_compute; reflexivity |].
      destruct Hr as (Hr1 & _ & Hr3); [vm_compute; split; discriminate || reflexivity |].
      rewrite Ha1, Ha2, Hr1, Hr3. repeat split; reflexivity.
Defined.

(** ** Playback steps that keep the cursor *)

Lemma settled_refl (w : ActionQueue.World) : settled w w.
Proof.
  split; [reflexivity |]. split; [intros l a H; exists a; exact H | reflexivity].
Qed.

Lemma settled_trans (w1 w2 w3 : ActionQueue.World) :
  settled w1 w2 -> settled w2 w3 -> settled w1 w3.
Proof.
  intros (Hc1 & Ho1 & Hs1) (Hc2 & Ho2 & Hs2).
  split; [congruence |].
  split.
  { intros l a H. destruct (Ho1 l a H) as (a' & H'). exact (Ho2 l a' H'). }
  intros j Hj. rewrite Hs2, Hs1; [reflexivity | exact Hj |].
  unfold cursor in Hc1. injection Hc1 as _ Hidx _. congruence.
Qed.

Lemma quiet_same_fired (w w' : ActionQueue.World) :
  ActionQueue.fired w' = ActionQueue.fired w -> quiet w w'.
Proof. intros H. exists []. split; [rewrite H; symmetry; apply app_nil_r | reflexivity]. Qed.

Lemma quiet_refl (w : ActionQueue.World) : quiet w w.
Proof. apply quiet_same_fired. reflexivity. Qed.

Lemma quiet_trans (w1 w2 w3 : ActionQueue.World) : quiet w1 w2 -> quiet w2 w3 -> quiet w1 w3.
Proof.
  intros (es1 & Hf1 & Hq1) (es2 & Hf2 & Hq2).
  exists (es1 ++ es2). split.
  - rewrite Hf2, Hf1. symmetry. apply app_assoc.
  - rewrite List.filter_app, Hq1, Hq2. reflexivity.
Qed.

Lemma steady_refl (w : ActionQueue.World) : steady w w.
Proof. split; [apply settled_refl | apply quiet_refl]. Qed.

Lemma steady_trans (w1 w2 w3 : ActionQueue.World) :
  steady w1 w2 -> steady w2 w3 -> steady w1 w3.
Proof.
  intros (Hs1 & Hq1) (Hs2 & Hq2).
  split; [eapply settled_trans | eapply quiet_trans]; eassumption.
Qed.

Lemma steady_cursor (w w' : ActionQueue.World) : steady w w' -> cursor w' = cursor w.
Proof. intros ((Hc & _) & _). exact Hc. Qed.

Lemma settled_fire (e : Event) (w : ActionQueue.World) : settled w (ActionQueue.fire e w).
Proof.
  split; [reflexivity |]. split; [intros l a H; exists a; exact H | reflexivity].
Qed.

Lemma steady_fire (e : Event) (w : ActionQueue.World) :
  isActionComplete e = false -> steady w (ActionQueue.fire e w).
Proof.
  intros He. split; [apply settled_fire |].
  exists [e]. split; [reflexivity | simpl; rewrite He; reflexivity].
Qed.

Lemma steady_onObject (l : loc) (f : Obj -> Obj) (w : ActionQueue.World) :
  (forall a, exists a', f (ObjAction a) = ObjAction a') ->
  steady w (ActionQueue.onObject l f w).
Proof.
  intros Hf. split; [| apply quiet_same_fired; reflexivity].
  split; [reflexivity |]. split; [| reflexivity].
  intros l' a H. simpl.
  destruct (Nat.eq_dec l l') as [-> | Hne].
  - rewrite list_lookup_alter_eq, H. simpl. destruct (Hf a) as (a' & ->). eauto.
  - rewrite list_lookup_alter_ne by exact Hne. eauto.
Qed.

Lemma steady_when (c : bool) (f : ActionQueue.World -> ActionQueue.World)
    (w : ActionQueue.World) :
  (forall w0, steady w0 (f w0)) -> steady w (ActionQueue.when c f w).
Proof. intros Hf. destruct c; simpl; [apply Hf | apply steady_refl]. Qed.

Lemma steady_withRef (flag : bool) (ref : option loc)
    (f : loc -> ActionQueue.World -> ActionQueue.World) (w : ActionQueue.World) :
  (forall l w0, steady w0 (f l w0)) -> steady w (ActionQueue.withRef flag ref f w).
Proof.
  intros Hf. destruct ref as [l |]; simpl; [| apply steady_refl].
  apply steady_when. apply Hf.
Qed.

Lemma setExecuting_action (v : bool) (a : Action.t) :
  exists a', Obj.setExecuting v (ObjAction a) = ObjAction a'.
Proof. simpl. eauto. Qed.

Lemma setComplete_action (v : bool) (a : Action.t) :
  exists a', Obj.setComplete v (ObjAction a) = ObjAction a'.
Proof. simpl. eauto. Qed.

Lemma steady_markComplete (l : loc) (w : ActionQueue.World) :
  steady w (ActionQueue.markComplete l w).
Proof.
  unfold ActionQueue.markComplete.
  eapply steady_trans; apply steady_onObject;
    [apply setComplete_action | apply setExecuting_action].
Qed.

Lemma steady_writeAction (info : ActionQueue.ExpandedStep) (a : Action.t)
    (w : ActionQueue.World) :
  steady w (ActionQueue.writeAction
              (ActionQueue.expandedIndex (ActionQueue.queue w)) info a w).
Proof.
  unfold ActionQueue.writeAction.
  destruct (ActionQueue.action info) as [l | a0].
  - apply steady_onObject. intros a1. eauto.
  - split; [| apply quiet_same_fired; reflexivity].
    split; [unfold cursor; simpl; rewrite length_insert; reflexivity |].
    split; [intros l a1 H; exists a1; exact H |].
    intros j Hj. simpl. apply list_lookup_insert_ne. congruence.
Qed.

Lemma steady_notifyChange (w : ActionQueue.World) : steady w (ActionQueue.notifyChange w).
Proof. unfold ActionQueue.notifyChange. apply steady_fire. reflexivity. Qed.

(** The boundary reports of [openStep] and [closeStep]. *)
Lemma steady_executing_fire (l : loc) (e : Event) (w : ActionQueue.World) :
  isActionComplete e = false ->
  steady w (ActionQueue.fire e (ActionQueue.onObject l (Obj.setExecuting true) w)).
Proof.
  intros He. eapply steady_trans;
    [apply steady_onObject, setExecuting_action | apply steady_fire, He].
Qed.

Lemma steady_complete_fire (l : loc) (e : Event) (w : ActionQueue.World) :
  isActionComplete e = false ->
  steady w (ActionQueue.fire e (ActionQueue.markComplete l w)).
Proof.
  intros He. eapply steady_trans; [apply steady_markComplete | apply steady_fire, He].
Qed.

(** Peels the outermost operation off the world on the right. *)
Ltac steady_peel :=
  eapply steady_trans;
  [| solve [ apply steady_fire; reflexivity
           | apply steady_withRef; intros;
             first [ apply steady_executing_fire; reflexivity
                   | apply steady_complete_fire; reflexivity
                   | apply steady_fire; reflexivity ]
           | apply steady_when; intros; apply steady_fire; reflexivity ]].

Lemma steady_closeStep (info : ActionQueue.ExpandedStep) (w : ActionQueue.World) :
  steady w (ActionQueue.closeStep info w).
Proof.
  unfold ActionQueue.closeStep. cbv zeta.
  do 2 steady_peel.
  apply steady_withRef. intros l w0.
  apply steady_when. intros w1. apply steady_complete_fire. reflexivity.
Qed.

Lemma steady_openStep (info : ActionQueue.ExpandedStep) (w : ActionQueue.World) :
  steady w (ActionQueue.openStep info w).
Proof.
  unfold ActionQueue.openStep.
  destruct (ActionQueue.readAction w (ActionQueue.action info)) as [a |];
    [| apply steady_refl].
  cbv zeta. do 6 steady_peel. apply steady_writeAction.
Qed.

(** ** The cases of update *)

Lemma getCurrentItemInfo_Some (q : ActionQueue.t) (info : ActionQueue.ExpandedStep) :
  ActionQueue.getCurrentItemInfo q = Some info ->
  (ActionQueue.expandedIndex q < length (ActionQueue.expandedActions q))%nat
  /\ ActionQueue.expandedActions q !! ActionQueue.expandedIndex q = Some info.
Proof.
  unfold ActionQueue.getCurrentItemInfo.
  destruct (Nat.ltb_spec (ActionQueue.expandedIndex q)
              (length (ActionQueue.expandedActions q))); [auto | discriminate].
Qed.

Lemma getCurrentItemInfo_None (q : ActionQueue.t) :
  ActionQueue.getCurrentItemInfo q = None ->
  (length (ActionQueue.expandedActions q) <= ActionQueue.expandedIndex q)%nat.
Proof.
  unfold ActionQueue.getCurrentItemInfo.
  destruct (Nat.ltb_spec (ActionQueue.expandedIndex q)
              (length (ActionQueue.expandedActions q))) as [Hlt | Hge]; [| auto].
  intros Hnone. apply lookup_lt_is_Some in Hlt. rewrite Hnone in Hlt.
  destruct Hlt as (x & Hx). discriminate.
Qed.

Lemma getCurrentItemInfo_lookup (q : ActionQueue.t) :
  ActionQueue.getCurrentItemInfo q
  = ActionQueue.expandedActions q !! ActionQueue.expandedIndex q.
Proof.
  unfold ActionQueue.getCurrentItemInfo.
  destruct (Nat.ltb_spec (ActionQueue.expandedIndex q)
              (length (ActionQueue.expandedActions q))) as [Hlt | Hge]; [reflexivity |].
  symmetry. apply lookup_ge_None. exact Hge.
Qed.

(** The world [update()] leaves when the current action completes. *)
Lemma update_cases (deltaTime : float) (w : ActionQueue.World) :
  fst (ActionQueue.update deltaTime w) = w
  \/ (ActionQueue.state (ActionQueue.queue w) = RUNNING
      /\ ActionQueue.getCurrentItemInfo (ActionQueue.queue w) = None
      /\ fst (ActionQueue.update deltaTime w)
         = ActionQueue.fire onQueueComplete
             (ActionQueue.onQueue (ActionQueue.setState COMPLETE) w))
  \/ (exists info a,
         ActionQueue.state (ActionQueue.queue w) = RUNNING
         /\ ActionQueue.getCurrentItemInfo (ActionQueue.queue w) = Some info
         /\ ActionQueue.readAction w (ActionQueue.action info) = Some a
         /\ ((Action.isComplete (fst (Action.update deltaTime a)) = false
              /\ fst (ActionQueue.update deltaTime w)
                 = ActionQueue.writeAction (ActionQueue.expandedIndex (ActionQueue.queue w))
                     info (fst (Action.update deltaTime a)) w)
             \/ (Action.isComplete (fst (Action.update deltaTime a)) = true
                 /\ fst (ActionQueue.update deltaTime w)
                    = ActionQueue.notifyChange
                        (enterNext
                           (ActionQueue.onQueue
                              (fun q => ActionQueue.setExpandedIndex
                                          (S (ActionQueue.expandedIndex q)) q)
                              (ActionQueue.closeStep info
                                 (ActionQueue.fire
                                    (onActionComplete (fst (Action.update deltaTime a))
                                       (ActionQueue.expandedIndex (ActionQueue.queue w)))
                                    (ActionQueue.writeAction
                                       (ActionQueue.expandedIndex (ActionQueue.queue w))
                                       info (fst (Action.update deltaTime a)) w)))))))).
Proof.
  unfold ActionQueue.update.
  destruct (ActionQueue.state (ActionQueue.queue w)) eqn:Hs; simpl;
    try (left; reflexivity).
  destruct (ActionQueue.getCurrentItemInfo (ActionQueue.queue w)) as [info |] eqn:Hinfo;
    [| right; left; auto].
  destruct (ActionQueue.readAction w (ActionQueue.action info)) as [a |] eqn:Ha;
    [| left; reflexivity].
  right; right. exists info, a.
  do 3 (split; [first [reflexivity | assumption] |]).
  destruct (Action.update deltaTime a) as [a1 p] eqn:Hupd. simpl.
  destruct (Action.isComplete a1) eqn:Hc; [right | left]; (split; [reflexivity |]); simpl.
  - pose proof (steady_cursor _ _ (steady_writeAction info a1 w)) as Hcur.
    unfold cursor in Hcur. injection Hcur as _ Hidx _.
    unfold enterNext. rewrite Hidx. reflexivity.
  - reflexivity.
Qed.

(** ** The cursor invariant *)

Lemma cursor_add (item : loc) (w : ActionQueue.World) :
  cursor (fst (ActionQueue.add item w)) = cursor w.
Proof.
  unfold ActionQueue.add.
  destruct (_ <=? _); [reflexivity |].
  destruct (QueueState_eqb _ _); reflexivity.
Qed.

Lemma cursor_removeAt (index : Z) (w : ActionQueue.World) :
  cursor (fst (ActionQueue.removeAt index w)) = cursor w.
Proof.
  unfold ActionQueue.removeAt.
  destruct (QueueState_eqb _ _); [reflexivity |].
  destruct (_ || _); reflexivity.
Qed.

Lemma cursor_reset (w : ActionQueue.World) : cursor (ActionQueue.reset w) = (IDLE, 0%nat, 0%nat).
Proof. reflexivity. Qed.

Lemma cursor_stop (w : ActionQueue.World) : cursor (ActionQueue.stop w) = (IDLE, 0%nat, 0%nat).
Proof. reflexivity. Qed.

Lemma cursor_clear (w : ActionQueue.World) : cursor (ActionQueue.clear w) = (IDLE, 0%nat, 0%nat).
Proof. unfold cursor. rewrite clear_queue. reflexivity. Qed.

Lemma cursorInv_pause (w : ActionQueue.World) : cursorInv w -> cursorInv (ActionQueue.pause w).
Proof.
  unfold cursorInv, cursor, ActionQueue.pause, ActionQueue.when.
  destruct (ActionQueue.state (ActionQueue.queue w)) eqn:Hs; simpl; rewrite ?Hs; auto.
Qed.

Lemma cursorInv_resume (w : ActionQueue.World) : cursorInv w -> cursorInv (ActionQueue.resume w).
Proof.
  unfold cursorInv, cursor, ActionQueue.resume, ActionQueue.when.
  destruct (ActionQueue.state (ActionQueue.queue w)) eqn:Hs; simpl; rewrite ?Hs; auto.
Qed.

(** A world whose cursor is that of a freshly reset queue starts, if it
    starts at all, at step 0 of a non-empty expansion. *)
Lemma cursorInv_start_idle (w : ActionQueue.World) :
  cursor w = (IDLE, 0%nat, 0%nat) -> cursorInv (ActionQueue.start w).
Proof.
  intros Hc. unfold ActionQueue.start.
  destruct (Z.of_nat (length (ActionQueue.items (ActionQueue.queue w))) =? 0).
  { unfold cursorInv. rewrite Hc. auto. }
  assert (ActionQueue.when
            (QueueState_eqb (ActionQueue.state (ActionQueue.queue w)) COMPLETE)
            ActionQueue.reset w = w) as ->.
  { unfold cursor in Hc. injection Hc as Hs _ _. rewrite Hs. reflexivity. }
  cbv zeta.
  destruct (Z.eqb_spec
              (Z.of_nat (length (ActionQueue.expandedActions
                                   (ActionQueue.queue (ActionQueue.expandItems w))))) 0)
    as [Hz | Hnz].
  { unfold cursorInv, cursor in *. simpl in *. injection Hc as Hs Hi _.
    rewrite Hs, Hi. split; [reflexivity | lia]. }
  set (w1 := ActionQueue.onQueue (ActionQueue.setState RUNNING) (ActionQueue.expandItems w)).
  assert (cursor w1
          = (RUNNING, 0%nat,
             length (ActionQueue.expandedActions
                       (ActionQueue.queue (ActionQueue.expandItems w))))) as Hc1.
  { unfold cursor in *. simpl. injection Hc as _ Hi _. rewrite Hi. reflexivity. }
  assert (steady w1
            (ActionQueue.notifyChange
               match ActionQueue.getCurrentItemInfo (ActionQueue.queue w1) with
               | Some currentInfo => ActionQueue.openStep currentInfo w1
               | None => w1
               end)) as Hst.
  { eapply steady_trans; [| apply steady_notifyChange].
    destruct (ActionQueue.getCurrentItemInfo (ActionQueue.queue w1));
      [apply steady_openStep | apply steady_refl]. }
  unfold cursorInv. rewrite (steady_cursor _ _ Hst), Hc1. lia.
Qed.

Lemma cursorInv_start (w : ActionQueue.World) :
  cursorInv w -> atRest w = true -> cursorInv (ActionQueue.start w).
Proof.
  intros Hinv Hrest. unfold atRest in Hrest.
  destruct (ActionQueue.state (ActionQueue.queue w)) eqn:Hs; simpl in Hrest;
    try discriminate.
  - apply cursorInv_start_idle.
    unfold cursorInv, cursor in *. rewrite Hs in *. destruct Hinv as (-> & ->). reflexivity.
  - (* started again when complete: same as starting the reset queue *)
    unfold ActionQueue.start.
    destruct (Z.of_nat (length (ActionQueue.items (ActionQueue.queue w))) =? 0) eqn:Hit;
      [exact Hinv |].
    rewrite Hs. simpl ActionQueue.when.
    pose proof (cursorInv_start_idle (ActionQueue.reset w) (cursor_reset w)) as H.
    unfold ActionQueue.start in H. simpl in H. rewrite Hit in H. exact H.
Qed.

Lemma cursorInv_update (deltaTime : float) (w : ActionQueue.World) :
  cursorInv w -> cursorInv (fst (ActionQueue.update deltaTime w)).
Proof.
  intros Hinv.
  destruct (update_cases deltaTime w)
    as [-> | [(Hs & Hnone & _) | (info & a & Hs & Hinfo & Ha & Hcase)]].
  - exact Hinv.
  - apply getCurrentItemInfo_None in Hnone.
    unfold cursorInv, cursor in Hinv. rewrite Hs in Hinv. lia.
  - apply getCurrentItemInfo_Some in Hinfo as (Hlt & _).
    destruct Hcase as [(_ & ->) | (_ & ->)].
    + pose proof (steady_cursor _ _
                    (steady_writeAction info (fst (Action.update deltaTime a)) w)) as Hc.
      unfold cursorInv. rewrite Hc. exact Hinv.
    + set (w3 := ActionQueue.closeStep info _).
      assert (cursor w3 = cursor w) as Hc3.
      { subst w3.
        match goal with
        | |- cursor (ActionQueue.closeStep _ ?x) = _ =>
            rewrite (steady_cursor _ _ (steady_closeStep info x))
        end.
        change (cursor (ActionQueue.writeAction
                          (ActionQueue.expandedIndex (ActionQueue.queue w)) info
                          (fst (Action.update deltaTime a)) w) = cursor w).
        apply steady_cursor, steady_writeAction. }
      set (w4 := ActionQueue.onQueue _ w3).
      assert (cursor w4
              = (RUNNING, S (ActionQueue.expandedIndex (ActionQueue.queue w)),
                 length (ActionQueue.expandedActions (ActionQueue.queue w)))) as Hc4.
      { unfold cursor in *. simpl. injection Hc3 as H1 H2 H3.
        rewrite H1, H2, H3, Hs. reflexivity. }
      assert (cursorInv (enterNext w4)) as Hnext.
      { unfold enterNext.
        destruct (ActionQueue.getCurrentItemInfo (ActionQueue.queue w4)) as [next |] eqn:Hn.
        - apply getCurrentItemInfo_Some in Hn as (Hlt4 & _).
          pose proof (steady_cursor _ _ (steady_openStep next w4)) as Hc.
          unfold cursorInv. rewrite Hc, Hc4. cbv iota beta.
          unfold cursor in Hc4. injection Hc4 as _ H2 H3.
          unfold w4 in Hlt4. simpl in Hlt4. lia.
        - apply getCurrentItemInfo_None in Hn.
          unfold cursor in Hc4. injection Hc4 as _ H2 H3.
          unfold w4 in Hn. simpl in Hn.
          unfold cursorInv, cursor. simpl. lia. }
      pose proof (steady_cursor _ _ (steady_notifyChange (enterNext w4))) as Hc.
      unfold cursorInv in *. rewrite Hc. exact Hnext.
Qed.

Lemma cursorInv_step (op : Op) (w : ActionQueue.World) :
  cursorInv w ->
  match op with OpStart => atRest w = true | _ => True end ->
  cursorInv (step op w).
Proof.
  intros Hinv Hop. destruct op; simpl.
  - apply cursorInv_start; assumption.
  - apply cursorInv_update; assumption.
  - apply cursorInv_pause; assumption.
  - apply cursorInv_resume; assumption.
  - unfold cursorInv. rewrite cursor_stop. auto.
  - unfold cursorInv. rewrite cursor_reset. auto.
  - unfold cursorInv. rewrite cursor_clear. auto.
  - unfold cursorInv. rewrite cursor_add. exact Hinv.
  - unfold cursorInv. rewrite cursor_removeAt. exact Hinv.
Qed.

Lemma cursorInv_run (ops : list Op) :
  forall w : ActionQueue.World,
    cursorInv w -> startsAtRest ops w = true -> cursorInv (run ops w).
Proof.
  induction ops as [| op ops IH]; intros w Hinv Hops; simpl in *.
  - exact Hinv.
  - apply andb_prop in Hops as (Hop & Hrest).
    apply IH; [| exact Hrest].
    apply cursorInv_step; [exact Hinv |].
    destruct op; auto.
Qed.

(** ** Handlers that only observe *)

Section Observers.

Variable handle : ActionQueue.Handler.
Hypothesis Hobs : observes handle.

Lemma fireWith_observes (e : Event) (w : ActionQueue.World) :
  ActionQueue.fireWith handle e w = ActionQueue.fire e w.
Proof. unfold ActionQueue.fireWith. apply Hobs. Qed.

Lemma notifyChangeWith_observes (w : ActionQueue.World) :
  ActionQueue.notifyChangeWith handle w = ActionQueue.notifyChange w.
Proof. apply fireWith_observes. Qed.

Lemma addWith_observes (item : loc) (w : ActionQueue.World) :
  ActionQueue.addWith handle item w = ActionQueue.add item w.
Proof.
  unfold ActionQueue.addWith, ActionQueue.add.
  rewrite notifyChangeWith_observes. reflexivity.
Qed.

Lemma removeAtWith_observes (index : Z) (w : ActionQueue.World) :
  ActionQueue.removeAtWith handle index w = ActionQueue.removeAt index w.
Proof.
  unfold ActionQueue.removeAtWith, ActionQueue.removeAt.
  rewrite notifyChangeWith_observes. reflexivity.
Qed.

Lemma clearWith_observes (w : ActionQueue.World) :
  ActionQueue.clearWith handle w = ActionQueue.clear w.
Proof.
  unfold ActionQueue.clearWith, ActionQueue.clear.
  rewrite notifyChangeWith_observes. reflexivity.
Qed.

Lemma withRef_ext (flag : bool) (ref : option loc)
    (f g : loc -> ActionQueue.World -> ActionQueue.World) (w : ActionQueue.World) :
  (forall l w', f l w' = g l w') ->
  ActionQueue.withRef flag ref f w = ActionQueue.withRef flag ref g w.
Proof.
  intros Hfg. unfold ActionQueue.withRef, ActionQueue.when.
  destruct ref as [l |]; [| reflexivity]. destruct flag; [apply Hfg | reflexivity].
Qed.

Lemma when_ext (c : bool) (f g : ActionQueue.World -> ActionQueue.World)
    (w : ActionQueue.World) :
  (forall w', f w' = g w') -> ActionQueue.when c f w = ActionQueue.when c g w.
Proof. intros Hfg. unfold ActionQueue.when. destruct c; [apply Hfg | reflexivity]. Qed.

Lemma openStepWith_observes (info : ActionQueue.ExpandedStep) (w : ActionQueue.World) :
  ActionQueue.openStepWith handle info w = ActionQueue.openStep info w.
Proof.
  unfold ActionQueue.openStepWith, ActionQueue.openStep.
  destruct (ActionQueue.readAction w (ActionQueue.action info)) as [a |]; [| reflexivity].
  cbv zeta.
  rewrite (withRef_ext (ActionQueue.isFirstInRepeat info) _ _
             (fun rb w => ActionQueue.fire (onRepeatStart rb (ActionQueue.itemIndex info))
                            (ActionQueue.onObject rb (Obj.setExecuting true) w)))
    by (intros; apply fireWith_observes).
  rewrite (withRef_ext (ActionQueue.isFirstInIteration info) _ _
             (fun rb w => ActionQueue.fire
                            (onRepeatIteration rb (ActionQueue.iteration info)
                                               (ActionQueue.totalIterations info)) w))
    by (intros; apply fireWith_observes).
  rewrite (withRef_ext (ActionQueue.isFirstInRecursion info) _ _
             (fun rr w => ActionQueue.fire (onRecursionStart rr (ActionQueue.itemIndex info))
                            (ActionQueue.onObject rr (Obj.setExecuting true) w)))
    by (intros; apply fireWith_observes).
  rewrite (when_ext (ActionQueue.isFromRecursion info && ActionQueue.isFirstAtDepth info) _
             (ActionQueue.fire (onRecursionDepthChange (ActionQueue.recursiveRef info)
                                                       (ActionQueue.recursionDepth info)
                                                       (ActionQueue.recursionPhase info))))
    by (intros; apply fireWith_observes).
  rewrite (withRef_ext (ActionQueue.isFirstInGroup info) _ _
             (fun gr w => ActionQueue.fire (onGroupStart gr (ActionQueue.itemIndex info))
                            (ActionQueue.onObject gr (Obj.setExecuting true) w)))
    by (intros; apply fireWith_observes).
  apply fireWith_observes.
Qed.

Lemma closeStepWith_observes (info : ActionQueue.ExpandedStep) (w : ActionQueue.World) :
  ActionQueue.closeStepWith handle info w = ActionQueue.closeStep info w.
Proof.
  unfold ActionQueue.closeStepWith, ActionQueue.closeStep. cbv zeta.
  rewrite (withRef_ext (ActionQueue.isLastInIteration info) _ _
             (fun rb w =>
                ActionQueue.when
                  (negb (ActionQueue.iteration info <? ActionQueue.totalIterations info - 1)
                   && ActionQueue.isLastInRepeat info)
                  (fun w => ActionQueue.fire
                              (onRepeatComplete rb (ActionQueue.itemIndex info))
                              (ActionQueue.markComplete rb w)) w))
    by (intros; apply when_ext; intros; apply fireWith_observes).
  rewrite (withRef_ext (ActionQueue.isLastInGroup info) _ _
             (fun gr w => ActionQueue.fire (onGroupComplete gr (ActionQueue.itemIndex info))
                            (ActionQueue.markComplete gr w)))
    by (intros; apply fireWith_observes).
  apply withRef_ext. intros; apply fireWith_observes.
Qed.

Lemma startWith_observes (w : ActionQueue.World) :
  ActionQueue.startWith handle w = ActionQueue.start w.
Proof.
  unfold ActionQueue.startWith, ActionQueue.start.
  destruct (Z.of_nat (length (ActionQueue.items (ActionQueue.queue w))) =? 0);
    [reflexivity |].
  cbv zeta.
  destruct (Z.of_nat (length (ActionQueue.expandedActions _)) =? 0); [reflexivity |].
  rewrite notifyChangeWith_observes.
  destruct (ActionQueue.getCurrentItemInfo _) as [currentInfo |]; [| reflexivity].
  rewrite openStepWith_observes. reflexivity.
Qed.

Lemma updateWith_observes (deltaTime : float) (w : ActionQueue.World) :
  ActionQueue.updateWith handle deltaTime w = ActionQueue.update deltaTime w.
Proof.
  unfold ActionQueue.updateWith, ActionQueue.update.
  destruct (negb (QueueState_eqb (ActionQueue.state (ActionQueue.queue w)) RUNNING));
    [reflexivity |].
  destruct (ActionQueue.getCurrentItemInfo (ActionQueue.queue w)) as [currentInfo |];
    [| rewrite fireWith_observes; reflexivity].
  destruct (ActionQueue.readAction w (ActionQueue.action currentInfo)) as [a |];
    [| reflexivity].
  destruct (Action.update deltaTime a) as [currentAction p].
  destruct (Action.isComplete currentAction); [| reflexivity].
  cbv zeta.
  rewrite notifyChangeWith_observes, fireWith_observes, closeStepWith_observes.
  destruct (ActionQueue.getCurrentItemInfo _) as [nextInfo |].
  - rewrite openStepWith_observes. reflexivity.
  - rewrite fireWith_observes. reflexivity.
Qed.

Lemma stepWith_observes (op : Op) (w : ActionQueue.World) :
  stepWith handle op w = step op w.
Proof.
  destruct op; simpl; try reflexivity.
  - apply startWith_observes.
  - rewrite updateWith_observes. reflexivity.
  - apply clearWith_observes.
  - rewrite addWith_observes. reflexivity.
  - rewrite removeAtWith_observes. reflexivity.
Qed.

Lemma runWith_observes (ops : list Op) :
  forall w : ActionQueue.World, runWith handle ops w = run ops w.
Proof.
  induction ops as [| op ops IH]; intros w; [reflexivity |].
  cbn [runWith run fold_left]. rewrite stepWith_observes. apply IH.
Qed.

Lemma startsAtRestWith_observes (ops : list Op) :
  forall w : ActionQueue.World, startsAtRestWith handle ops w = startsAtRest ops w.
Proof.
  induction ops as [| op ops IH]; intros w; [reflexivity |].
  cbn [startsAtRestWith startsAtRest]. rewrite stepWith_observes, IH. reflexivity.
Qed.

Lemma updatesWith_observes (deltas : list float) :
  forall w : ActionQueue.World, updatesWith handle deltas w = updates deltas w.
Proof.
  induction deltas as [| deltaTime deltas IH]; intros w; [reflexivity |].
  cbn [updatesWith updates fold_left]. rewrite updateWith_observes. apply IH.
Qed.

End Observers.

Lemma awayFromFinish_observes : observes awayFromFinish.
Proof. intros e w. destruct e; reflexivity. Qed.

(** C5, as stated, fails on three runs.  After a [start()] that succeeded,
    [stop()] leaves the queue [IDLE] with the cursor at 0 of an empty
    expansion: the cursor equals the length and the state is not [COMPLETE].
    And [start()] on a paused queue keeps the cursor while it rebuilds the
    expansion from the items that are left: the cursor, 2, is beyond the
    length, 1.  And the handler of [Game] does not only observe: when the
    first action brings the ball to the finish, [onActionComplete] stops the
    queue in the middle of [update()], which then moves the cursor of the
    emptied expansion to 1 and, finding no step there, declares the queue
    [COMPLETE], in a run whose only [start()] was called on an idle queue;
    the cursor, 1, is beyond the length, 0.  (With handlers that only
    observe, the same run leaves the queue [RUNNING] on its second step.) *)
Lemma C5_cursor_counterexample :
  (ActionQueue.state (ActionQueue.queue (run [OpAdd 0%nat; OpStart] threeActions)) = RUNNING
   /\ cursor (run stoppedRun threeActions) = (IDLE, 0%nat, 0%nat))
  /\ (ActionQueue.state
        (ActionQueue.queue
           (run [OpAdd 0%nat; OpAdd 1%nat; OpAdd 2%nat; OpStart; OpUpdate 300; OpUpdate 300;
                 OpPause; OpRemoveAt 0; OpRemoveAt 0] threeActions)) = PAUSED
      /\ cursor (run restartedRun threeActions) = (RUNNING, 2%nat, 1%nat))
  /\ (startsAtRestWith finishAtFirst finishRun threeActions = true
      /\ cursor (runWith finishAtFirst finishRun threeActions) = (COMPLETE, 1%nat, 0%nat)
      /\ cursor (runWith awayFromFinish finishRun threeActions) = (RUNNING, 1%nat, 2%nat)).
Proof. repeat split; vm_compute; reflexivity. Qed.

(** C5, amended: with callback handlers that only observe (they do not call
    back into the queue), on a fresh queue, after every run of [start],
    [update], [pause], [resume], [stop], [reset], [clear], [add] and
    [removeAt] in which [start()] is only called while the queue is [IDLE]
    or [COMPLETE], the cursor [expandedIndex] is within
    [0, expandedActions.length]; the state is [COMPLETE] if and only if the
    cursor equals that length and the expansion is not empty; and an [IDLE]
    queue has the cursor at 0 and an empty expansion. *)
Theorem C5_cursor_invariant (handle : ActionQueue.Handler) (objs : list Obj) (size : Z)
    (ops : list Op) :
  observes handle ->
  startsAtRestWith handle ops (ActionQueue.init objs size) = true ->
  let q := ActionQueue.queue (runWith handle ops (ActionQueue.init objs size)) in
  (0 <= ActionQueue.expandedIndex q <= length (ActionQueue.expandedActions q))%nat
  /\ (ActionQueue.state q = COMPLETE
      <-> ActionQueue.expandedIndex q = length (ActionQueue.expandedActions q)
          /\ (0 < length (ActionQueue.expandedActions q))%nat)
  /\ (ActionQueue.state q = IDLE ->
      ActionQueue.expandedIndex q = 0%nat /\ ActionQueue.expandedActions q = []).
Proof.
  intros Hobs.
  rewrite (startsAtRestWith_observes handle Hobs), (runWith_observes handle Hobs).
  intros Hops q.
  assert (cursorInv (run ops (ActionQueue.init objs size))) as Hinv.
  { apply cursorInv_run; [| exact Hops]. unfold cursorInv. simpl. auto. }
  unfold cursorInv, cursor in Hinv. fold q in Hinv.
  destruct (ActionQueue.state q) eqn:Hs.
  - destruct Hinv as (Hi & Hl). rewrite Hi, Hl.
    split; [lia |]. split; [split; [discriminate | lia] |].
    intros _. split; [reflexivity |]. apply length_zero_iff_nil. exact Hl.
  - split; [lia |]. split; [split; [discriminate | lia] | discriminate].
  - split; [lia |]. split; [split; [discriminate | lia] | discriminate].
  - destruct Hinv as (Hi & Hl).
    split; [lia |]. split; [split; auto | discriminate].
Qed.

(** A run that plays two items to the end, pausing on the way, under the
    handlers of [Game] on a level where no action reaches the finish. *)
Lemma C5_cursor_invariant_witness :
  observes awayFromFinish
  /\ startsAtRestWith awayFromFinish playedRun threeActions = true
  /\ cursor (runWith awayFromFinish playedRun threeActions) = (COMPLETE, 2%nat, 2%nat)
  /\ (ActionQueue.expandedIndex
        (ActionQueue.queue (runWith awayFromFinish playedRun threeActions))
      <= length (ActionQueue.expandedActions
                   (ActionQueue.queue (runWith awayFromFinish playedRun threeActions))))%nat.
Proof.
  split; [exact awayFromFinish_observes |].
  split; [reflexivity |]. split; [vm_compute; reflexivity |].
  apply (C5_cursor_invariant awayFromFinish
           [ObjAction (Action.newDefault MOVE_UP);
            ObjAction (Action.newDefault MOVE_RIGHT);
            ObjAction (Action.newDefault MOVE_DOWN)]
           CONFIG.maxQueueSize playedRun).
  - exact awayFromFinish_observes.
  - reflexivity.
Defined.

(** ** What entering a step does to its action *)

Lemma onlyFlags_refl (w : ActionQueue.World) : onlyFlags w w.
Proof. split; [reflexivity | auto]. Qed.

Lemma onlyFlags_trans (w1 w2 w3 : ActionQueue.World) :
  onlyFlags w1 w2 -> onlyFlags w2 w3 -> onlyFlags w1 w3.
Proof. intros (Hq1 & Hj1) (Hq2 & Hj2). split; [congruence | auto]. Qed.

Lemma onlyFlags_fire (e : Event) (w : ActionQueue.World) :
  onlyFlags w (ActionQueue.fire e w).
Proof. split; [reflexivity |]. intros r H. exact H. Qed.

Lemma onlyFlags_setExecuting (l : loc) (v : bool) (w : ActionQueue.World) :
  onlyFlags w (ActionQueue.onObject l (Obj.setExecuting v) w).
Proof.
  split; [reflexivity |].
  intros [l0 | a0] (a & Hread & Hp & Hc); [| exists a; auto].
  unfold justStarted, ActionQueue.readAction, ActionQueue.onObject in *.
  cbn [ActionQueue.objects].
  destruct (ActionQueue.objects w !! l0) as [[a1 | | |] |] eqn:Hl0; try discriminate.
  injection Hread as ->.
  destruct (Nat.eq_dec l l0) as [-> | Hne].
  - rewrite list_lookup_alter_eq, Hl0. simpl. eexists. split; [reflexivity |]. auto.
  - rewrite list_lookup_alter_ne, Hl0 by exact Hne. exists a. auto.
Qed.

Lemma onlyFlags_when (c : bool) (f : ActionQueue.World -> ActionQueue.World)
    (w : ActionQueue.World) :
  (forall w0, onlyFlags w0 (f w0)) -> onlyFlags w (ActionQueue.when c f w).
Proof. intros Hf. destruct c; simpl; [apply Hf | apply onlyFlags_refl]. Qed.

Lemma onlyFlags_withRef (flag : bool) (ref : option loc)
    (f : loc -> ActionQueue.World -> ActionQueue.World) (w : ActionQueue.World) :
  (forall l w0, onlyFlags w0 (f l w0)) -> onlyFlags w (ActionQueue.withRef flag ref f w).
Proof.
  intros Hf. destruct ref as [l |]; simpl; [| apply onlyFlags_refl].
  apply onlyFlags_when. apply Hf.
Qed.

Lemma onlyFlags_executing_fire (l : loc) (e : Event) (w : ActionQueue.World) :
  onlyFlags w (ActionQueue.fire e (ActionQueue.onObject l (Obj.setExecuting true) w)).
Proof.
  eapply onlyFlags_trans; [apply onlyFlags_setExecuting | apply onlyFlags_fire].
Qed.

Ltac onlyFlags_peel :=
  eapply onlyFlags_trans;
  [| solve [ apply onlyFlags_fire
           | apply onlyFlags_withRef; intros;
             first [apply onlyFlags_executing_fire | apply onlyFlags_fire]
           | apply onlyFlags_when; intros; apply onlyFlags_fire ]].

(** Once the action of the current step is written, it is what the step
    leads to. *)
Lemma writeAction_current (info : ActionQueue.ExpandedStep) (a0 a : Action.t)
    (w : ActionQueue.World) :
  ActionQueue.getCurrentItemInfo (ActionQueue.queue w) = Some info ->
  ActionQueue.readAction w (ActionQueue.action info) = Some a0 ->
  exists info1,
    ActionQueue.getCurrentItemInfo
      (ActionQueue.queue
         (ActionQueue.writeAction (ActionQueue.expandedIndex (ActionQueue.queue w))
                                  info a w)) = Some info1
    /\ ActionQueue.readAction
         (ActionQueue.writeAction (ActionQueue.expandedIndex (ActionQueue.queue w)) info a w)
         (ActionQueue.action info1) = Some a.
Proof.
  intros Hinfo Hread. unfold ActionQueue.writeAction.
  destruct (ActionQueue.action info) as [l | a1] eqn:Hact.
  - exists info. split; [exact Hinfo |]. rewrite Hact.
    unfold ActionQueue.readAction, ActionQueue.onObject in *.
    cbn [ActionQueue.objects].
    destruct (ActionQueue.objects w !! l) as [[a2 | | |] |] eqn:Hl; try discriminate.
    rewrite list_lookup_alter_eq, Hl. reflexivity.
  - apply getCurrentItemInfo_Some in Hinfo as (Hlt & Hlook).
    exists (ActionQueue.setAction (Owned a) info). split; [| reflexivity].
    rewrite getCurrentItemInfo_lookup. simpl.
    apply list_lookup_insert_eq. exact Hlt.
Qed.

(** Entering a step leaves its action freshly started, whatever time the
    frame that led there had left over. *)
Lemma openStep_current (info : ActionQueue.ExpandedStep) (a : Action.t)
    (w : ActionQueue.World) :
  ActionQueue.getCurrentItemInfo (ActionQueue.queue w) = Some info ->
  ActionQueue.readAction w (ActionQueue.action info) = Some a ->
  exists a',
    ActionQueue.getCurrentAction (ActionQueue.openStep info w) = Some a'
    /\ Action.progress a' = 0%float /\ Action.isComplete a' = false.
Proof.
  intros Hinfo Hread.
  destruct (writeAction_current info a (Action.start a) w Hinfo Hread)
    as (info1 & Hinfo1 & Hread1).
  unfold ActionQueue.openStep. rewrite Hread. cbv zeta.
  set (w1 := ActionQueue.writeAction _ info (Action.start a) w) in *.
  match goal with
  | |- exists a', ActionQueue.getCurrentAction ?x = _ /\ _ =>
      assert (onlyFlags w1 x) as (Hq & Hj)
  end.
  { do 6 onlyFlags_peel. apply onlyFlags_refl. }
  destruct (Hj (ActionQueue.action info1)) as (a' & Ha' & Hp & Hc).
  { exists (Action.start a). split; [exact Hread1 | split; reflexivity]. }
  exists a'. split; [| auto].
  unfold ActionQueue.getCurrentAction. rewrite Hq, Hinfo1. exact Ha'.
Qed.

Lemma openStep_stuck (info : ActionQueue.ExpandedStep) (w : ActionQueue.World) :
  ActionQueue.readAction w (ActionQueue.action info) = None ->
  ActionQueue.openStep info w = w.
Proof. intros H. unfold ActionQueue.openStep. rewrite H. reflexivity. Qed.

(** After the cursor has moved on, the action it is at, if any, has just
    been started. *)
Lemma enterNext_current (w : ActionQueue.World) (a' : Action.t) :
  ActionQueue.getCurrentAction (enterNext w) = Some a' ->
  Action.progress a' = 0%float /\ Action.isComplete a' = false.
Proof.
  unfold enterNext.
  destruct (ActionQueue.getCurrentItemInfo (ActionQueue.queue w)) as [next |] eqn:Hn.
  - destruct (ActionQueue.readAction w (ActionQueue.action next)) as [a |] eqn:Ha.
    + destruct (openStep_current next a w Hn Ha) as (a1 & H1 & Hp & Hc).
      intros H. rewrite H1 in H. injection H as <-. auto.
    + rewrite (openStep_stuck next w Ha).
      unfold ActionQueue.getCurrentAction. rewrite Hn, Ha. discriminate.
  - unfold ActionQueue.getCurrentAction, ActionQueue.getCurrentItemInfo in *. simpl.
    rewrite Hn. discriminate.
Qed.

(** ** One update, one action *)

Lemma quiet_enterNext (w : ActionQueue.World) : quiet w (enterNext w).
Proof.
  unfold enterNext.
  destruct (ActionQueue.getCurrentItemInfo (ActionQueue.queue w)) as [next |].
  - apply steady_openStep.
  - exists [onQueueComplete]. split; reflexivity.
Qed.

Lemma enterNext_index (w : ActionQueue.World) :
  ActionQueue.expandedIndex (ActionQueue.queue (enterNext w))
  = ActionQueue.expandedIndex (ActionQueue.queue w).
Proof.
  unfold enterNext.
  destruct (ActionQueue.getCurrentItemInfo (ActionQueue.queue w)) as [next |];
    [| reflexivity].
  pose proof (steady_cursor _ _ (steady_openStep next w)) as Hc.
  unfold cursor in Hc. injection Hc as _ Hi _. exact Hi.
Qed.

Lemma settled_readAction (w w' : ActionQueue.World) (r : ActionRef) :
  settled w w' ->
  is_Some (ActionQueue.readAction w r) -> is_Some (ActionQueue.readAction w' r).
Proof.
  intros (_ & Hk & _) (a & Ha). destruct r as [l | a0]; [| eauto].
  unfold ActionQueue.readAction in *.
  destruct (ActionQueue.objects w !! l) as [[a1 | | |] |] eqn:Hl; try discriminate.
  destruct (Hk l a1 Hl) as (a' & ->). eauto.
Qed.

(** Exactly one call of [onActionComplete] between two quiet stretches. *)
Lemma one_completion (w w1 w' : ActionQueue.World) (e : Event) :
  quiet w w1 -> quiet (ActionQueue.fire e w1) w' -> isActionComplete e = true ->
  exists new, ActionQueue.fired w' = ActionQueue.fired w ++ new
              /\ List.filter isActionComplete new = [e].
Proof.
  intros (es1 & Hf1 & Hq1) (es2 & Hf2 & Hq2) He.
  exists (es1 ++ [e] ++ es2). split.
  - rewrite Hf2. simpl. rewrite Hf1. rewrite <- !app_assoc. reflexivity.
  - rewrite !List.filter_app, Hq1, Hq2. simpl. rewrite He. reflexivity.
Qed.

Section UpdateCompletes.

Variables (deltaTime : float) (w : ActionQueue.World).
Variables (info : ActionQueue.ExpandedStep) (a : Action.t).

Local Abbreviation reported := (reported deltaTime w info a).
Local Abbreviation moved := (moved deltaTime w info a).
Local Abbreviation final := (final deltaTime w info a).

Lemma settled_closed : settled w (ActionQueue.closeStep info reported).
Proof.
  eapply settled_trans; [| apply steady_closeStep].
  eapply settled_trans; [apply steady_writeAction | apply settled_fire].
Qed.

Lemma moved_index :
  ActionQueue.expandedIndex (ActionQueue.queue moved)
  = S (ActionQueue.expandedIndex (ActionQueue.queue w)).
Proof.
  destruct settled_closed as (Hc & _).
  unfold cursor in Hc. injection Hc as _ Hi _.
  unfold moved. simpl. rewrite Hi. reflexivity.
Qed.

Lemma final_index :
  ActionQueue.expandedIndex (ActionQueue.queue final)
  = S (ActionQueue.expandedIndex (ActionQueue.queue w)).
Proof.
  unfold final.
  change (ActionQueue.expandedIndex (ActionQueue.queue (enterNext moved))
          = S (ActionQueue.expandedIndex (ActionQueue.queue w))).
  rewrite enterNext_index. apply moved_index.
Qed.

Lemma final_fired :
  exists new,
    ActionQueue.fired final = ActionQueue.fired w ++ new
    /\ List.filter isActionComplete new
       = [onActionComplete (fst (Action.update deltaTime a))
                           (ActionQueue.expandedIndex (ActionQueue.queue w))].
Proof.
  apply one_completion with
    (w1 := ActionQueue.writeAction (ActionQueue.expandedIndex (ActionQueue.queue w))
             info (fst (Action.update deltaTime a)) w);
    [apply steady_writeAction | | reflexivity].
  eapply quiet_trans; [apply steady_closeStep |].
  eapply quiet_trans; [| apply steady_notifyChange].
  eapply quiet_trans; [| apply quiet_enterNext].
  apply quiet_same_fired. reflexivity.
Qed.

Lemma final_current (a' : Action.t) :
  ActionQueue.getCurrentAction final = Some a' ->
  Action.progress a' = 0%float /\ Action.isComplete a' = false.
Proof. apply enterNext_current. Qed.

Lemma final_current_exists (next : ActionQueue.ExpandedStep) :
  ActionQueue.expandedActions (ActionQueue.queue w)
    !! S (ActionQueue.expandedIndex (ActionQueue.queue w)) = Some next ->
  is_Some (ActionQueue.readAction w (ActionQueue.action next)) ->
  is_Some (ActionQueue.getCurrentAction final).
Proof.
  intros Hnext Hread.
  pose proof settled_closed as Hset.
  apply (settled_readAction _ _ _ Hset) in Hread as (a0 & Ha0).
  destruct Hset as (_ & _ & Hsteps).
  assert (ActionQueue.getCurrentItemInfo (ActionQueue.queue moved) = Some next) as Hcur.
  { rewrite getCurrentItemInfo_lookup, moved_index.
    unfold moved. simpl. rewrite Hsteps by lia. exact Hnext. }
  destruct (openStep_current next a0 moved Hcur Ha0) as (a1 & Ha1 & _).
  exists a1. unfold final, enterNext. rewrite Hcur. exact Ha1.
Qed.

End UpdateCompletes.

(** C9: one call of [update(deltaTime)], whatever [deltaTime] is, either
    calls [onActionComplete] not at all and leaves the cursor where it was,
    or calls it exactly once, for a completed action at the old cursor, and
    moves the cursor by exactly one; and when the cursor has moved, the
    action it has reached has progress 0 and is not complete (and there is
    such an action whenever the queue had a next step with an action): the
    time the frame had left over is not passed on. *)
Theorem C9_update_one_action (deltaTime : float) (w : ActionQueue.World) :
  (exists new,
      ActionQueue.fired (fst (ActionQueue.update deltaTime w)) = ActionQueue.fired w ++ new
      /\ ((List.filter isActionComplete new = []
           /\ ActionQueue.expandedIndex (ActionQueue.queue (fst (ActionQueue.update deltaTime w)))
              = ActionQueue.expandedIndex (ActionQueue.queue w))
          \/ (exists done,
                 List.filter isActionComplete new
                 = [onActionComplete done (ActionQueue.expandedIndex (ActionQueue.queue w))]
                 /\ Action.isComplete done = true
                 /\ ActionQueue.expandedIndex
                      (ActionQueue.queue (fst (ActionQueue.update deltaTime w)))
                    = S (ActionQueue.expandedIndex (ActionQueue.queue w)))))
  /\ (ActionQueue.expandedIndex (ActionQueue.queue (fst (ActionQueue.update deltaTime w)))
      = S (ActionQueue.expandedIndex (ActionQueue.queue w)) ->
      (forall a',
          ActionQueue.getCurrentAction (fst (ActionQueue.update deltaTime w)) = Some a' ->
          Action.progress a' = 0%float /\ Action.isComplete a' = false)
      /\ (forall next,
             ActionQueue.expandedActions (ActionQueue.queue w)
               !! S (ActionQueue.expandedIndex (ActionQueue.queue w)) = Some next ->
             is_Some (ActionQueue.readAction w (ActionQueue.action next)) ->
             is_Some (ActionQueue.getCurrentAction (fst (ActionQueue.update deltaTime w))))).
Proof.
  destruct (update_cases deltaTime w)
    as [-> | [(Hs & Hnone & ->) | (info & a & Hs & Hinfo & Ha & [(Hc & ->) | (Hc & ->)])]].
  - split; [| intros H; lia].
    exists []. split; [symmetry; apply app_nil_r | left; split; reflexivity].
  - split; [| simpl; intros H; lia].
    exists [onQueueComplete]. split; [reflexivity | left; split; reflexivity].
  - pose proof (steady_writeAction info (fst (Action.update deltaTime a)) w)
      as ((Hcur & _) & (es & Hf & Hq)).
    unfold cursor in Hcur. injection Hcur as _ Hi _.
    split; [| intros H; lia].
    exists es. split; [exact Hf | left; split; assumption].
  - split.
    + destruct (final_fired deltaTime w info a) as (new & Hf & Hq).
      exists new. split; [exact Hf |]. right.
      exists (fst (Action.update deltaTime a)).
      split; [exact Hq |]. split; [exact Hc |]. apply final_index.
    + intros _. split.
      * apply final_current.
      * apply final_current_exists.
Qed.

(** A frame of 100 seconds on a queue of two 300 ms actions: one action
    completes, the cursor moves from 0 to 1, and the second action starts
    from progress 0. *)
Lemma C9_update_one_action_witness :
  ActionQueue.expandedIndex (ActionQueue.queue playingTwo) = 0%nat
  /\ ActionQueue.expandedIndex
       (ActionQueue.queue (fst (ActionQueue.update 100000 playingTwo))) = 1%nat
  /\ ActionQueue.getCurrentAction (fst (ActionQueue.update 100000 playingTwo))
     = Some (Action.mk MOVE_RIGHT 300 true false 0%float)
  /\ Action.progress (Action.mk MOVE_RIGHT 300 true false 0%float) = 0%float
  /\ Action.isComplete (Action.mk MOVE_RIGHT 300 true false 0%float) = false.
Proof.
  split; [reflexivity |]. split; [reflexivity |]. split; [reflexivity |].
  apply (proj1 (proj2 (C9_update_one_action 100000 playingTwo) eq_refl)). reflexivity.
Defined.

(** ** totalActions against the expansion *)

Lemma totalActions_from (objs : list Obj) (l : list loc) :
  forall acc : Z,
    fold_left (fun count item =>
                 match objs !! item with
                 | Some (ObjGroupRef r) =>
                     count + ActionGroup.size (GroupReference.group r)
                 | _ => count + 1
                 end) l acc
    = acc + sumZ (map (countedAs objs) l).
Proof.
  induction l as [| item l IH]; intros acc; simpl.
  - lia.
  - rewrite IH. unfold countedAs, ActionGroup.size.
    destruct (objs !! item) as [[a | r | b | r] |]; lia.
Qed.

Lemma totalActions_sum (w : ActionQueue.World) :
  ActionQueue.totalActions w
  = sumZ (map (countedAs (ActionQueue.objects w)) (ActionQueue.items (ActionQueue.queue w))).
Proof. unfold ActionQueue.totalActions. rewrite totalActions_from. lia. Qed.

Lemma length_repeatSteps (item : loc) (idx : nat) (b : RepeatBlock.t)
    (expandedRepeat : list RepeatBlock.Entry) (rest : list RepeatBlock.Entry) :
  forall (lastIteration : Z) (actionIndex : nat),
    length (ActionQueue.repeatSteps item idx b expandedRepeat lastIteration actionIndex rest)
    = length rest.
Proof.
  induction rest as [| e rest IH]; intros lastIteration actionIndex; simpl.
  - reflexivity.
  - rewrite IH. reflexivity.
Qed.

Lemma length_expandItem (objs : list Obj) (idx : nat) (item : loc) :
  length (ActionQueue.expandItem objs idx item) = stepsOf objs item.
Proof.
  unfold ActionQueue.expandItem, stepsOf.
  destruct (objs !! item) as [[a | r | b | r] |]; try reflexivity.
  - rewrite length_imap. unfold GroupReference.getActions, ActionGroup.getActions.
    apply length_map.
  - apply length_repeatSteps.
  - apply length_imap.
Qed.

Lemma length_expansion_from (objs : list Obj) (its : list loc) :
  forall f : nat -> nat,
    length (concat (imap (fun i => ActionQueue.expandItem objs (f i)) its))
    = fold_right Nat.add 0%nat (map (stepsOf objs) its).
Proof.
  induction its as [| item its IH]; intros f; simpl.
  - reflexivity.
  - rewrite length_app, length_expandItem. f_equal. apply (IH (f ∘ S)).
Qed.

Lemma length_expansion (objs : list Obj) (its : list loc) :
  length (ActionQueue.expansion objs its)
  = fold_right Nat.add 0%nat (map (stepsOf objs) its).
Proof. apply (length_expansion_from objs its (fun i => i)). Qed.

Lemma counted_le_steps (objs : list Obj) (item : loc) :
  expandsToAtLeast 1 objs item -> countedAs objs item <= Z.of_nat (stepsOf objs item).
Proof.
  unfold expandsToAtLeast, countedAs, stepsOf.
  destruct (objs !! item) as [[a | r | b | r] |]; lia.
Qed.

Lemma counted_lt_steps (objs : list Obj) (item : loc) :
  expandsToSeveral objs item -> countedAs objs item < Z.of_nat (stepsOf objs item).
Proof.
  unfold expandsToSeveral, countedAs, stepsOf.
  destruct (objs !! item) as [[a | r | b | r] |]; lia.
Qed.

Lemma sum_counted_le (objs : list Obj) (its : list loc) :
  Forall (expandsToAtLeast 1 objs) its ->
  sumZ (map (countedAs objs) its)
  <= Z.of_nat (fold_right Nat.add 0%nat (map (stepsOf objs) its)).
Proof.
  induction 1 as [| item its Hitem Hits IH]; simpl; [lia |].
  pose proof (counted_le_steps objs item Hitem). lia.
Qed.

Lemma sum_counted_lt (objs : list Obj) (its : list loc) :
  Forall (expandsToAtLeast 1 objs) its ->
  Exists (expandsToSeveral objs) its ->
  sumZ (map (countedAs objs) its)
  < Z.of_nat (fold_right Nat.add 0%nat (map (stepsOf objs) its)).
Proof.
  intros Hall Hex. induction Hall as [| item its Hitem Hits IH]; simpl.
  - inversion Hex.
  - pose proof (counted_le_steps objs item Hitem).
    pose proof (sum_counted_le objs its Hits).
    inversion Hex as [? ? Hsev | ? ? Hrest]; subst.
    + pose proof (counted_lt_steps objs item Hsev). lia.
    + specialize (IH Hrest). lia.
Qed.

(** Each pass of a repeat block yields as many entries as the first. *)
Lemma length_expandItem_pass (it it' : Z) (item : RepeatBlock.Item) :
  length (RepeatBlock.expandItem it item) = length (RepeatBlock.expandItem it' item).
Proof. destruct item; simpl; rewrite ?length_map; reflexivity. Qed.

Lemma length_pass (b : RepeatBlock.t) (it it' : Z) :
  length (flat_map (RepeatBlock.expandItem it) (RepeatBlock.items b))
  = length (flat_map (RepeatBlock.expandItem it') (RepeatBlock.items b)).
Proof.
  induction (RepeatBlock.items b) as [| item items IH]; simpl; [reflexivity |].
  rewrite !length_app, IH, (length_expandItem_pass it it'). reflexivity.
Qed.

Lemma length_repeat_expansion (b : RepeatBlock.t) :
  length (RepeatBlock.getExpandedActions b)
  = (Z.to_nat (RepeatBlock.count b)
     * length (flat_map (RepeatBlock.expandItem 0) (RepeatBlock.items b)))%nat.
Proof.
  unfold RepeatBlock.getExpandedActions, RepeatBlock.iterations.
  generalize 0%nat at 1.
  induction (Z.to_nat (RepeatBlock.count b)) as [| n IH]; intros start; simpl.
  - reflexivity.
  - rewrite length_app, IH, (length_pass b (Z.of_nat start) 0). reflexivity.
Qed.

(** C10, as stated, fails where a repeat block or a recursive reference
    expands to nothing.  A queue holding one repeat block with count 2 and no
    items has [totalActions] 1 and an expansion of length 0; a queue holding
    a recursive reference with a pre-action, a post-action and depth 1 next
    to such a block has [totalActions] 2 and an expansion of length 2. *)
Lemma C10_totalActions_counterexample :
  (ActionQueue.objects emptyRepeatQueue !! 0%nat = Some (ObjRepeat (RepeatBlock.new 2))
   /\ RepeatBlock.count (RepeatBlock.new 2) = 2
   /\ ActionQueue.totalActions emptyRepeatQueue = 1
   /\ length (ActionQueue.expandedActions
                (ActionQueue.queue (ActionQueue.expandItems emptyRepeatQueue))) = 0%nat)
  /\ (length (RecursiveGroup.preActions shallowRecursion) = 1%nat
      /\ length (RecursiveGroup.postActions shallowRecursion) = 1%nat
      /\ ActionQueue.totalActions recursionAndEmptyRepeat = 2
      /\ length (ActionQueue.expandedActions
                   (ActionQueue.queue (ActionQueue.expandItems recursionAndEmptyRepeat)))
         = 2%nat).
Proof. repeat split; reflexivity. Qed.

(** C10, amended: [totalActions] is the sum over the items of 1 for a plain
    action, the number of actions of the group for a group reference, and 1
    for a repeat block or a recursive reference, whatever its count or depth;
    the expansion has one step for a plain action, one per action of the
    group for a group reference, [count] times the entries of one pass for a
    repeat block, and the entries of the recursive expansion for a recursive
    reference.  So [totalActions] is at most the length of the expansion
    when every repeat block and recursive reference of the queue expands to
    at least one step, and strictly less when, in addition, one of them
    expands to two steps or more. *)
Theorem C10_totalActions_undercounts (w : ActionQueue.World) :
  ActionQueue.totalActions w
  = sumZ (map (countedAs (ActionQueue.objects w)) (ActionQueue.items (ActionQueue.queue w)))
  /\ length (ActionQueue.expandedActions (ActionQueue.queue (ActionQueue.expandItems w)))
     = fold_right Nat.add 0%nat
         (map (stepsOf (ActionQueue.objects w)) (ActionQueue.items (ActionQueue.queue w)))
  /\ (forall b : RepeatBlock.t,
         length (RepeatBlock.getExpandedActions b)
         = (Z.to_nat (RepeatBlock.count b)
            * length (flat_map (RepeatBlock.expandItem 0) (RepeatBlock.items b)))%nat)
  /\ (Forall (expandsToAtLeast 1 (ActionQueue.objects w))
             (ActionQueue.items (ActionQueue.queue w)) ->
      ActionQueue.totalActions w
      <= Z.of_nat (length (ActionQueue.expandedActions
                             (ActionQueue.queue (ActionQueue.expandItems w)))))
  /\ (Forall (expandsToAtLeast 1 (ActionQueue.objects w))
             (ActionQueue.items (ActionQueue.queue w)) ->
      Exists (expandsToSeveral (ActionQueue.objects w))
             (ActionQueue.items (ActionQueue.queue w)) ->
      ActionQueue.totalActions w
      < Z.of_nat (length (ActionQueue.expandedActions
                            (ActionQueue.queue (ActionQueue.expandItems w))))).
Proof.
  assert (length (ActionQueue.expandedActions (ActionQueue.queue (ActionQueue.expandItems w)))
          = fold_right Nat.add 0%nat
              (map (stepsOf (ActionQueue.objects w))
                   (ActionQueue.items (ActionQueue.queue w)))) as Hlen.
  { unfold ActionQueue.expandItems. simpl. apply length_expansion. }
  split; [apply totalActions_sum |].
  split; [exact Hlen |].
  split; [apply length_repeat_expansion |].
  rewrite Hlen, totalActions_sum.
  split; [apply sum_counted_le | apply sum_counted_lt].
Qed.

(** The queue of scenario B: one repeat block of three passes over one
    action counts as 1 and expands to 3 steps. *)
Lemma C10_totalActions_undercounts_witness :
  ActionQueue.totalActions scenarioB = 1
  /\ length (ActionQueue.expandedActions
               (ActionQueue.queue (ActionQueue.expandItems scenarioB))) = 3%nat
  /\ ActionQueue.totalActions scenarioB
     < Z.of_nat (length (ActionQueue.expandedActions
                           (ActionQueue.queue (ActionQueue.expandItems scenarioB)))).
Proof.
  split; [reflexivity |]. split; [reflexivity |].
  apply (proj2 (proj2 (proj2 (proj2 (C10_totalActions_undercounts scenarioB))))).
  - constructor; [| constructor]. vm_compute. lia.
  - constructor. vm_compute. lia.
Defined.

(** * Further properties of the code *)

(** ** Action: serialization and life cycle *)

(** X1.  [Action.fromJSON] after [toJSON] gives what [clone()] gives: an
    action of the same type and duration that has not been started.  Data
    that carries a duration is written back as read, data without one comes
    back with the configured duration, and the playback state of an action
    never shows in its serialized form. *)
Theorem X1_Action_json_round_trip (a : Action.t) (ty : ActionType) (d : float)
    (op : ActionOp) :
  Action.fromJSON (Action.toJSON a) = Action.clone a
  /\ Action.toJSON (Action.fromJSON (Action.mkData ty (Some d))) = Action.mkData ty (Some d)
  /\ Action.toJSON (Action.fromJSON (Action.mkData ty None))
     = Action.mkData ty (Some CONFIG.actionDuration)
  /\ Action.toJSON (applyActionOp op a) = Action.toJSON a
  /\ Action.toJSON (Action.clone a) = Action.toJSON a.
Proof.
  repeat split; try reflexivity.
  destruct op as [| deltaTime |]; try reflexivity.
  unfold applyActionOp, Action.update.
  destruct (negb (Action.isExecuting a) || Action.isComplete a); [reflexivity |].
  destruct (1 <=? Action.progress a + deltaTime / Action.duration a)%float; reflexivity.
Qed.

(** What every sequence of calls keeps true of an action. *)
Lemma lifecycle_step (op : ActionOp) (a : Action.t) :
  (Action.isComplete a = true ->
   Action.isExecuting a = false /\ Action.progress a = 1%float) ->
  (Action.isExecuting a = false -> Action.isComplete a = false ->
   Action.progress a = 0%float) ->
  Action.type (applyActionOp op a) = Action.type a
  /\ Action.duration (applyActionOp op a) = Action.duration a
  /\ (Action.isComplete (applyActionOp op a) = true ->
      Action.isExecuting (applyActionOp op a) = false
      /\ Action.progress (applyActionOp op a) = 1%float)
  /\ (Action.isExecuting (applyActionOp op a) = false ->
      Action.isComplete (applyActionOp op a) = false ->
      Action.progress (applyActionOp op a) = 0%float).
Proof.
  intros Hc Hi. destruct op as [| deltaTime |]; simpl.
  - repeat split; discriminate.
  - unfold Action.update.
    destruct (Action.isExecuting a) eqn:He, (Action.isComplete a) eqn:Hco; simpl;
      rewrite ?He, ?Hco; try solve [intuition congruence].
    destruct (1 <=? Action.progress a + deltaTime / Action.duration a)%float; simpl;
      rewrite ?He, ?Hco; intuition congruence.
  - repeat split; discriminate.
Qed.

(** X2.  Whatever sequence of [start()], [update(dt)] and [reset()] is
    called on a new action, with whatever frame times: its type and duration
    stay as constructed; when it is complete it is not executing and its
    progress is exactly 1; and when it is neither executing nor complete its
    progress is exactly 0. *)
Theorem X2_Action_lifecycle (ty : ActionType) (d : float) (ops : list ActionOp) :
  Action.type (applyActionOps ops (Action.new ty d)) = ty
  /\ Action.duration (applyActionOps ops (Action.new ty d)) = d
  /\ (Action.isComplete (applyActionOps ops (Action.new ty d)) = true ->
      Action.isExecuting (applyActionOps ops (Action.new ty d)) = false
      /\ Action.progress (applyActionOps ops (Action.new ty d)) = 1%float)
  /\ (Action.isExecuting (applyActionOps ops (Action.new ty d)) = false ->
      Action.isComplete (applyActionOps ops (Action.new ty d)) = false ->
      Action.progress (applyActionOps ops (Action.new ty d)) = 0%float).
Proof.
  unfold applyActionOps.
  assert (H : forall a,
             (Action.isComplete a = true ->
              Action.isExecuting a = false /\ Action.progress a = 1%float) ->
             (Action.isExecuting a = false -> Action.isComplete a = false ->
              Action.progress a = 0%float) ->
             let a' := fold_left (fun a op => applyActionOp op a) ops a in
             Action.type a' = Action.type a
             /\ Action.duration a' = Action.duration a
             /\ (Action.isComplete a' = true ->
                 Action.isExecuting a' = false /\ Action.progress a' = 1%float)
             /\ (Action.isExecuting a' = false -> Action.isComplete a' = false ->
                 Action.progress a' = 0%float)).
  { induction ops as [| op ops IH]; intros a Hc Hi; simpl.
    - auto.
    - destruct (lifecycle_step op a Hc Hi) as (Ht & Hd & Hc' & Hi').
      destruct (IH _ Hc' Hi') as (Ht2 & Hd2 & Hc2 & Hi2).
      rewrite Ht2, Hd2. auto. }
  apply (H (Action.new ty d)); simpl; [discriminate | reflexivity].
Qed.

(** ** ActionGroup: copies, removal, labels *)

Lemma actions_clone (groupCount : nat) (g : ActionGroup.t) :
  ActionGroup.actions (fst (ActionGroup.clone groupCount g))
  = map Action.clone (ActionGroup.actions g).
Proof. rewrite ActionGroup_clone_eq. reflexivity. Qed.

(** X3.  [ActionGroup.clone()] gives the group that
    [new ActionGroup(name + ' copy', color)] makes, filled with [addAction]:
    named after the original with ' copy' appended; of the original's color
    or, if that is empty, of the palette color of the static counter; whose
    actions are fresh clones of the original's in the same order; and the
    static counter has moved by one.  The copy hands out the same actions,
    has the same size and the same compact view. *)
Theorem X3_ActionGroup_clone (groupCount : nat) (g : ActionGroup.t) :
  ActionGroup.clone groupCount g
  = (ActionGroup.mk (ActionGroup.name g +:+ " copy")
       (if decide (ActionGroup.color g = "")
        then nth (groupCount mod 8) GroupColors ""
        else ActionGroup.color g)
       (map (fun a => Action.mk (Action.type a) (Action.duration a) false false 0%float)
            (ActionGroup.actions g)),
     S groupCount)
  /\ ActionGroup.getActions (fst (ActionGroup.clone groupCount g))
     = ActionGroup.getActions g
  /\ ActionGroup.size (fst (ActionGroup.clone groupCount g)) = ActionGroup.size g
  /\ ActionGroup.getCompactView (fst (ActionGroup.clone groupCount g))
     = ActionGroup.getCompactView g.
Proof.
  rewrite ActionGroup_clone_eq.
  split; [reflexivity |].
  unfold ActionGroup.getActions, ActionGroup.size, ActionGroup.getCompactView. simpl.
  split; [apply map_clone_clone |]. split; [rewrite length_map; reflexivity |].
  induction (ActionGroup.actions g) as [| a l IH]; simpl; [reflexivity |].
  rewrite IH. reflexivity.
Qed.

(** X4.  [ActionGroup.fromJSON] after [toJSON]: the group read back holds
    clones of the original's actions in the same order, and the static
    counter has moved by one.  The name and the color come back as they were
    unless they were empty, in which case the constructor's defaults
    ('Block n' for the counter n, the n-th palette color) take their place;
    with a name and a color, serializing the group read back gives the same
    data again. *)
Theorem X4_ActionGroup_json_round_trip (groupCount : nat) (g : ActionGroup.t) :
  ActionGroup.actions (fst (ActionGroup.fromJSON groupCount (ActionGroup.toJSON g)))
  = ActionGroup.getActions g
  /\ snd (ActionGroup.fromJSON groupCount (ActionGroup.toJSON g)) = S groupCount
  /\ ActionGroup.name (fst (ActionGroup.fromJSON groupCount (ActionGroup.toJSON g)))
     = (if decide (ActionGroup.name g = "") then "Block " +:+ pretty groupCount
        else ActionGroup.name g)
  /\ ActionGroup.color (fst (ActionGroup.fromJSON groupCount (ActionGroup.toJSON g)))
     = (if decide (ActionGroup.color g = "")
        then nth (groupCount mod 8) GroupColors ""
        else ActionGroup.color g)
  /\ (ActionGroup.name g <> "" -> ActionGroup.color g <> "" ->
      ActionGroup.toJSON (fst (ActionGroup.fromJSON groupCount (ActionGroup.toJSON g)))
      = ActionGroup.toJSON g).
Proof.
  unfold ActionGroup.fromJSON, ActionGroup.toJSON, ActionGroup.construct,
    ActionGroup.getActions.
  simpl. rewrite map_map.
  repeat split.
  intros Hn Hc.
  destruct (decide (ActionGroup.name g = "")) as [? | _]; [contradiction |].
  destruct (decide (ActionGroup.color g = "")) as [? | _]; [contradiction |].
  rewrite map_map. reflexivity.
Qed.

(** X5.  [removeActionAt(index)] removes exactly one action when the index
    is within the group and nothing otherwise, and it undoes an [addAction]
    when called with the index of the action just added. *)
Theorem X5_ActionGroup_removeActionAt (index : Z) (a : Action.t) (g : ActionGroup.t) :
  ActionGroup.size (ActionGroup.removeActionAt index g)
  = (if (0 <=? index) && (index <? ActionGroup.size g)
     then ActionGroup.size g - 1 else ActionGroup.size g)
  /\ ((index < 0 \/ ActionGroup.size g <= index) -> ActionGroup.removeActionAt index g = g)
  /\ ActionGroup.removeActionAt (ActionGroup.size g) (ActionGroup.addAction a g) = g.
Proof.
  unfold ActionGroup.removeActionAt, ActionGroup.size, ActionGroup.addAction.
  repeat split.
  - destruct ((0 <=? index) && (index <? Z.of_nat (length (ActionGroup.actions g))))
      eqn:Hin; [| reflexivity].
    apply andb_true_iff in Hin as [H0 Hlt]. simpl.
    apply Z.leb_le in H0. apply Z.ltb_lt in Hlt.
    rewrite length_delete by (apply lookup_lt_is_Some_2; lia). lia.
  - intros Hout.
    destruct ((0 <=? index) && (index <? Z.of_nat (length (ActionGroup.actions g))))
      eqn:Hin; [| reflexivity].
    apply andb_true_iff in Hin as [H0 Hlt].
    apply Z.leb_le in H0. apply Z.ltb_lt in Hlt. lia.
  - simpl. rewrite length_app. simpl.
    replace ((0 <=? Z.of_nat (length (ActionGroup.actions g)))
             && (Z.of_nat (length (ActionGroup.actions g))
                 <? Z.of_nat (length (ActionGroup.actions g) + 1))) with true
      by (symmetry; apply andb_true_iff; split; [apply Z.leb_le | apply Z.ltb_lt]; lia).
    rewrite Nat2Z.id.
    replace (delete (length (ActionGroup.actions g))
                    (ActionGroup.actions g ++ [Action.clone a]))
      with (ActionGroup.actions g).
    + destruct g; reflexivity.
    + induction (ActionGroup.actions g) as [| x l IH]; simpl; [reflexivity |].
      f_equal. exact IH.
Qed.

Lemma length_getIcon (a : Action.t) : length (Action.getIcon a) = 1%nat.
Proof. unfold Action.getIcon. destruct (Action.type a); reflexivity. Qed.

Lemma length_getCompactView (g : ActionGroup.t) :
  length (ActionGroup.getCompactView g) = length (ActionGroup.actions g).
Proof.
  unfold ActionGroup.getCompactView.
  induction (ActionGroup.actions g) as [| a l IH]; simpl; [reflexivity |].
  rewrite length_app, length_getIcon, IH. reflexivity.
Qed.

Lemma length_getShortLabel (maxLength : Z) (g : ActionGroup.t) :
  1 <= maxLength ->
  Z.of_nat (length (ActionGroup.getShortLabel maxLength g)) <= maxLength.
Proof.
  intros Hm. unfold ActionGroup.getShortLabel.
  destruct (Z.leb_spec (Z.of_nat (length (ActionGroup.getCompactView g))) maxLength)
    as [Hle | Hgt]; [exact Hle |].
  rewrite length_app, length_take. simpl. lia.
Qed.

(** X6.  Labels fit their slot.  The compact view of a group has one code
    unit per action; [getShortLabel(maxLength)], for a [maxLength] of at
    least 1, never returns more than [maxLength] code units, and returns the
    compact view itself when the group has at most [maxLength] actions; the
    icon of a group reference has at most 3 code units and the icon of a
    repeat block at most 4. *)
Theorem X6_labels_fit (maxLength : Z) (g : ActionGroup.t) (r : GroupReference.t)
    (b : RepeatBlock.t) :
  1 <= maxLength ->
  Z.of_nat (length (ActionGroup.getCompactView g)) = ActionGroup.size g
  /\ Z.of_nat (length (ActionGroup.getShortLabel maxLength g)) <= maxLength
  /\ (ActionGroup.size g <= maxLength ->
      ActionGroup.getShortLabel maxLength g = ActionGroup.getCompactView g)
  /\ (maxLength < ActionGroup.size g ->
      Z.of_nat (length (ActionGroup.getShortLabel maxLength g)) = maxLength)
  /\ (length (GroupReference.getIcon r) <= 3)%nat
  /\ (length (RepeatBlock.getIcon b) <= 4)%nat.
Proof.
  intros Hm. unfold ActionGroup.size.
  split; [rewrite length_getCompactView; reflexivity |].
  split; [apply length_getShortLabel; exact Hm |].
  split; [| split; [| split]].
  - intros Hfit. unfold ActionGroup.getShortLabel.
    rewrite length_getCompactView.
    destruct (Z.leb_spec (Z.of_nat (length (ActionGroup.actions g))) maxLength); [reflexivity | lia].
  - intros Hlong. unfold ActionGroup.getShortLabel.
    rewrite length_getCompactView.
    destruct (Z.leb_spec (Z.of_nat (length (ActionGroup.actions g))) maxLength); [lia |].
    rewrite length_app, length_take, length_getCompactView. simpl. lia.
  - unfold GroupReference.getIcon.
    pose proof (length_getShortLabel 3 (GroupReference.group r)). lia.
  - unfold RepeatBlock.getIcon. rewrite length_app, length_take.
    destruct (3 <? Z.of_nat (length (flat_map RepeatBlock.itemIcon (RepeatBlock.items b))));
      cbn [length]; lia.
Qed.

(** A group of five actions, whose label at length 3 is cut. *)
Lemma X6_labels_fit_witness :
  1 <= 3
  /\ ActionGroup.getShortLabel 3
       (ActionGroup.mk "Block 1" "#4ECDC4"
          [Action.newDefault MOVE_UP; Action.newDefault MOVE_UP;
           Action.newDefault MOVE_RIGHT; Action.newDefault MOVE_DOWN;
           Action.newDefault WAIT])
     = [8593%N; 8593%N; 8230%N]
  /\ Z.of_nat (length (ActionGroup.getShortLabel 3
       (ActionGroup.mk "Block 1" "#4ECDC4"
          [Action.newDefault MOVE_UP; Action.newDefault MOVE_UP;
           Action.newDefault MOVE_RIGHT; Action.newDefault MOVE_DOWN;
           Action.newDefault WAIT]))) <= 3.
Proof.
  split; [lia |]. split; [reflexivity |].
  apply (X6_labels_fit 3
           (ActionGroup.mk "Block 1" "#4ECDC4"
              [Action.newDefault MOVE_UP; Action.newDefault MOVE_UP;
               Action.newDefault MOVE_RIGHT; Action.newDefault MOVE_DOWN;
               Action.newDefault WAIT])
           (GroupReference.new (ActionGroup.mk "" "" []))
           (RepeatBlock.new 2)).
  lia.
Defined.

(** ** RepeatBlock: editing, counting, copying *)

Lemma block_range_step (op : BlockOp) (b : RepeatBlock.t) :
  1 <= RepeatBlock.count b <= MAX_REPETITIONS ->
  Z.of_nat (length (RepeatBlock.items b)) <= MAX_ITEMS_IN_REPEAT ->
  1 <= RepeatBlock.count (applyBlockOp op b) <= MAX_REPETITIONS
  /\ Z.of_nat (length (RepeatBlock.items (applyBlockOp op b))) <= MAX_ITEMS_IN_REPEAT.
Proof.
  unfold MAX_REPETITIONS, MAX_ITEMS_IN_REPEAT. intros Hc Hi.
  destruct op as [n | | | groupCount item]; simpl.
  - unfold RepeatBlock.clampCount, MAX_REPETITIONS. lia.
  - unfold RepeatBlock.increment, MAX_REPETITIONS.
    destruct (Z.ltb_spec (RepeatBlock.count b) 99); simpl; lia.
  - unfold RepeatBlock.decrement.
    destruct (Z.ltb_spec 1 (RepeatBlock.count b)); simpl; lia.
  - destruct (Nat.lt_ge_cases (length (RepeatBlock.items b)) 2) as [Hlt | Hge].
    + rewrite (addItem_room groupCount item b Hlt). simpl. rewrite length_app. simpl. lia.
    + rewrite (addItem_full groupCount item b Hge). simpl. lia.
Qed.

(** X7.  However a repeat block is constructed and then edited with
    [setCount], [increment], [decrement] and [addItem], its count stays
    within 1 and [MAX_REPETITIONS] and it never holds more than
    [MAX_ITEMS_IN_REPEAT] items. *)
Theorem X7_RepeatBlock_edits_in_range (n : Z) (ops : list BlockOp) :
  1 <= RepeatBlock.count (applyBlockOps ops (RepeatBlock.new n)) <= MAX_REPETITIONS
  /\ Z.of_nat (length (RepeatBlock.items (applyBlockOps ops (RepeatBlock.new n))))
     <= MAX_ITEMS_IN_REPEAT.
Proof.
  unfold applyBlockOps.
  assert (H : forall b,
             1 <= RepeatBlock.count b <= MAX_REPETITIONS ->
             Z.of_nat (length (RepeatBlock.items b)) <= MAX_ITEMS_IN_REPEAT ->
             1 <= RepeatBlock.count (fold_left (fun b op => applyBlockOp op b) ops b)
               <= MAX_REPETITIONS
             /\ Z.of_nat (length (RepeatBlock.items
                                    (fold_left (fun b op => applyBlockOp op b) ops b)))
                <= MAX_ITEMS_IN_REPEAT).
  { induction ops as [| op ops IH]; intros b Hc Hi; simpl.
    - auto.
    - destruct (block_range_step op b Hc Hi) as [Hc' Hi']. apply IH; assumption. }
  apply H; simpl.
  - unfold RepeatBlock.clampCount, MAX_REPETITIONS. lia.
  - unfold MAX_ITEMS_IN_REPEAT. lia.
Qed.

Lemma itemSize_length (it : Z) (item : RepeatBlock.Item) :
  RepeatBlock.itemSize item = Z.of_nat (length (RepeatBlock.expandItem it item)).
Proof.
  destruct item as [a | r | g]; simpl.
  - reflexivity.
  - unfold GroupReference.getActions, ActionGroup.getActions, ActionGroup.size.
    rewrite !length_map. reflexivity.
  - unfold ActionGroup.getActions, ActionGroup.size. rewrite !length_map. reflexivity.
Qed.

Lemma itemCount_length (it : Z) (l : list RepeatBlock.Item) :
  forall acc : Z,
    fold_left (fun itemCount item => itemCount + RepeatBlock.itemSize item) l acc
    = acc + Z.of_nat (length (flat_map (RepeatBlock.expandItem it) l)).
Proof.
  induction l as [| item l IH]; intros acc; simpl.
  - lia.
  - rewrite IH, length_app, (itemSize_length it). lia.
Qed.

Lemma count_is_length (b : RepeatBlock.t) :
  0 <= RepeatBlock.count b ->
  RepeatBlock.getTotalActionCount b
  = Z.of_nat (length (RepeatBlock.getExpandedActions b)).
Proof.
  intros Hc. unfold RepeatBlock.getTotalActionCount.
  rewrite (itemCount_length 0), length_repeat_expansion. lia.
Qed.

(** X8.  For a count that is not negative (the constructor and the setters
    keep it at 1 or more), [RepeatBlock.getTotalActionCount()] is the length
    of the array [getExpandedActions()] returns. *)
Theorem X8_RepeatBlock_count_is_length (b : RepeatBlock.t) :
  0 <= RepeatBlock.count b ->
  RepeatBlock.getTotalActionCount b
  = Z.of_nat (length (RepeatBlock.getExpandedActions b)).
Proof.
  apply count_is_length.
Qed.

(** The block of scenario B: three passes over one action. *)
Lemma X8_RepeatBlock_count_is_length_witness :
  0 <= RepeatBlock.count blockB
  /\ RepeatBlock.getTotalActionCount blockB = 3
  /\ RepeatBlock.getTotalActionCount blockB
     = Z.of_nat (length (RepeatBlock.getExpandedActions blockB)).
Proof.
  split; [vm_compute; discriminate |]. split; [reflexivity |].
  apply (X8_RepeatBlock_count_is_length blockB). vm_compute. discriminate.
Defined.









(** X10.  [increment()] and [decrement()] undo each other inside the range
    and stop at its ends: a count at [MAX_REPETITIONS] or above is not
    incremented, a count of 1 or below is not decremented. *)
Theorem X10_RepeatBlock_increment_decrement (b : RepeatBlock.t) :
  (1 <= RepeatBlock.count b < MAX_REPETITIONS ->
   RepeatBlock.decrement (RepeatBlock.increment b) = b)
  /\ (1 < RepeatBlock.count b <= MAX_REPETITIONS ->
      RepeatBlock.increment (RepeatBlock.decrement b) = b)
  /\ (MAX_REPETITIONS <= RepeatBlock.count b -> RepeatBlock.increment b = b)
  /\ (RepeatBlock.count b <= 1 -> RepeatBlock.decrement b = b).
Proof.
  unfold RepeatBlock.increment, RepeatBlock.decrement, MAX_REPETITIONS.
  destruct b as [c its ex co ci cx]; simpl.
  repeat split; intros Hc.
  - destruct (Z.ltb_spec c 99); [| lia]. simpl.
    destruct (Z.ltb_spec 1 (c + 1)); [| lia]. f_equal. lia.
  - destruct (Z.ltb_spec 1 c); [| lia]. simpl.
    destruct (Z.ltb_spec (c - 1) 99); [| lia]. f_equal. lia.
  - destruct (Z.ltb_spec c 99); [lia | reflexivity].
  - destruct (Z.ltb_spec 1 c); [lia | reflexivity].
Qed.

(** ** RecursiveGroup: the shape of the expansion, copies *)

Lemma expandLevels_shape (g : RecursiveGroup.t) (n : nat) :
  forall d : Z,
    Z.of_nat n = RecursiveGroup.maxDepth g - d ->
    RecursiveGroup.expandLevels g n d
    = flat_map (RecursiveGroup.preEntries g) (map (fun k => d + Z.of_nat k) (seq 0 n))
      ++ flat_map (fun k => RecursiveGroup.postEntries g k
                              (k =? RecursiveGroup.maxDepth g - 1))
                  (rev (map (fun k => d + Z.of_nat k) (seq 0 n))).
Proof.
  induction n as [| n IH]; intros d Hn.
  - reflexivity.
  - assert (Hshift : map (fun k => d + Z.of_nat k) (seq 1 n)
                     = map (fun k => d + 1 + Z.of_nat k) (seq 0 n)).
    { rewrite <- seq_shift, map_map. apply map_ext. intros k. lia. }
    cbn [RecursiveGroup.expandLevels seq map].
    destruct (Z.leb_spec (RecursiveGroup.maxDepth g) d) as [Hle | Hgt]; [lia |].
    rewrite Hshift. replace (d + Z.of_nat 0) with d by lia.
    cbn [flat_map rev]. rewrite flat_map_app. cbn [flat_map]. rewrite app_nil_r.
    destruct (Z.eqb_spec d (RecursiveGroup.maxDepth g - 1)) as [Hbase | Hmore].
    + assert (n = 0%nat) by lia. subst n.
      cbn [negb seq map rev flat_map app]. rewrite app_nil_r. reflexivity.
    + cbn [negb]. rewrite (IH (d + 1)) by lia. rewrite <- !app_assoc. reflexivity.
Qed.

Lemma getExpandedActions_shape (g : RecursiveGroup.t) :
  RecursiveGroup.getExpandedActions g 0
  = flat_map (RecursiveGroup.preEntries g) (depths (RecursiveGroup.maxDepth g))
    ++ flat_map (fun k => RecursiveGroup.postEntries g k
                            (k =? RecursiveGroup.maxDepth g - 1))
                (rev (depths (RecursiveGroup.maxDepth g))).
Proof.
  unfold RecursiveGroup.getExpandedActions, depths.
  rewrite Z.sub_0_r.
  destruct (Z.le_gt_cases 0 (RecursiveGroup.maxDepth g)) as [Hpos | Hneg].
  - rewrite expandLevels_shape by lia.
    replace (map (fun k => 0 + Z.of_nat k) (seq 0 (Z.to_nat (RecursiveGroup.maxDepth g))))
      with (map Z.of_nat (seq 0 (Z.to_nat (RecursiveGroup.maxDepth g))))
      by (apply map_ext; intros k; lia).
    reflexivity.
  - replace (Z.to_nat (RecursiveGroup.maxDepth g)) with 0%nat by lia. reflexivity.
Qed.

(** X11.  The expansion of a recursive group is its call phase followed by
    its return phase: the pre-actions of depth 0, then of depth 1, up to depth
    [maxDepth - 1], and then the post-actions from depth [maxDepth - 1] back
    down to depth 0, those of the deepest level being the base case.  (A
    maximum depth that is not positive gives no depth and an empty
    expansion.) *)
Theorem X11_RecursiveGroup_call_then_return (g : RecursiveGroup.t) :
  RecursiveGroup.getExpandedActions g 0
  = flat_map (RecursiveGroup.preEntries g) (depths (RecursiveGroup.maxDepth g))
    ++ flat_map (fun k => RecursiveGroup.postEntries g k
                            (k =? RecursiveGroup.maxDepth g - 1))
                (rev (depths (RecursiveGroup.maxDepth g))).
Proof. apply getExpandedActions_shape. Qed.

Lemma filter_imap_none {A B} (p : B -> bool) (l : list A) :
  forall f : nat -> A -> B,
    (forall i x, p (f i x) = false) -> List.filter p (imap f l) = [].
Proof.
  induction l as [| x l IH]; intros f Hf; simpl; [reflexivity |].
  rewrite Hf. apply IH. intros i y. apply Hf.
Qed.

Lemma filter_flat_map_none {A B} (p : B -> bool) (f : A -> list B) (l : list A) :
  (forall x, In x l -> List.filter p (f x) = []) -> List.filter p (flat_map f l) = [].
Proof.
  induction l as [| x l IH]; intros Hf; simpl; [reflexivity |].
  rewrite List.filter_app, Hf by (left; reflexivity).
  apply IH. intros y Hy. apply Hf. right. exact Hy.
Qed.

Lemma filter_base_pre (g : RecursiveGroup.t) (d : Z) :
  List.filter RecursiveGroup.isBaseCase (RecursiveGroup.preEntries g d) = [].
Proof. apply filter_imap_none. reflexivity. Qed.

Lemma filter_base_post_inner (g : RecursiveGroup.t) (d : Z) :
  List.filter RecursiveGroup.isBaseCase (RecursiveGroup.postEntries g d false) = [].
Proof. apply filter_imap_none. reflexivity. Qed.

Lemma filter_base_post_deepest (g : RecursiveGroup.t) (d : Z) :
  List.filter RecursiveGroup.isBaseCase (RecursiveGroup.postEntries g d true)
  = match RecursiveGroup.postActions g with
    | a :: _ =>
        [RecursiveGroup.mkEntry (Action.clone a) d post 0 true false
           (0 =? Z.of_nat (length (RecursiveGroup.postActions g)) - 1)]
    | [] => []
    end.
Proof.
  unfold RecursiveGroup.postEntries.
  generalize (length (RecursiveGroup.postActions g)). intros len.
  destruct (RecursiveGroup.postActions g) as [| a l]; [reflexivity |].
  cbn [imap List.filter RecursiveGroup.isBaseCase andb Z.of_nat Z.eqb].
  f_equal. apply filter_imap_none. intros i x. reflexivity.
Qed.

(** X12.  The entries of an expansion marked as base case: none among the
    pre-actions; exactly one when the group has a post-action and a maximum
    depth of 1 or more, namely the first post-action at depth
    [maxDepth - 1]; and none at all for a group without post-actions. *)
Theorem X12_RecursiveGroup_base_case (g : RecursiveGroup.t) :
  List.filter RecursiveGroup.isBaseCase (RecursiveGroup.getExpandedActions g 0)
  = match RecursiveGroup.postActions g with
    | a :: _ =>
        if 1 <=? RecursiveGroup.maxDepth g
        then [RecursiveGroup.mkEntry (Action.clone a) (RecursiveGroup.maxDepth g - 1) post 0
                true false (0 =? Z.of_nat (length (RecursiveGroup.postActions g)) - 1)]
        else []
    | [] => []
    end.
Proof.
  rewrite getExpandedActions_shape, List.filter_app.
  rewrite filter_flat_map_none by (intros k _; apply filter_base_pre).
  cbn [app]. unfold depths.
  destruct (Z.leb_spec 1 (RecursiveGroup.maxDepth g)) as [Hpos | Hnone].
  - destruct (Z.to_nat (RecursiveGroup.maxDepth g)) as [| m] eqn:Hm; [lia |].
    rewrite seq_S, map_app, rev_app_distr. cbn [map rev app flat_map Nat.add].
    rewrite List.filter_app.
    replace (Z.of_nat m) with (RecursiveGroup.maxDepth g - 1) by lia.
    rewrite Z.eqb_refl, filter_base_post_deepest.
    rewrite filter_flat_map_none.
    + rewrite app_nil_r. reflexivity.
    + intros k Hk. apply in_rev, in_map_iff in Hk as (j & <- & Hj).
      apply in_seq in Hj.
      destruct (Z.eqb_spec (Z.of_nat j) (RecursiveGroup.maxDepth g - 1)); [lia |].
      apply filter_base_post_inner.
  - replace (Z.to_nat (RecursiveGroup.maxDepth g)) with 0%nat by lia.
    destruct (RecursiveGroup.postActions g); reflexivity.
Qed.

Lemma imap_map_clone {B} (l : list Action.t) :
  forall f : nat -> Action.t -> B,
    imap (fun i a => f i (Action.clone a)) l = imap f (map Action.clone l).
Proof.
  induction l as [| a l IH]; intros f; simpl; [reflexivity |].
  f_equal. apply (IH (f ∘ S)).
Qed.

Lemma preEntries_ext (g g' : RecursiveGroup.t) (d : Z) :
  map Action.clone (RecursiveGroup.preActions g')
  = map Action.clone (RecursiveGroup.preActions g) ->
  RecursiveGroup.preEntries g' d = RecursiveGroup.preEntries g d.
Proof.
  intros H. unfold RecursiveGroup.preEntries.
  rewrite (imap_map_clone (RecursiveGroup.preActions g')
             (fun index c => RecursiveGroup.mkEntry c d pre (Z.of_nat index) false
                                                    (Z.of_nat index =? 0) false)).
  rewrite H, <- imap_map_clone. reflexivity.
Qed.

Lemma postEntries_ext (g g' : RecursiveGroup.t) (d : Z) (isBase : bool) :
  map Action.clone (RecursiveGroup.postActions g')
  = map Action.clone (RecursiveGroup.postActions g) ->
  RecursiveGroup.postEntries g' d isBase = RecursiveGroup.postEntries g d isBase.
Proof.
  intros H. unfold RecursiveGroup.postEntries.
  assert (Hlen : length (RecursiveGroup.postActions g')
                 = length (RecursiveGroup.postActions g)).
  { rewrite <- (length_map Action.clone (RecursiveGroup.postActions g')), H.
    apply length_map. }
  rewrite Hlen.
  rewrite (imap_map_clone (RecursiveGroup.postActions g')
             (fun index c =>
                RecursiveGroup.mkEntry c d post (Z.of_nat index)
                  (isBase && (Z.of_nat index =? 0)) false
                  (Z.of_nat index =? Z.of_nat (length (RecursiveGroup.postActions g)) - 1))).
  rewrite H, <- imap_map_clone. reflexivity.
Qed.

(** Two groups with the same maximum depth whose actions have the same
    clones expand alike. *)
Lemma getExpandedActions_ext (g g' : RecursiveGroup.t) :
  RecursiveGroup.maxDepth g' = RecursiveGroup.maxDepth g ->
  map Action.clone (RecursiveGroup.preActions g')
  = map Action.clone (RecursiveGroup.preActions g) ->
  map Action.clone (RecursiveGroup.postActions g')
  = map Action.clone (RecursiveGroup.postActions g) ->
  forall d, RecursiveGroup.getExpandedActions g' d = RecursiveGroup.getExpandedActions g d.
Proof.
  intros Hd Hpre Hpost d. unfold RecursiveGroup.getExpandedActions. rewrite Hd.
  generalize (Z.to_nat (RecursiveGroup.maxDepth g - d)). intros n. revert d.
  induction n as [| n IH]; intros d; simpl; [reflexivity |].
  rewrite Hd, (preEntries_ext g g' d Hpre), (postEntries_ext g g' d _ Hpost), IH.
  reflexivity.
Qed.




(** ** Game: editing the depth and the count *)

Lemma nextInCycle_depth (d : Z) :
  Game.nextInCycle [2; 3; 4; 5] d = Some (if (2 <=? d) && (d <=? 4) then d + 1 else 2).
Proof.
  unfold Game.nextInCycle. cbn [Game.indexOf].
  destruct (Z.eqb_spec 2 d) as [<- | H2]; [reflexivity |].
  destruct (Z.eqb_spec 3 d) as [<- | H3]; [reflexivity |].
  destruct (Z.eqb_spec 4 d) as [<- | H4]; [reflexivity |].
  destruct (Z.eqb_spec 5 d) as [<- | H5]; [reflexivity |].
  cbn. destruct (Z.leb_spec 2 d), (Z.leb_spec d 4); cbn; try reflexivity. lia.
Qed.

Lemma nextInCycle_count (n : Z) :
  Game.nextInCycle [2; 3; 4; 5; 10] n
  = Some (if (2 <=? n) && (n <=? 4) then n + 1 else if n =? 5 then 10 else 2).
Proof.
  unfold Game.nextInCycle. cbn [Game.indexOf].
  destruct (Z.eqb_spec 2 n) as [<- | H2]; [reflexivity |].
  destruct (Z.eqb_spec 3 n) as [<- | H3]; [reflexivity |].
  destruct (Z.eqb_spec 4 n) as [<- | H4]; [reflexivity |].
  destruct (Z.eqb_spec 5 n) as [<- | H5]; [reflexivity |].
  destruct (Z.eqb_spec 10 n) as [<- | H10]; [reflexivity |].
  cbn. destruct (Z.leb_spec 2 n), (Z.leb_spec n 4); cbn; try lia;
    destruct (Z.eqb_spec n 5); try reflexivity; lia.
Qed.

(** X15.  [Game.cycleRecursionDepth] sets the maximum depth of the group to
    the value after the current one in 2, 3, 4, 5, and to 2 from 5 and from
    every depth outside the list (1 included): the new depth is always
    within 2 and 5, the actions of the group are untouched, and four calls
    bring a depth within 2 and 5 back to itself. *)
Theorem X15_Game_cycleRecursionDepth (g : RecursiveGroup.t) :
  RecursiveGroup.maxDepth (Game.cycleRecursionDepth g)
  = (if (2 <=? RecursiveGroup.maxDepth g) && (RecursiveGroup.maxDepth g <=? 4)
     then RecursiveGroup.maxDepth g + 1 else 2)
  /\ 2 <= RecursiveGroup.maxDepth (Game.cycleRecursionDepth g) <= MAX_RECURSION_DEPTH
  /\ RecursiveGroup.preActions (Game.cycleRecursionDepth g) = RecursiveGroup.preActions g
  /\ RecursiveGroup.postActions (Game.cycleRecursionDepth g) = RecursiveGroup.postActions g
  /\ (2 <= RecursiveGroup.maxDepth g <= 5 ->
      Game.cycleRecursionDepth
        (Game.cycleRecursionDepth (Game.cycleRecursionDepth (Game.cycleRecursionDepth g)))
      = g).
Proof.
  assert (Hstep : forall g,
             Game.cycleRecursionDepth g
             = RecursiveGroup.setMaxDepth
                 (if (2 <=? RecursiveGroup.maxDepth g) && (RecursiveGroup.maxDepth g <=? 4)
                  then RecursiveGroup.maxDepth g + 1 else 2) g).
  { intros g0. unfold Game.cycleRecursionDepth. rewrite nextInCycle_depth. reflexivity. }
  assert (Hdepth : forall g,
             RecursiveGroup.maxDepth (Game.cycleRecursionDepth g)
             = (if (2 <=? RecursiveGroup.maxDepth g) && (RecursiveGroup.maxDepth g <=? 4)
                then RecursiveGroup.maxDepth g + 1 else 2)).
  { intros g0. rewrite Hstep. unfold RecursiveGroup.setMaxDepth, MAX_RECURSION_DEPTH. cbn.
    destruct (Z.leb_spec 2 (RecursiveGroup.maxDepth g0)),
      (Z.leb_spec (RecursiveGroup.maxDepth g0) 4); cbn; lia. }
  split; [apply Hdepth |].
  split; [rewrite Hdepth; unfold MAX_RECURSION_DEPTH;
          destruct (Z.leb_spec 2 (RecursiveGroup.maxDepth g)),
            (Z.leb_spec (RecursiveGroup.maxDepth g) 4); cbn; lia |].
  split; [rewrite Hstep; reflexivity |].
  split; [rewrite Hstep; reflexivity |].
  intros Hin. destruct g as [nm col pr po md cd co ex]. cbn in Hin.
  assert (Hcases : md = 2 \/ md = 3 \/ md = 4 \/ md = 5) by lia.
  destruct Hcases as [-> | [-> | [-> | ->]]]; reflexivity.
Qed.

(** X16.  [Game.editRepeatCount] sets the count of the block to the value
    after the current one in 2, 3, 4, 5, 10, and to 2 from 10 and from every
    count outside the list: the new count is one of the five, the items of
    the block are untouched, and five calls bring a count of the list back
    to itself. *)
Theorem X16_Game_editRepeatCount (b : RepeatBlock.t) :
  RepeatBlock.count (Game.editRepeatCount b)
  = (if (2 <=? RepeatBlock.count b) && (RepeatBlock.count b <=? 4)
     then RepeatBlock.count b + 1
     else if RepeatBlock.count b =? 5 then 10 else 2)
  /\ In (RepeatBlock.count (Game.editRepeatCount b)) [2; 3; 4; 5; 10]
  /\ RepeatBlock.items (Game.editRepeatCount b) = RepeatBlock.items b
  /\ (In (RepeatBlock.count b) [2; 3; 4; 5; 10] ->
      Game.editRepeatCount
        (Game.editRepeatCount
           (Game.editRepeatCount (Game.editRepeatCount (Game.editRepeatCount b))))
      = b).
Proof.
  assert (Hstep : forall b,
             Game.editRepeatCount b
             = RepeatBlock.setCount
                 (if (2 <=? RepeatBlock.count b) && (RepeatBlock.count b <=? 4)
                  then RepeatBlock.count b + 1
                  else if RepeatBlock.count b =? 5 then 10 else 2) b).
  { intros b0. unfold Game.editRepeatCount. rewrite nextInCycle_count. reflexivity. }
  assert (Hcount : RepeatBlock.count (Game.editRepeatCount b)
                   = (if (2 <=? RepeatBlock.count b) && (RepeatBlock.count b <=? 4)
                      then RepeatBlock.count b + 1
                      else if RepeatBlock.count b =? 5 then 10 else 2)).
  { rewrite Hstep. unfold RepeatBlock.setCount, RepeatBlock.clampCount, MAX_REPETITIONS. cbn.
    destruct (Z.leb_spec 2 (RepeatBlock.count b)), (Z.leb_spec (RepeatBlock.count b) 4);
      cbn; try lia; destruct (Z.eqb_spec (RepeatBlock.count b) 5); lia. }
  split; [exact Hcount |].
  split.
  { rewrite Hcount. cbn [In].
    destruct (Z.leb_spec 2 (RepeatBlock.count b)), (Z.leb_spec (RepeatBlock.count b) 4);
      cbn; try lia; destruct (Z.eqb_spec (RepeatBlock.count b) 5); lia. }
  split; [rewrite Hstep; reflexivity |].
  intros Hin. destruct b as [c its ex co ci cx]. cbn in Hin.
  destruct Hin as [<- | [<- | [<- | [<- | [<- | []]]]]]; reflexivity.
Qed.

(** X17.  [Game.changeRecursionDepth(delta)] does nothing without a group
    being built; otherwise it moves the maximum depth by [delta] and keeps it
    within 1 and [MAX_RECURSION_DEPTH], touching nothing else: from a depth
    in range, +1 and then -1 give the depth back unless it was at the upper
    end, where +1 changes nothing. *)
Theorem X17_Game_changeRecursionDepth (delta : Z) (g : RecursiveGroup.t) :
  Game.changeRecursionDepth delta None = None
  /\ Game.changeRecursionDepth delta (Some g)
     = Some (RecursiveGroup.setMaxDepth (RecursiveGroup.maxDepth g + delta) g)
  /\ (1 <= RecursiveGroup.maxDepth g < MAX_RECURSION_DEPTH ->
      Game.changeRecursionDepth (-1) (Game.changeRecursionDepth 1 (Some g)) = Some g)
  /\ (RecursiveGroup.maxDepth g = MAX_RECURSION_DEPTH ->
      Game.changeRecursionDepth 1 (Some g) = Some g)
  /\ (RecursiveGroup.maxDepth g = 1 ->
      Game.changeRecursionDepth (-1) (Some g) = Some g).
Proof.
  unfold Game.changeRecursionDepth, RecursiveGroup.setMaxDepth, MAX_RECURSION_DEPTH.
  destruct g as [nm col pr po md cd co ex]. cbn.
  split; [reflexivity |].
  split; [do 2 f_equal; lia |].
  split; [| split]; intros Hd; do 2 f_equal; lia.
Qed.

(** ** What playback keeps, and what it reports *)

Lemma emits_same_fired (w w' : ActionQueue.World) :
  ActionQueue.fired w' = ActionQueue.fired w -> emits 0 0 w w'.
Proof.
  intros H. exists []. rewrite H, app_nil_r. repeat split.
Qed.

Lemma emits_refl (w : ActionQueue.World) : emits 0 0 w w.
Proof. apply emits_same_fired. reflexivity. Qed.

Lemma emits_trans (n1 m1 n2 m2 : nat) (w1 w2 w3 : ActionQueue.World) :
  emits n1 m1 w1 w2 -> emits n2 m2 w2 w3 -> emits (n1 + n2) (m1 + m2) w1 w3.
Proof.
  intros (es1 & Hf1 & Ha1 & Hq1) (es2 & Hf2 & Ha2 & Hq2).
  exists (es1 ++ es2). split; [| split].
  - rewrite Hf2, Hf1. symmetry. apply app_assoc.
  - rewrite List.filter_app, length_app, Ha1, Ha2. reflexivity.
  - rewrite List.filter_app, length_app, Hq1, Hq2. reflexivity.
Qed.

Lemma emits_fire (e : Event) (w : ActionQueue.World) :
  emits (if isActionComplete e then 1 else 0) (if isQueueComplete e then 1 else 0)
        w (ActionQueue.fire e w).
Proof.
  exists [e]. split; [reflexivity |]. simpl.
  destruct (isActionComplete e), (isQueueComplete e); split; reflexivity.
Qed.

Lemma kept_refl (w : ActionQueue.World) : kept w w.
Proof.
  split; try reflexivity; [apply settled_refl |].
  intros l a H. exists a. auto.
Qed.

Lemma kept_trans (w1 w2 w3 : ActionQueue.World) : kept w1 w2 -> kept w2 w3 -> kept w1 w3.
Proof.
  intros [Hs1 Hi1 Hm1 Hc1 Ha1] [Hs2 Hi2 Hm2 Hc2 Ha2].
  split; try congruence.
  - eapply settled_trans; eassumption.
  - intros l a H. destruct (Ha1 l a H) as (a1 & H1 & Ht1 & Hd1).
    destruct (Ha2 l a1 H1) as (a2 & H2 & Ht2 & Hd2).
    exists a2. split; [exact H2 |]. split; congruence.
Qed.

Lemma kept_fire (e : Event) (w : ActionQueue.World) : kept w (ActionQueue.fire e w).
Proof.
  split; try reflexivity; [apply settled_fire |].
  intros l a H. exists a. auto.
Qed.

Lemma kept_onObject (l : loc) (f : Obj -> Obj) (w : ActionQueue.World) :
  (forall a, exists a', f (ObjAction a) = ObjAction a'
                        /\ Action.type a' = Action.type a
                        /\ Action.duration a' = Action.duration a) ->
  kept w (ActionQueue.onObject l f w).
Proof.
  intros Hf. split; try reflexivity.
  - apply steady_onObject. intros a. destruct (Hf a) as (a' & H & _). eauto.
  - intros l' a H. simpl.
    destruct (Nat.eq_dec l l') as [-> | Hne].
    + rewrite list_lookup_alter_eq, H. simpl. destruct (Hf a) as (a' & -> & Ht & Hd). eauto.
    + rewrite list_lookup_alter_ne by exact Hne. eauto.
Qed.

Lemma kept_writeAction (info : ActionQueue.ExpandedStep) (a0 a : Action.t)
    (w : ActionQueue.World) :
  ActionQueue.readAction w (ActionQueue.action info) = Some a0 ->
  Action.type a = Action.type a0 ->
  Action.duration a = Action.duration a0 ->
  kept w (ActionQueue.writeAction (ActionQueue.expandedIndex (ActionQueue.queue w)) info a w).
Proof.
  intros Hread Ht Hd. split; [apply steady_writeAction | | | |];
    unfold ActionQueue.writeAction, ActionQueue.readAction in *;
    destruct (ActionQueue.action info) as [l | a1]; try reflexivity.
  - intros l' a' H. simpl.
    destruct (ActionQueue.objects w !! l) as [[a2 | | |] |] eqn:Hl; try discriminate.
    injection Hread as ->.
    destruct (Nat.eq_dec l l') as [-> | Hne].
    + rewrite list_lookup_alter_eq, Hl. simpl. exists a.
      rewrite H in Hl. injection Hl as ->. auto.
    + rewrite list_lookup_alter_ne by exact Hne. eauto.
  - intros l' a' H. exists a'. auto.
Qed.

Lemma calm_refl (w : ActionQueue.World) : calm w w.
Proof. split; [apply kept_refl | apply emits_refl]. Qed.

Lemma calm_trans (w1 w2 w3 : ActionQueue.World) : calm w1 w2 -> calm w2 w3 -> calm w1 w3.
Proof.
  intros (Hk1 & He1) (Hk2 & He2). split.
  - eapply kept_trans; eassumption.
  - apply (emits_trans 0 0 0 0 w1 w2 w3 He1 He2).
Qed.

Lemma calm_fire (e : Event) (w : ActionQueue.World) :
  isActionComplete e = false -> isQueueComplete e = false ->
  calm w (ActionQueue.fire e w).
Proof.
  intros Ha Hq. split; [apply kept_fire |].
  pose proof (emits_fire e w) as H. rewrite Ha, Hq in H. exact H.
Qed.

Lemma calm_onObject (l : loc) (f : Obj -> Obj) (w : ActionQueue.World) :
  (forall a, exists a', f (ObjAction a) = ObjAction a'
                        /\ Action.type a' = Action.type a
                        /\ Action.duration a' = Action.duration a) ->
  calm w (ActionQueue.onObject l f w).
Proof.
  intros Hf. split; [apply kept_onObject, Hf | apply emits_same_fired; reflexivity].
Qed.

Lemma calm_setExecuting (l : loc) (v : bool) (w : ActionQueue.World) :
  calm w (ActionQueue.onObject l (Obj.setExecuting v) w).
Proof. apply calm_onObject. intros a. simpl. eauto. Qed.

Lemma calm_setComplete (l : loc) (v : bool) (w : ActionQueue.World) :
  calm w (ActionQueue.onObject l (Obj.setComplete v) w).
Proof. apply calm_onObject. intros a. simpl. eauto. Qed.

Lemma calm_when (c : bool) (f : ActionQueue.World -> ActionQueue.World)
    (w : ActionQueue.World) :
  (forall w0, calm w0 (f w0)) -> calm w (ActionQueue.when c f w).
Proof. intros Hf. destruct c; simpl; [apply Hf | apply calm_refl]. Qed.

Lemma calm_withRef (flag : bool) (ref : option loc)
    (f : loc -> ActionQueue.World -> ActionQueue.World) (w : ActionQueue.World) :
  (forall l w0, calm w0 (f l w0)) -> calm w (ActionQueue.withRef flag ref f w).
Proof.
  intros Hf. destruct ref as [l |]; simpl; [| apply calm_refl].
  apply calm_when. apply Hf.
Qed.

Lemma calm_markComplete (l : loc) (w : ActionQueue.World) :
  calm w (ActionQueue.markComplete l w).
Proof.
  unfold ActionQueue.markComplete.
  eapply calm_trans; [apply calm_setComplete | apply calm_setExecuting].
Qed.

Lemma calm_executing_fire (l : loc) (e : Event) (w : ActionQueue.World) :
  isActionComplete e = false -> isQueueComplete e = false ->
  calm w (ActionQueue.fire e (ActionQueue.onObject l (Obj.setExecuting true) w)).
Proof.
  intros Ha Hq. eapply calm_trans; [apply calm_setExecuting | apply calm_fire; assumption].
Qed.

Lemma calm_complete_fire (l : loc) (e : Event) (w : ActionQueue.World) :
  isActionComplete e = false -> isQueueComplete e = false ->
  calm w (ActionQueue.fire e (ActionQueue.markComplete l w)).
Proof.
  intros Ha Hq. eapply calm_trans; [apply calm_markComplete | apply calm_fire; assumption].
Qed.

Lemma calm_writeAction (info : ActionQueue.ExpandedStep) (a0 a : Action.t)
    (w : ActionQueue.World) :
  ActionQueue.readAction w (ActionQueue.action info) = Some a0 ->
  Action.type a = Action.type a0 ->
  Action.duration a = Action.duration a0 ->
  calm w (ActionQueue.writeAction (ActionQueue.expandedIndex (ActionQueue.queue w)) info a w).
Proof.
  intros Hread Ht Hd. split; [apply (kept_writeAction info a0); assumption |].
  apply emits_same_fired. unfold ActionQueue.writeAction.
  destruct (ActionQueue.action info); reflexivity.
Qed.

Lemma calm_notifyChange (w : ActionQueue.World) : calm w (ActionQueue.notifyChange w).
Proof. unfold ActionQueue.notifyChange. apply calm_fire; reflexivity. Qed.

(** Peels the outermost operation off the world on the right. *)
Ltac calm_peel :=
  eapply calm_trans;
  [| solve [ apply calm_fire; reflexivity
           | apply calm_withRef; intros;
             first [ apply calm_executing_fire; reflexivity
                   | apply calm_complete_fire; reflexivity
                   | apply calm_fire; reflexivity ]
           | apply calm_when; intros; apply calm_fire; reflexivity ]].

Lemma calm_closeStep (info : ActionQueue.ExpandedStep) (w : ActionQueue.World) :
  calm w (ActionQueue.closeStep info w).
Proof.
  unfold ActionQueue.closeStep. cbv zeta.
  do 2 calm_peel.
  apply calm_withRef. intros l w0.
  apply calm_when. intros w1. apply calm_complete_fire; reflexivity.
Qed.

Lemma calm_openStep (info : ActionQueue.ExpandedStep) (w : ActionQueue.World) :
  calm w (ActionQueue.openStep info w).
Proof.
  unfold ActionQueue.openStep.
  destruct (ActionQueue.readAction w (ActionQueue.action info)) as [a |] eqn:Hread;
    [| apply calm_refl].
  cbv zeta. do 6 calm_peel. apply (calm_writeAction info a); auto.
Qed.

Lemma update_keeps_type (deltaTime : float) (a : Action.t) :
  Action.type (fst (Action.update deltaTime a)) = Action.type a
  /\ Action.duration (fst (Action.update deltaTime a)) = Action.duration a.
Proof.
  unfold Action.update.
  destruct (negb (Action.isExecuting a) || Action.isComplete a); [auto |].
  destruct (1 <=? Action.progress a + deltaTime / Action.duration a)%float; auto.
Qed.

(** The stages of an update that completes an action, one by one. *)
Section UpdateStages.

Variables (deltaTime : float) (w : ActionQueue.World).
Variables (info : ActionQueue.ExpandedStep) (a : Action.t).
Hypothesis Hread : ActionQueue.readAction w (ActionQueue.action info) = Some a.

Lemma kept_closed :
  kept w (ActionQueue.closeStep info (reported deltaTime w info a)).
Proof.
  destruct (update_keeps_type deltaTime a) as [Ht Hd].
  eapply kept_trans; [| apply (proj1 (calm_closeStep info _))].
  unfold reported.
  eapply kept_trans; [| apply kept_fire].
  apply (kept_writeAction info a); assumption.
Qed.

Lemma emits_closed :
  emits 1 0 w (ActionQueue.closeStep info (reported deltaTime w info a)).
Proof.
  destruct (update_keeps_type deltaTime a) as [Ht Hd].
  eapply (emits_trans 1 0 0 0); [| apply (proj2 (calm_closeStep info _))].
  unfold reported.
  eapply (emits_trans 0 0 1 0); [| apply emits_fire].
  apply (calm_writeAction info a); assumption.
Qed.

End UpdateStages.

Lemma queue_notifyChange (w : ActionQueue.World) :
  ActionQueue.queue (ActionQueue.notifyChange w) = ActionQueue.queue w.
Proof. reflexivity. Qed.

Lemma enterNext_items (w : ActionQueue.World) :
  ActionQueue.items (ActionQueue.queue (enterNext w))
  = ActionQueue.items (ActionQueue.queue w).
Proof.
  unfold enterNext.
  destruct (ActionQueue.getCurrentItemInfo (ActionQueue.queue w)) as [next |];
    [| reflexivity].
  destruct (calm_openStep next w) as [[_ Hi _ _ _] _]. exact Hi.
Qed.

Lemma enterNext_maxSize (w : ActionQueue.World) :
  ActionQueue.maxSize (ActionQueue.queue (enterNext w))
  = ActionQueue.maxSize (ActionQueue.queue w).
Proof.
  unfold enterNext.
  destruct (ActionQueue.getCurrentItemInfo (ActionQueue.queue w)) as [next |];
    [| reflexivity].
  destruct (calm_openStep next w) as [[_ _ Hm _ _] _]. exact Hm.
Qed.

(** No method of playback changes the items or the capacity. *)
Lemma update_items (deltaTime : float) (w : ActionQueue.World) :
  ActionQueue.items (ActionQueue.queue (fst (ActionQueue.update deltaTime w)))
  = ActionQueue.items (ActionQueue.queue w)
  /\ ActionQueue.maxSize (ActionQueue.queue (fst (ActionQueue.update deltaTime w)))
     = ActionQueue.maxSize (ActionQueue.queue w).
Proof.
  destruct (update_cases deltaTime w)
    as [-> | [(Hs & Hnone & ->) | (info & a & Hs & Hinfo & Ha & [(Hc & ->) | (Hc & ->)])]].
  - auto.
  - auto.
  - destruct (update_keeps_type deltaTime a) as [Ht Hd].
    destruct (kept_writeAction info a (fst (Action.update deltaTime a)) w Ha Ht Hd).
    auto.
  - destruct (kept_closed deltaTime w info a Ha) as [_ Hi Hm _ _].
    fold (moved deltaTime w info a).
    assert (Hmoved : ActionQueue.items (ActionQueue.queue (moved deltaTime w info a))
                     = ActionQueue.items (ActionQueue.queue w)
                     /\ ActionQueue.maxSize (ActionQueue.queue (moved deltaTime w info a))
                        = ActionQueue.maxSize (ActionQueue.queue w)).
    { unfold moved. simpl. auto. }
    destruct Hmoved as [Hi4 Hm4].
    rewrite queue_notifyChange, enterNext_items, enterNext_maxSize. auto.
Qed.

Lemma start_items (w : ActionQueue.World) :
  ActionQueue.items (ActionQueue.queue (ActionQueue.start w))
  = ActionQueue.items (ActionQueue.queue w)
  /\ ActionQueue.maxSize (ActionQueue.queue (ActionQueue.start w))
     = ActionQueue.maxSize (ActionQueue.queue w).
Proof.
  unfold ActionQueue.start.
  destruct (Z.of_nat (length (ActionQueue.items (ActionQueue.queue w))) =? 0); [auto |].
  cbv zeta.
  set (w0 := ActionQueue.when _ ActionQueue.reset w).
  assert (H0 : ActionQueue.items (ActionQueue.queue w0)
               = ActionQueue.items (ActionQueue.queue w)
               /\ ActionQueue.maxSize (ActionQueue.queue w0)
                  = ActionQueue.maxSize (ActionQueue.queue w)).
  { subst w0. destruct (QueueState_eqb _ _); simpl; auto. }
  destruct H0 as [Hi0 Hm0].
  destruct (Z.of_nat (length (ActionQueue.expandedActions
                                (ActionQueue.queue (ActionQueue.expandItems w0)))) =? 0).
  { simpl. auto. }
  set (w1 := ActionQueue.onQueue (ActionQueue.setState RUNNING) (ActionQueue.expandItems w0)).
  rewrite queue_notifyChange.
  destruct (ActionQueue.getCurrentItemInfo (ActionQueue.queue w1)) as [currentInfo |].
  - destruct (calm_openStep currentInfo w1) as [[_ Hi Hm _ _] _].
    rewrite Hi, Hm. subst w1. simpl. auto.
  - subst w1. simpl. auto.
Qed.

(** ** ActionQueue: capacity *)

Lemma add_capacity (size : Z) (item : loc) (w : ActionQueue.World) :
  withinCapacity size w -> withinCapacity size (fst (ActionQueue.add item w)).
Proof.
  unfold withinCapacity, ActionQueue.add. intros [Hm Hl].
  destruct (Z.leb_spec (ActionQueue.maxSize (ActionQueue.queue w))
              (Z.of_nat (length (ActionQueue.items (ActionQueue.queue w)))));
    [auto |].
  destruct (QueueState_eqb _ _); [auto |].
  simpl. rewrite length_app. simpl. lia.
Qed.

Lemma removeAt_capacity (size : Z) (index : Z) (w : ActionQueue.World) :
  withinCapacity size w -> withinCapacity size (fst (ActionQueue.removeAt index w)).
Proof.
  unfold withinCapacity, ActionQueue.removeAt. intros [Hm Hl].
  destruct (QueueState_eqb _ _); [auto |].
  destruct (_ || _) eqn:Hout; [auto |].
  apply orb_false_iff in Hout as [H0 Hlt].
  apply Z.ltb_ge in H0. apply Z.leb_gt in Hlt.
  simpl. rewrite length_delete by (apply lookup_lt_is_Some_2; lia). lia.
Qed.

Lemma clear_capacity (size : Z) (w : ActionQueue.World) :
  withinCapacity size w -> withinCapacity size (ActionQueue.clear w).
Proof.
  unfold withinCapacity. intros [Hm Hl]. rewrite clear_queue. simpl. lia.
Qed.

Lemma fromJSON_capacity (size : Z) (data : list Action.Data) (w : ActionQueue.World) :
  withinCapacity size w -> withinCapacity size (ActionQueue.fromJSON data w).
Proof.
  intros Hw. unfold ActionQueue.fromJSON.
  apply clear_capacity in Hw. revert Hw. generalize (ActionQueue.clear w).
  induction data as [| d data IH]; intros w0 Hw0; simpl; [exact Hw0 |].
  apply IH. apply add_capacity. exact Hw0.
Qed.

Lemma step_capacity (size : Z) (op : Op) (w : ActionQueue.World) :
  withinCapacity size w -> withinCapacity size (step op w).
Proof.
  intros Hw. destruct op; simpl.
  - unfold withinCapacity in *. destruct (start_items w) as [-> ->]. exact Hw.
  - unfold withinCapacity in *. destruct (update_items deltaTime w) as [-> ->]. exact Hw.
  - unfold ActionQueue.pause, ActionQueue.when. destruct (QueueState_eqb _ _); exact Hw.
  - unfold ActionQueue.resume, ActionQueue.when. destruct (QueueState_eqb _ _); exact Hw.
  - exact Hw.
  - exact Hw.
  - apply clear_capacity. exact Hw.
  - apply add_capacity. exact Hw.
  - apply removeAt_capacity. exact Hw.
Qed.

Lemma call_capacity (size : Z) (c : Call) (w : ActionQueue.World) :
  withinCapacity size w -> withinCapacity size (call c w).
Proof.
  intros Hw. destruct c; simpl.
  - apply step_capacity. exact Hw.
  - apply add_capacity. exact Hw.
  - apply add_capacity. exact Hw.
  - apply add_capacity. exact Hw.
  - apply add_capacity. exact Hw.
  - apply removeAt_capacity. exact Hw.
  - apply fromJSON_capacity. exact Hw.
Qed.

(** X18.  Whatever is called on a fresh queue, in whatever order ([add],
    [addByType], [addGroupReference], [addRepeatBlock],
    [addRecursiveReference], [removeAt], [removeLast], [clear], [fromJSON],
    [start], [update], [pause], [resume], [stop], [reset]), the capacity
    stays the one it was constructed with and the queue never holds more
    items than that (none at all for a capacity that is not positive). *)
Theorem X18_ActionQueue_capacity (objs : list Obj) (size : Z) (cs : list Call) :
  ActionQueue.maxSize (ActionQueue.queue (calls cs (ActionQueue.init objs size))) = size
  /\ ActionQueue.size (calls cs (ActionQueue.init objs size)) <= Z.max 0 size.
Proof.
  assert (H : forall w, withinCapacity size w -> withinCapacity size (calls cs w)).
  { unfold calls. induction cs as [| c cs IH]; intros w Hw; simpl; [exact Hw |].
    apply IH, call_capacity, Hw. }
  apply H. split; simpl; lia.
Qed.

(** ** ActionQueue: removeLast, stop *)

Lemma delete_last {A} (l : list A) (x : A) : delete (length l) (l ++ [x]) = l.
Proof. induction l as [| y l IH]; simpl; [reflexivity | f_equal; exact IH]. Qed.

(** X19.  [removeLast()] undoes an [add] that was accepted: it returns the
    item just added and leaves the queue and the objects as they were
    before the [add]; on a queue without items it returns [null] and changes
    nothing. *)
Theorem X19_ActionQueue_removeLast (item : loc) (w : ActionQueue.World) :
  (snd (ActionQueue.add item w) = true ->
   snd (ActionQueue.removeLast (fst (ActionQueue.add item w))) = Some item
   /\ ActionQueue.queue (fst (ActionQueue.removeLast (fst (ActionQueue.add item w))))
      = ActionQueue.queue w
   /\ ActionQueue.objects (fst (ActionQueue.removeLast (fst (ActionQueue.add item w))))
      = ActionQueue.objects w)
  /\ (ActionQueue.items (ActionQueue.queue w) = [] ->
      ActionQueue.removeLast w = (w, None)).
Proof.
  split.
  - unfold ActionQueue.add.
    destruct (Z.leb_spec (ActionQueue.maxSize (ActionQueue.queue w))
                (Z.of_nat (length (ActionQueue.items (ActionQueue.queue w)))));
      [discriminate |].
    destruct (QueueState_eqb (ActionQueue.state (ActionQueue.queue w)) RUNNING) eqn:Hs;
      [discriminate |].
    intros _. unfold ActionQueue.removeLast, ActionQueue.removeAt.
    cbn [fst snd ActionQueue.notifyChange ActionQueue.fire ActionQueue.onQueue
         ActionQueue.queue ActionQueue.setItems ActionQueue.items ActionQueue.state
         ActionQueue.objects].
    rewrite Hs, length_app. cbn [length Nat.add].
    replace (Z.of_nat (length (ActionQueue.items (ActionQueue.queue w)) + 1) - 1)
      with (Z.of_nat (length (ActionQueue.items (ActionQueue.queue w)))) by lia.
    destruct (Z.ltb_spec (Z.of_nat (length (ActionQueue.items (ActionQueue.queue w)))) 0);
      [lia |].
    destruct (Z.leb_spec
                (Z.of_nat (length (ActionQueue.items (ActionQueue.queue w)) + 1))
                (Z.of_nat (length (ActionQueue.items (ActionQueue.queue w)))));
      [lia |].
    cbn [orb fst snd ActionQueue.notifyChange ActionQueue.fire ActionQueue.onQueue
         ActionQueue.queue ActionQueue.setItems ActionQueue.items ActionQueue.state
         ActionQueue.objects ActionQueue.maxSize ActionQueue.currentIndex
         ActionQueue.expandedActions ActionQueue.expandedIndex].
    rewrite Nat2Z.id, delete_last.
    split; [| split; [| reflexivity]].
    + rewrite lookup_app_r by lia. rewrite Nat.sub_diag. reflexivity.
    + destruct (ActionQueue.queue w); reflexivity.
  - intros Hempty. unfold ActionQueue.removeLast, ActionQueue.removeAt.
    rewrite Hempty. cbn [length Z.of_nat Z.sub Z.opp Z.add].
    destruct (QueueState_eqb _ _); reflexivity.
Qed.

Lemma reset_reset (o : Obj) : Obj.reset (Obj.reset o) = Obj.reset o.
Proof.
  destruct o as [a | r | b | r]; simpl; try reflexivity.
  unfold RepeatBlock.reset. simpl. rewrite map_map. do 2 f_equal.
  apply map_ext. intros [a | r | g]; reflexivity.
Qed.

Lemma reset_items_lookup (its : list loc) :
  forall (objs : list Obj) (l : loc),
    fold_left (fun objs l => alter Obj.reset l objs) its objs !! l
    = if decide (l ∈ its) then Obj.reset <$> objs !! l else objs !! l.
Proof.
  induction its as [| i its IH]; intros objs l; simpl.
  - destruct (decide (l ∈ [])) as [Hin | _]; [inversion Hin | reflexivity].
  - rewrite IH.
    destruct (decide (l ∈ its)) as [Hin | Hnin].
    + rewrite decide_True by (right; exact Hin).
      destruct (Nat.eq_dec i l) as [-> | Hne].
      * rewrite list_lookup_alter_eq. destruct (objs !! l); simpl; [| reflexivity].
        rewrite reset_reset. reflexivity.
      * rewrite list_lookup_alter_ne by exact Hne. reflexivity.
    + destruct (Nat.eq_dec i l) as [-> | Hne].
      * rewrite decide_True by left. apply list_lookup_alter_eq.
      * rewrite decide_False by (intros Hin; apply elem_of_cons in Hin as [? | ?]; auto).
        apply list_lookup_alter_ne. exact Hne.
Qed.

(** X20.  [stop()] calls no callback.  It leaves the queue [IDLE] with the
    cursor at 0 of an empty expansion and the items it had; every object
    that is an item of the queue is reset (an action among them is back at
    progress 0, neither executing nor complete), every other object is as it
    was; and a second [stop()] changes nothing more. *)
Theorem X20_ActionQueue_stop (w : ActionQueue.World) :
  ActionQueue.queue (ActionQueue.stop w)
  = ActionQueue.mk (ActionQueue.items (ActionQueue.queue w))
                   (ActionQueue.maxSize (ActionQueue.queue w)) 0 IDLE [] 0%nat
  /\ ActionQueue.fired (ActionQueue.stop w) = ActionQueue.fired w
  /\ (forall l, l ∈ ActionQueue.items (ActionQueue.queue w) ->
                ActionQueue.objects (ActionQueue.stop w) !! l
                = Obj.reset <$> ActionQueue.objects w !! l)
  /\ (forall l a, l ∈ ActionQueue.items (ActionQueue.queue w) ->
                  ActionQueue.objects w !! l = Some (ObjAction a) ->
                  ActionQueue.objects (ActionQueue.stop w) !! l
                  = Some (ObjAction (Action.new (Action.type a) (Action.duration a))))
  /\ (forall l, l ∉ ActionQueue.items (ActionQueue.queue w) ->
                ActionQueue.objects (ActionQueue.stop w) !! l = ActionQueue.objects w !! l)
  /\ ActionQueue.stop (ActionQueue.stop w) = ActionQueue.stop w.
Proof.
  assert (Hobj : forall w l,
             ActionQueue.objects (ActionQueue.stop w) !! l
             = if decide (l ∈ ActionQueue.items (ActionQueue.queue w))
               then Obj.reset <$> ActionQueue.objects w !! l
               else ActionQueue.objects w !! l).
  { intros w0 l. unfold ActionQueue.stop, ActionQueue.reset. simpl.
    apply reset_items_lookup. }
  split; [reflexivity |]. split; [reflexivity |].
  split; [| split; [| split]].
  - intros l Hin. rewrite Hobj, decide_True by exact Hin. reflexivity.
  - intros l a Hin Hl. rewrite Hobj, decide_True by exact Hin. rewrite Hl. reflexivity.
  - intros l Hnin. rewrite Hobj, decide_False by exact Hnin. reflexivity.
  - assert (Hq : ActionQueue.queue (ActionQueue.stop (ActionQueue.stop w))
                 = ActionQueue.queue (ActionQueue.stop w)) by reflexivity.
    assert (Hf : ActionQueue.fired (ActionQueue.stop (ActionQueue.stop w))
                 = ActionQueue.fired (ActionQueue.stop w)) by reflexivity.
    assert (Ho : ActionQueue.objects (ActionQueue.stop (ActionQueue.stop w))
                 = ActionQueue.objects (ActionQueue.stop w)).
    { apply list_eq. intros l. rewrite (Hobj (ActionQueue.stop w)), (Hobj w).
      change (ActionQueue.items (ActionQueue.queue (ActionQueue.stop w)))
        with (ActionQueue.items (ActionQueue.queue w)).
      destruct (decide (l ∈ ActionQueue.items (ActionQueue.queue w))); [| reflexivity].
      destruct (ActionQueue.objects w !! l); simpl; [| reflexivity].
      rewrite reset_reset. reflexivity. }
    destruct (ActionQueue.stop (ActionQueue.stop w)), (ActionQueue.stop w).
    simpl in *. congruence.
Qed.

(** ** ActionQueue: serialization *)

Lemma itemToJSON_None (objs : list Obj) (item : loc) :
  ActionQueue.itemToJSON objs item = None <-> hasToJSON objs item = false.
Proof.
  unfold ActionQueue.itemToJSON, hasToJSON.
  destruct (objs !! item) as [[a | r | b | r] |]; split; try reflexivity; discriminate.
Qed.

Lemma toJSON_fresh_reference (o : Obj) (w : ActionQueue.World) :
  hasToJSON (ActionQueue.objects w ++ [o]) (length (ActionQueue.objects w)) = false ->
  snd (ActionQueue.add (length (ActionQueue.objects w))
         (ActionQueue.mkWorld (ActionQueue.objects w ++ [o]) (ActionQueue.queue w)
                              (ActionQueue.fired w))) = true ->
  ActionQueue.toJSON
    (fst (ActionQueue.add (length (ActionQueue.objects w))
            (ActionQueue.mkWorld (ActionQueue.objects w ++ [o]) (ActionQueue.queue w)
                                 (ActionQueue.fired w)))) = None.
Proof.
  intros Hno. unfold ActionQueue.add. cbn [ActionQueue.queue].
  destruct (_ <=? _); [discriminate |].
  destruct (QueueState_eqb _ _); [discriminate |].
  intros _. unfold ActionQueue.toJSON. apply mapM_None. apply Exists_exists.
  exists (length (ActionQueue.objects w)). split.
  - simpl. apply elem_of_app. right. left.
  - apply itemToJSON_None. exact Hno.
Qed.

(** X21.  [ActionQueue.toJSON()] throws exactly when some item of the queue
    has no [toJSON] method, that is, when the queue holds a group reference
    or a recursive reference: so it throws on every queue to which
    [addGroupReference] or [addRecursiveReference] has just added an item.
    When it returns, the array has one element per item. *)
Theorem X21_ActionQueue_toJSON (w : ActionQueue.World) (g : ActionGroup.t)
    (rg : RecursiveGroup.t) :
  (ActionQueue.toJSON w = None
   <-> exists item, item ∈ ActionQueue.items (ActionQueue.queue w)
                    /\ hasToJSON (ActionQueue.objects w) item = false)
  /\ (forall js, ActionQueue.toJSON w = Some js ->
                 length js = length (ActionQueue.items (ActionQueue.queue w)))
  /\ (snd (ActionQueue.addGroupReference g w) = true ->
      ActionQueue.toJSON (fst (ActionQueue.addGroupReference g w)) = None)
  /\ (snd (ActionQueue.addRecursiveReference rg w) = true ->
      ActionQueue.toJSON (fst (ActionQueue.addRecursiveReference rg w)) = None).
Proof.
  split; [| split; [| split]].
  - unfold ActionQueue.toJSON. rewrite mapM_None, Exists_exists.
    split; intros (item & Hin & H); exists item; (split; [exact Hin |]);
      apply itemToJSON_None; exact H.
  - intros js H. symmetry. apply (length_mapM _ _ _ H).
  - apply toJSON_fresh_reference. unfold hasToJSON.
    rewrite lookup_app_r, Nat.sub_diag by lia. reflexivity.
  - apply toJSON_fresh_reference. unfold hasToJSON.
    rewrite lookup_app_r, Nat.sub_diag by lia. reflexivity.
Qed.

Lemma lookup_map {A B} (f : A -> B) (l : list A) (i : nat) : map f l !! i = f <$> l !! i.
Proof. exact (list_lookup_fmap f l i). Qed.

(** The loop of [fromJSON], on a queue that is not running. *)
Lemma fromJSON_loop (data : list Action.Data) :
  forall w : ActionQueue.World,
    ActionQueue.state (ActionQueue.queue w) <> RUNNING ->
    ActionQueue.objects
      (fold_left
         (fun w actionData =>
            fst (ActionQueue.add (length (ActionQueue.objects w))
                   (ActionQueue.mkWorld
                      (ActionQueue.objects w ++ [ObjAction (Action.fromJSON actionData)])
                      (ActionQueue.queue w) (ActionQueue.fired w))))
         data w)
    = ActionQueue.objects w ++ map (fun d => ObjAction (Action.fromJSON d)) data
    /\ ActionQueue.queue
         (fold_left
            (fun w actionData =>
               fst (ActionQueue.add (length (ActionQueue.objects w))
                      (ActionQueue.mkWorld
                         (ActionQueue.objects w ++ [ObjAction (Action.fromJSON actionData)])
                         (ActionQueue.queue w) (ActionQueue.fired w))))
            data w)
       = ActionQueue.setItems
           (ActionQueue.items (ActionQueue.queue w)
            ++ seq (length (ActionQueue.objects w))
                   (Nat.min (length data)
                      (Z.to_nat (ActionQueue.maxSize (ActionQueue.queue w)
                                 - Z.of_nat (length (ActionQueue.items
                                                       (ActionQueue.queue w)))))))
           (ActionQueue.queue w).
Proof.
  induction data as [| d data IH]; intros w Hs.
  - simpl. rewrite !app_nil_r. split; [reflexivity |].
    destruct (ActionQueue.queue w); reflexivity.
  - cbn [fold_left]. unfold ActionQueue.add at 2 4. cbn [ActionQueue.queue].
    destruct (Z.leb_spec (ActionQueue.maxSize (ActionQueue.queue w))
                (Z.of_nat (length (ActionQueue.items (ActionQueue.queue w)))))
      as [Hfull | Hroom].
    + cbn [fst].
      destruct (IH (ActionQueue.mkWorld
                      (ActionQueue.objects w ++ [ObjAction (Action.fromJSON d)])
                      (ActionQueue.queue w) (ActionQueue.fired w)) Hs) as [Ho Hq].
      rewrite Ho, Hq. cbn [ActionQueue.objects ActionQueue.queue].
      split; [rewrite <- app_assoc; reflexivity |].
      replace (Z.to_nat (ActionQueue.maxSize (ActionQueue.queue w)
                         - Z.of_nat (length (ActionQueue.items (ActionQueue.queue w)))))
        with 0%nat by lia.
      rewrite !Nat.min_0_r. reflexivity.
    + destruct (QueueState_eqb (ActionQueue.state (ActionQueue.queue w)) RUNNING) eqn:Hrun.
      { apply QueueState_eqb_eq in Hrun. contradiction. }
      cbn [fst].
      match goal with
      | |- context [fold_left _ data ?x] => destruct (IH x Hs) as [Ho Hq]
      end.
      rewrite Ho, Hq.
      cbn [ActionQueue.objects ActionQueue.queue ActionQueue.notifyChange ActionQueue.fire
           ActionQueue.onQueue ActionQueue.setItems ActionQueue.items ActionQueue.maxSize
           ActionQueue.currentIndex ActionQueue.state ActionQueue.expandedActions
           ActionQueue.expandedIndex].
      split; [rewrite <- app_assoc; reflexivity |].
      rewrite !length_app. cbn [length].
      replace (Nat.min (S (length data))
                 (Z.to_nat (ActionQueue.maxSize (ActionQueue.queue w)
                            - Z.of_nat (length (ActionQueue.items (ActionQueue.queue w))))))
        with (S (Nat.min (length data)
                   (Z.to_nat (ActionQueue.maxSize (ActionQueue.queue w)
                              - Z.of_nat (length (ActionQueue.items (ActionQueue.queue w))
                                          + 1)))))
        by lia.
      cbn [seq]. rewrite <- app_assoc, Nat.add_1_r. reflexivity.
Qed.

Lemma objects_clear_length (w : ActionQueue.World) :
  length (ActionQueue.objects (ActionQueue.clear w)) = length (ActionQueue.objects w).
Proof.
  unfold ActionQueue.clear, ActionQueue.when.
  destruct (QueueState_eqb _ _); [| reflexivity].
  simpl. generalize (ActionQueue.objects w).
  induction (ActionQueue.items (ActionQueue.queue w)) as [| i its IH]; intros objs; simpl;
    [reflexivity |].
  rewrite IH. apply length_alter.
Qed.

(** X22.  [ActionQueue.fromJSON(data)], called in whatever state the queue
    is (it stops a queue that is playing): the queue is left [IDLE] with the
    cursor at 0 of an empty expansion; its items are new actions made from
    the elements of [data], in order, as many as the capacity allows and no
    more (the elements beyond the capacity are dropped); and [toJSON()] then
    returns the data of these items, that is the elements read, each with a
    duration (the configured one where the element had none). *)
Theorem X22_ActionQueue_fromJSON (data : list Action.Data) (w : ActionQueue.World) :
  ActionQueue.queue (ActionQueue.fromJSON data w)
  = ActionQueue.mk
      (seq (length (ActionQueue.objects w))
           (Nat.min (length data) (Z.to_nat (ActionQueue.maxSize (ActionQueue.queue w)))))
      (ActionQueue.maxSize (ActionQueue.queue w)) 0 IDLE [] 0%nat
  /\ (forall i d, data !! i = Some d ->
                  ActionQueue.objects (ActionQueue.fromJSON data w)
                    !! (length (ActionQueue.objects w) + i)%nat
                  = Some (ObjAction (Action.fromJSON d)))
  /\ ActionQueue.toJSON (ActionQueue.fromJSON data w)
     = Some (map (fun d => ActionQueue.JsonAction (Action.toJSON (Action.fromJSON d)))
                 (take (Z.to_nat (ActionQueue.maxSize (ActionQueue.queue w))) data)).
Proof.
  unfold ActionQueue.fromJSON.
  assert (Hidle : ActionQueue.state (ActionQueue.queue (ActionQueue.clear w)) <> RUNNING).
  { rewrite clear_queue. discriminate. }
  destruct (fromJSON_loop data (ActionQueue.clear w) Hidle) as [Ho Hq].
  assert (Hqueue :
            ActionQueue.queue
              (fold_left
                 (fun w actionData =>
                    fst (ActionQueue.add (length (ActionQueue.objects w))
                           (ActionQueue.mkWorld
                              (ActionQueue.objects w
                               ++ [ObjAction (Action.fromJSON actionData)])
                              (ActionQueue.queue w) (ActionQueue.fired w))))
                 data (ActionQueue.clear w))
            = ActionQueue.mk
                (seq (length (ActionQueue.objects w))
                     (Nat.min (length data)
                        (Z.to_nat (ActionQueue.maxSize (ActionQueue.queue w)))))
                (ActionQueue.maxSize (ActionQueue.queue w)) 0 IDLE [] 0%nat).
  { rewrite Hq, clear_queue, objects_clear_length. cbn. rewrite Z.sub_0_r. reflexivity. }
  assert (Hobj : forall i d,
             data !! i = Some d ->
             ActionQueue.objects
               (fold_left
                  (fun w actionData =>
                     fst (ActionQueue.add (length (ActionQueue.objects w))
                            (ActionQueue.mkWorld
                               (ActionQueue.objects w
                                ++ [ObjAction (Action.fromJSON actionData)])
                               (ActionQueue.queue w) (ActionQueue.fired w))))
                  data (ActionQueue.clear w))
               !! (length (ActionQueue.objects w) + i)%nat
             = Some (ObjAction (Action.fromJSON d))).
  { intros i d Hd. rewrite Ho, <- objects_clear_length.
    rewrite lookup_app_r by lia.
    replace (length (ActionQueue.objects (ActionQueue.clear w)) + i
             - length (ActionQueue.objects (ActionQueue.clear w)))%nat with i by lia.
    rewrite lookup_map, Hd. reflexivity. }
  split; [exact Hqueue |]. split; [exact Hobj |].
  unfold ActionQueue.toJSON. rewrite Hqueue. cbn [ActionQueue.items].
  apply mapM_Some. apply Forall2_same_length_lookup_2.
  - rewrite length_seq, length_map, length_take. apply Nat.min_comm.
  - intros i item js Hitem Hjs.
    apply lookup_seq in Hitem as [-> Hlt].
    rewrite lookup_map in Hjs.
    destruct (take (Z.to_nat (ActionQueue.maxSize (ActionQueue.queue w))) data !! i)
      as [d |] eqn:Hd; [| discriminate].
    injection Hjs as <-.
    apply lookup_take_Some in Hd as [Hd _].
    unfold ActionQueue.itemToJSON. rewrite (Hobj i d Hd). reflexivity.
Qed.

(** ** Playing a queue to its end *)

Lemma firm_refl (w : ActionQueue.World) : firm w w.
Proof. split; [reflexivity | auto]. Qed.

Lemma firm_trans (w1 w2 w3 : ActionQueue.World) : firm w1 w2 -> firm w2 w3 -> firm w1 w3.
Proof. intros (Hq1 & Hj1) (Hq2 & Hj2). split; [congruence | auto]. Qed.

Lemma firm_fire (e : Event) (w : ActionQueue.World) : firm w (ActionQueue.fire e w).
Proof. split; [reflexivity |]. intros r a H. exact H. Qed.

Lemma firm_setExecuting (l : loc) (w : ActionQueue.World) :
  firm w (ActionQueue.onObject l (Obj.setExecuting true) w).
Proof.
  split; [reflexivity |].
  intros [l0 | a0] a Hread; [| exact Hread].
  unfold ActionQueue.readAction, ActionQueue.onObject in *.
  cbn [ActionQueue.objects].
  destruct (ActionQueue.objects w !! l0) as [[a1 | | |] |] eqn:Hl0; try discriminate.
  injection Hread as ->.
  destruct (Nat.eq_dec l l0) as [-> | Hne].
  - rewrite list_lookup_alter_eq, Hl0. reflexivity.
  - rewrite list_lookup_alter_ne, Hl0 by exact Hne. reflexivity.
Qed.

Lemma firm_when (c : bool) (f : ActionQueue.World -> ActionQueue.World)
    (w : ActionQueue.World) :
  (forall w0, firm w0 (f w0)) -> firm w (ActionQueue.when c f w).
Proof. intros Hf. destruct c; simpl; [apply Hf | apply firm_refl]. Qed.

Lemma firm_withRef (flag : bool) (ref : option loc)
    (f : loc -> ActionQueue.World -> ActionQueue.World) (w : ActionQueue.World) :
  (forall l w0, firm w0 (f l w0)) -> firm w (ActionQueue.withRef flag ref f w).
Proof.
  intros Hf. destruct ref as [l |]; simpl; [| apply firm_refl].
  apply firm_when. apply Hf.
Qed.

Lemma firm_executing_fire (l : loc) (e : Event) (w : ActionQueue.World) :
  firm w (ActionQueue.fire e (ActionQueue.onObject l (Obj.setExecuting true) w)).
Proof. eapply firm_trans; [apply firm_setExecuting | apply firm_fire]. Qed.

Ltac firm_peel :=
  eapply firm_trans;
  [| solve [ apply firm_fire
           | apply firm_withRef; intros;
             first [apply firm_executing_fire | apply firm_fire]
           | apply firm_when; intros; apply firm_fire ]].

(** Entering a step leaves its action exactly as [start()] makes it. *)
Lemma openStep_started (info : ActionQueue.ExpandedStep) (a : Action.t)
    (w : ActionQueue.World) :
  ActionQueue.getCurrentItemInfo (ActionQueue.queue w) = Some info ->
  ActionQueue.readAction w (ActionQueue.action info) = Some a ->
  ActionQueue.getCurrentAction (ActionQueue.openStep info w) = Some (Action.start a).
Proof.
  intros Hinfo Hread.
  destruct (writeAction_current info a (Action.start a) w Hinfo Hread)
    as (info1 & Hinfo1 & Hread1).
  unfold ActionQueue.openStep. rewrite Hread. cbv zeta.
  set (w1 := ActionQueue.writeAction _ info (Action.start a) w) in *.
  match goal with
  | |- ActionQueue.getCurrentAction ?x = _ => assert (firm w1 x) as (Hq & Hj)
  end.
  { do 6 firm_peel. apply firm_refl. }
  unfold ActionQueue.getCurrentAction. rewrite Hq, Hinfo1. apply Hj. exact Hread1.
Qed.

Lemma emits_eq (n q : nat) (w1 w1' w2 w2' : ActionQueue.World) :
  ActionQueue.fired w1' = ActionQueue.fired w1 ->
  ActionQueue.fired w2' = ActionQueue.fired w2 ->
  emits n q w1 w2 -> emits n q w1' w2'.
Proof. unfold emits. intros -> ->. auto. Qed.

Lemma wellTimed_objects (deltaTime : float) (w w' : ActionQueue.World) (r : ActionRef) :
  ActionQueue.objects w' = ActionQueue.objects w ->
  wellTimed deltaTime w r -> wellTimed deltaTime w' r.
Proof.
  unfold wellTimed, ActionQueue.readAction. intros ->. auto.
Qed.

Lemma wellTimed_kept (deltaTime : float) (w w' : ActionQueue.World) (r : ActionRef) :
  kept w w' -> wellTimed deltaTime w r -> wellTimed deltaTime w' r.
Proof.
  intros [_ _ _ _ Hact] (a & Hread & Hgood).
  destruct r as [l | a0]; [| exists a; auto].
  unfold wellTimed, ActionQueue.readAction in *.
  destruct (ActionQueue.objects w !! l) as [[a1 | | |] |] eqn:Hl; try discriminate.
  injection Hread as ->.
  destruct (Hact l a Hl) as (a' & -> & _ & Hd). exists a'. rewrite Hd. auto.
Qed.

(** The world [update()] leaves when the current action completes. *)
Lemma update_completes (deltaTime : float) (w : ActionQueue.World)
    (info : ActionQueue.ExpandedStep) (a : Action.t) :
  ActionQueue.state (ActionQueue.queue w) = RUNNING ->
  ActionQueue.getCurrentItemInfo (ActionQueue.queue w) = Some info ->
  ActionQueue.readAction w (ActionQueue.action info) = Some a ->
  Action.isComplete (fst (Action.update deltaTime a)) = true ->
  fst (ActionQueue.update deltaTime w) = final deltaTime w info a.
Proof.
  intros Hs Hinfo Hread Hc.
  unfold ActionQueue.update. rewrite Hs. cbn [QueueState_eqb negb]. rewrite Hinfo, Hread.
  unfold final, moved, reported.
  destruct (Action.update deltaTime a) as [a1 p]. cbn [fst] in Hc |- *. rewrite Hc.
  cbn [fst].
  pose proof (steady_cursor _ _ (steady_writeAction info a1 w)) as Hcur.
  unfold cursor in Hcur. injection Hcur as _ Hidx _.
  unfold enterNext. rewrite Hidx. reflexivity.
Qed.

Lemma ready_future (deltaTime : float) (w : ActionQueue.World) :
  ready deltaTime w ->
  forall j s,
    (ActionQueue.expandedIndex (ActionQueue.queue w) < j)%nat ->
    ActionQueue.expandedActions (ActionQueue.queue w) !! j = Some s ->
    wellTimed deltaTime w (ActionQueue.action s).
Proof.
  intros (_ & _ & Hfut) j s Hj Hs.
  apply (Forall_lookup_1 _ _ (j - S (ActionQueue.expandedIndex (ActionQueue.queue w))) s Hfut).
  rewrite lookup_drop.
  replace (S (ActionQueue.expandedIndex (ActionQueue.queue w))
           + (j - S (ActionQueue.expandedIndex (ActionQueue.queue w))))%nat with j by lia.
  exact Hs.
Qed.

Lemma start_update (deltaTime : float) (a : Action.t) :
  frameCompletes deltaTime (Action.duration a) = true ->
  fst (Action.update deltaTime (Action.start a))
  = Action.mk (Action.type a) (Action.duration a) false true 1%float.
Proof.
  unfold frameCompletes, Action.update, Action.start. simpl. intros ->. reflexivity.
Qed.

(** Entering a step of a playing queue whose action, like those of the
    steps after it, one frame completes. *)
Lemma enter_ready (deltaTime : float) (m : ActionQueue.World)
    (next : ActionQueue.ExpandedStep) :
  ActionQueue.state (ActionQueue.queue m) = RUNNING ->
  ActionQueue.getCurrentItemInfo (ActionQueue.queue m) = Some next ->
  wellTimed deltaTime m (ActionQueue.action next) ->
  (forall j s,
      (ActionQueue.expandedIndex (ActionQueue.queue m) < j)%nat ->
      ActionQueue.expandedActions (ActionQueue.queue m) !! j = Some s ->
      wellTimed deltaTime m (ActionQueue.action s)) ->
  ready deltaTime (ActionQueue.notifyChange (ActionQueue.openStep next m))
  /\ emits 0 0 m (ActionQueue.notifyChange (ActionQueue.openStep next m))
  /\ cursor (ActionQueue.notifyChange (ActionQueue.openStep next m)) = cursor m.
Proof.
  intros Hs Hcur (an & Hread & Hgood) Hfut.
  pose proof (openStep_started next an m Hcur Hread) as Hstart.
  destruct (calm_openStep next m) as [Hk He].
  remember (ActionQueue.openStep next m) as o eqn:Ho. clear Ho.
  pose proof (kept_settled _ _ Hk) as (Hc & _ & Hsteps).
  assert (Hcn : cursor (ActionQueue.notifyChange o) = cursor m) by exact Hc.
  unfold cursor in Hc. injection Hc as Hst Hidx Hlen.
  split; [| split; [| exact Hcn]].
  - split; [| split].
    + rewrite queue_notifyChange, Hst. exact Hs.
    + unfold ActionQueue.getCurrentAction in Hstart.
      destruct (ActionQueue.getCurrentItemInfo (ActionQueue.queue o)) as [info' |] eqn:Hi;
        [| discriminate].
      exists info', an. rewrite queue_notifyChange. auto.
    + rewrite queue_notifyChange. apply Forall_lookup_2. intros i s Hi.
      rewrite lookup_drop, Hidx, Hsteps in Hi by lia.
      apply (wellTimed_objects deltaTime o); [reflexivity |].
      apply (wellTimed_kept deltaTime m o _ Hk).
      apply (Hfut _ s) in Hi; [exact Hi | lia].
  - apply (emits_trans 0 0 0 0 m o); [exact He | apply calm_notifyChange].
Qed.

(** One frame on a queue that is [ready]: the current action completes and
    is reported, and either the next step is entered and the queue is
    [ready] again, or the queue completes. *)
Lemma ready_update (deltaTime : float) (w : ActionQueue.World) :
  ready deltaTime w ->
  ActionQueue.expandedIndex (ActionQueue.queue (fst (ActionQueue.update deltaTime w)))
  = S (ActionQueue.expandedIndex (ActionQueue.queue w))
  /\ length (ActionQueue.expandedActions
               (ActionQueue.queue (fst (ActionQueue.update deltaTime w))))
     = length (ActionQueue.expandedActions (ActionQueue.queue w))
  /\ ((S (ActionQueue.expandedIndex (ActionQueue.queue w))
       < length (ActionQueue.expandedActions (ActionQueue.queue w)))%nat ->
      ready deltaTime (fst (ActionQueue.update deltaTime w))
      /\ emits 1 0 w (fst (ActionQueue.update deltaTime w)))
  /\ (S (ActionQueue.expandedIndex (ActionQueue.queue w))
      = length (ActionQueue.expandedActions (ActionQueue.queue w)) ->
      ActionQueue.state (ActionQueue.queue (fst (ActionQueue.update deltaTime w))) = COMPLETE
      /\ emits 1 1 w (fst (ActionQueue.update deltaTime w))).
Proof.
  intros Hready. pose proof (ready_future _ _ Hready) as Hfut.
  destruct Hready as (Hs & (info & a & Hinfo & Hread & Hgood) & _).
  assert (Hc : Action.isComplete (fst (Action.update deltaTime (Action.start a))) = true).
  { rewrite (start_update _ _ Hgood). reflexivity. }
  rewrite (update_completes deltaTime w info (Action.start a) Hs Hinfo Hread Hc).
  pose proof (kept_closed deltaTime w info (Action.start a) Hread) as Hk.
  pose proof (emits_closed deltaTime w info (Action.start a) Hread) as He.
  pose proof (kept_settled _ _ Hk) as (Hcur & _ & Hsteps).
  unfold cursor in Hcur. injection Hcur as Hst Hidx Hlen.
  change (final deltaTime w info (Action.start a))
    with (ActionQueue.notifyChange (enterNext (moved deltaTime w info (Action.start a)))).
  assert (Hm : moved deltaTime w info (Action.start a)
               = ActionQueue.onQueue
                   (fun q => ActionQueue.setExpandedIndex
                               (S (ActionQueue.expandedIndex q)) q)
                   (ActionQueue.closeStep info
                      (reported deltaTime w info (Action.start a)))) by reflexivity.
  remember (ActionQueue.closeStep info (reported deltaTime w info (Action.start a))) as c
    eqn:Hc0.
  remember (moved deltaTime w info (Action.start a)) as m eqn:Hm0.
  clear Hc0 Hm0.
  assert (Hmi : ActionQueue.expandedIndex (ActionQueue.queue m)
                = S (ActionQueue.expandedIndex (ActionQueue.queue w))).
  { rewrite Hm. simpl. rewrite Hidx. reflexivity. }
  assert (Hme : ActionQueue.expandedActions (ActionQueue.queue m)
                = ActionQueue.expandedActions (ActionQueue.queue c))
    by (rewrite Hm; reflexivity).
  assert (Hms : ActionQueue.state (ActionQueue.queue m) = RUNNING)
    by (rewrite Hm; simpl; rewrite Hst; exact Hs).
  assert (Hem : emits 1 0 w m) by (apply (emits_eq 1 0 w w c m); auto; rewrite Hm; reflexivity).
  destruct (Nat.lt_ge_cases (S (ActionQueue.expandedIndex (ActionQueue.queue w)))
              (length (ActionQueue.expandedActions (ActionQueue.queue w))))
    as [Hlt | Hge].
  - destruct (lookup_lt_is_Some_2 (ActionQueue.expandedActions (ActionQueue.queue w))
                (S (ActionQueue.expandedIndex (ActionQueue.queue w))) Hlt) as [next Hnext].
    assert (Hcurm : ActionQueue.getCurrentItemInfo (ActionQueue.queue m) = Some next).
    { rewrite getCurrentItemInfo_lookup, Hmi, Hme, Hsteps by lia. exact Hnext. }
    assert (Hobj : forall r, wellTimed deltaTime w r -> wellTimed deltaTime m r).
    { intros r Hr. apply (wellTimed_objects deltaTime c); [rewrite Hm; reflexivity |].
      apply (wellTimed_kept deltaTime w c _ Hk). exact Hr. }
    destruct (enter_ready deltaTime m next Hms Hcurm) as (Hr & Hemits & Hcurs).
    { apply Hobj. apply (Hfut (S (ActionQueue.expandedIndex (ActionQueue.queue w))));
        [lia | exact Hnext]. }
    { intros j s Hj Hsj. rewrite Hmi in Hj. rewrite Hme, Hsteps in Hsj by lia.
      apply Hobj. apply (Hfut j); [lia | exact Hsj]. }
    unfold enterNext. rewrite Hcurm.
    unfold cursor in Hcurs. rewrite queue_notifyChange in Hcurs.
    injection Hcurs as _ Hi2 Hl2.
    rewrite !queue_notifyChange.
    split; [rewrite Hi2; exact Hmi |].
    split; [rewrite Hl2, Hme; exact Hlen |].
    split; [| intros Heq; lia].
    intros _. split; [exact Hr |].
    apply (emits_trans 1 0 0 0 w m); assumption.
  - apply getCurrentItemInfo_Some in Hinfo as (Hlt0 & _).
    assert (Hnone : ActionQueue.getCurrentItemInfo (ActionQueue.queue m) = None).
    { rewrite getCurrentItemInfo_lookup. apply lookup_ge_None. rewrite Hmi, Hme, Hlen. lia. }
    unfold enterNext. rewrite Hnone.
    split; [simpl; exact Hmi |].
    split; [simpl; rewrite Hme; exact Hlen |].
    split; [intros Hlt; lia |].
    intros _. split; [reflexivity |].
    apply (emits_trans 1 0 0 1 w m); [exact Hem |].
    apply (emits_trans 0 1 0 0 m
             (ActionQueue.fire onQueueComplete
                (ActionQueue.onQueue (ActionQueue.setState COMPLETE) m)));
      [| apply calm_notifyChange].
    apply (emits_eq 0 1 (ActionQueue.onQueue (ActionQueue.setState COMPLETE) m) m
             (ActionQueue.fire onQueueComplete
                (ActionQueue.onQueue (ActionQueue.setState COMPLETE) m))
             (ActionQueue.fire onQueueComplete
                (ActionQueue.onQueue (ActionQueue.setState COMPLETE) m)));
      [reflexivity | reflexivity |].
    apply (emits_fire onQueueComplete).
Qed.

Lemma plays_to_the_end (deltaTime : float) (n : nat) :
  forall w : ActionQueue.World,
    ready deltaTime w ->
    stepsLeft w = n ->
    ActionQueue.state (ActionQueue.queue (updates (replicate n deltaTime) w)) = COMPLETE
    /\ ActionQueue.expandedIndex (ActionQueue.queue (updates (replicate n deltaTime) w))
       = length (ActionQueue.expandedActions (ActionQueue.queue w))
    /\ emits n 1 w (updates (replicate n deltaTime) w)
    /\ (forall k, (k < n)%nat ->
                  ActionQueue.state (ActionQueue.queue (updates (replicate k deltaTime) w))
                  = RUNNING
                  /\ ActionQueue.expandedIndex
                       (ActionQueue.queue (updates (replicate k deltaTime) w))
                     = (ActionQueue.expandedIndex (ActionQueue.queue w) + k)%nat).
Proof.
  unfold stepsLeft.
  induction n as [| n IH]; intros w Hready Hn.
  - destruct Hready as (_ & (info & a & Hinfo & _) & _).
    apply getCurrentItemInfo_Some in Hinfo as (Hlt & _). lia.
  - destruct (ready_update deltaTime w Hready) as (Hidx1 & Hlen1 & Hmore & Hlast).
    assert (Hrun : ActionQueue.state (ActionQueue.queue w) = RUNNING)
      by (destruct Hready as (Hs & _); exact Hs).
    cbn [replicate updates fold_left].
    fold (updates (replicate n deltaTime) (fst (ActionQueue.update deltaTime w))).
    destruct n as [| n].
    + destruct Hlast as (Hc & He); [lia |].
      cbn [replicate updates fold_left].
      split; [exact Hc |]. split; [lia |]. split; [exact He |].
      intros k Hk. assert (k = 0%nat) as -> by lia.
      cbn [replicate updates fold_left]. split; [exact Hrun | lia].
    + destruct Hmore as (Hr1 & He1); [lia |].
      destruct (IH (fst (ActionQueue.update deltaTime w)) Hr1) as (Hc & Hi & He & Hk);
        [lia |].
      split; [exact Hc |]. split; [rewrite Hi; exact Hlen1 |].
      split; [apply (emits_trans 1 0 (S n) 1 w _ _ He1 He) |].
      intros k Hlt. destruct k as [| k].
      * cbn [replicate updates fold_left]. split; [exact Hrun | lia].
      * cbn [replicate updates fold_left].
        fold (updates (replicate k deltaTime) (fst (ActionQueue.update deltaTime w))).
        destruct (Hk k) as (Hsk & Hik); [lia |].
        split; [exact Hsk | rewrite Hik, Hidx1; lia].
Qed.

(** X23.  With callback handlers that only observe (they do not call back
    into the queue): a playing queue whose current action has just been
    started, and in which one frame of [deltaTime] completes that action and
    the action of every step to come (as is the case for frames as long as
    the longest duration), is played to its end by as many calls of
    [update(deltaTime)] as it has steps left: before the last of these calls
    the queue is [RUNNING] and every call moves the cursor by one; after the
    last the queue is [COMPLETE] with the cursor at the length of the
    expansion; and over these calls [onActionComplete] is called once per
    step and [onQueueComplete] exactly once. *)
Theorem X23_ActionQueue_plays_to_the_end (handle : ActionQueue.Handler)
    (deltaTime : float) (w : ActionQueue.World) :
  observes handle ->
  ready deltaTime w ->
  ActionQueue.state
    (ActionQueue.queue (updatesWith handle (replicate (stepsLeft w) deltaTime) w))
  = COMPLETE
  /\ ActionQueue.expandedIndex
       (ActionQueue.queue (updatesWith handle (replicate (stepsLeft w) deltaTime) w))
     = length (ActionQueue.expandedActions (ActionQueue.queue w))
  /\ emits (stepsLeft w) 1 w (updatesWith handle (replicate (stepsLeft w) deltaTime) w)
  /\ (forall k, (k < stepsLeft w)%nat ->
                ActionQueue.state
                  (ActionQueue.queue (updatesWith handle (replicate k deltaTime) w))
                = RUNNING
                /\ ActionQueue.expandedIndex
                     (ActionQueue.queue (updatesWith handle (replicate k deltaTime) w))
                   = (ActionQueue.expandedIndex (ActionQueue.queue w) + k)%nat).
Proof.
  intros Hobs Hready.
  destruct (plays_to_the_end deltaTime (stepsLeft w) w Hready eq_refl)
    as (Hc & Hi & He & Hk).
  rewrite (updatesWith_observes handle Hobs).
  split; [exact Hc |]. split; [exact Hi |]. split; [exact He |].
  intros k Hlt. rewrite (updatesWith_observes handle Hobs). apply Hk. exact Hlt.
Qed.

(** ** start() *)

Lemma expansion_nil (objs : list Obj) : ActionQueue.expansion objs [] = [].
Proof. reflexivity. Qed.

(** [start()] on an idle queue with the cursor at 0 whose expansion has a
    first step with an action. *)
Lemma start_enters (w : ActionQueue.World) (s : ActionQueue.ExpandedStep)
    (rest : list ActionQueue.ExpandedStep) :
  ActionQueue.state (ActionQueue.queue w) = IDLE ->
  ActionQueue.expandedIndex (ActionQueue.queue w) = 0%nat ->
  ActionQueue.expansion (ActionQueue.objects w) (ActionQueue.items (ActionQueue.queue w))
  = s :: rest ->
  ActionQueue.start w
  = ActionQueue.notifyChange
      (ActionQueue.openStep s
         (ActionQueue.onQueue (ActionQueue.setState RUNNING) (ActionQueue.expandItems w)))
  /\ ActionQueue.getCurrentItemInfo
       (ActionQueue.queue
          (ActionQueue.onQueue (ActionQueue.setState RUNNING) (ActionQueue.expandItems w)))
     = Some s.
Proof.
  intros Hs Hidx Hexp.
  assert (Hcur : ActionQueue.getCurrentItemInfo
                   (ActionQueue.queue
                      (ActionQueue.onQueue (ActionQueue.setState RUNNING)
                                           (ActionQueue.expandItems w))) = Some s).
  { rewrite getCurrentItemInfo_lookup. simpl. rewrite Hidx, Hexp. reflexivity. }
  split; [| exact Hcur].
  unfold ActionQueue.start.
  destruct (Z.eqb_spec (Z.of_nat (length (ActionQueue.items (ActionQueue.queue w)))) 0)
    as [Hz | Hnz].
  { assert (Hnil : ActionQueue.items (ActionQueue.queue w) = [])
      by (apply length_zero_iff_nil; lia).
    rewrite Hnil in Hexp. discriminate. }
  rewrite Hs. cbn [QueueState_eqb ActionQueue.when]. cbv zeta.
  destruct (Z.eqb_spec
              (Z.of_nat (length (ActionQueue.expandedActions
                                   (ActionQueue.queue (ActionQueue.expandItems w))))) 0)
    as [Hz | Hnz'].
  { simpl in Hz. rewrite Hexp in Hz. simpl in Hz. lia. }
  rewrite Hcur. reflexivity.
Qed.

(** X24.  [start()] does nothing on a queue without items, and on an idle
    queue whose items expand to no step at all it only stores the empty
    expansion: the queue stays [IDLE] and no callback is called.  On a
    completed queue it is [start()] on the queue reset.  On an idle queue
    with the cursor at 0 whose expansion has a first step with an action, it
    leaves the queue [RUNNING] with the cursor at step 0 of the expansion
    and the action of that step exactly as [Action.start()] makes it, and it
    calls neither [onActionComplete] nor [onQueueComplete]. *)
Theorem X24_ActionQueue_start (w : ActionQueue.World) (s : ActionQueue.ExpandedStep)
    (rest : list ActionQueue.ExpandedStep) (a : Action.t) :
  (ActionQueue.items (ActionQueue.queue w) = [] -> ActionQueue.start w = w)
  /\ (ActionQueue.state (ActionQueue.queue w) = IDLE ->
      ActionQueue.items (ActionQueue.queue w) <> [] ->
      ActionQueue.expansion (ActionQueue.objects w) (ActionQueue.items (ActionQueue.queue w))
      = [] ->
      ActionQueue.start w = ActionQueue.expandItems w)
  /\ (ActionQueue.state (ActionQueue.queue w) = COMPLETE ->
      ActionQueue.items (ActionQueue.queue w) <> [] ->
      ActionQueue.start w = ActionQueue.start (ActionQueue.reset w))
  /\ (ActionQueue.state (ActionQueue.queue w) = IDLE ->
      ActionQueue.expandedIndex (ActionQueue.queue w) = 0%nat ->
      ActionQueue.expansion (ActionQueue.objects w) (ActionQueue.items (ActionQueue.queue w))
      = s :: rest ->
      ActionQueue.readAction w (ActionQueue.action s) = Some a ->
      cursor (ActionQueue.start w) = (RUNNING, 0%nat, S (length rest))
      /\ ActionQueue.getCurrentAction (ActionQueue.start w) = Some (Action.start a)
      /\ emits 0 0 w (ActionQueue.start w)).
Proof.
  split; [| split; [| split]].
  - intros Hnil. unfold ActionQueue.start. rewrite Hnil. reflexivity.
  - intros Hs Hne Hexp. unfold ActionQueue.start.
    destruct (Z.eqb_spec (Z.of_nat (length (ActionQueue.items (ActionQueue.queue w)))) 0)
      as [Hz | Hnz].
    { exfalso. apply Hne. apply length_zero_iff_nil. lia. }
    rewrite Hs. cbn [QueueState_eqb ActionQueue.when]. cbv zeta.
    cbn [ActionQueue.expandItems ActionQueue.onQueue ActionQueue.queue
         ActionQueue.setExpandedActions ActionQueue.expandedActions].
    rewrite Hexp. reflexivity.
  - intros Hs Hne. unfold ActionQueue.start at 1 2.
    cbn [ActionQueue.reset ActionQueue.queue ActionQueue.items ActionQueue.state].
    destruct (Z.eqb_spec (Z.of_nat (length (ActionQueue.items (ActionQueue.queue w)))) 0)
      as [Hz | Hnz].
    { exfalso. apply Hne. apply length_zero_iff_nil. lia. }
    rewrite Hs. reflexivity.
  - intros Hs Hidx Hexp Hread.
    destruct (start_enters w s rest Hs Hidx Hexp) as [-> Hcur].
    set (w1 := ActionQueue.onQueue (ActionQueue.setState RUNNING) (ActionQueue.expandItems w))
      in *.
    assert (Hread1 : ActionQueue.readAction w1 (ActionQueue.action s) = Some a)
      by exact Hread.
    pose proof (openStep_started s a w1 Hcur Hread1) as Hstart.
    destruct (calm_openStep s w1) as [Hk He].
    pose proof (kept_settled _ _ Hk) as (Hc & _).
    split; [| split].
    + change (cursor (ActionQueue.openStep s w1) = (RUNNING, 0%nat, S (length rest))).
      rewrite Hc. unfold cursor, w1. simpl. rewrite Hidx, Hexp. reflexivity.
    + exact Hstart.
    + apply (emits_trans 0 0 0 0 w (ActionQueue.openStep s w1)); [| apply calm_notifyChange].
      apply (emits_eq 0 0 w1 w (ActionQueue.openStep s w1) (ActionQueue.openStep s w1));
        [reflexivity | reflexivity | exact He].
Qed.

Lemma start_ready (deltaTime : float) (w : ActionQueue.World) :
  ActionQueue.state (ActionQueue.queue w) = IDLE ->
  ActionQueue.expandedIndex (ActionQueue.queue w) = 0%nat ->
  ActionQueue.expansion (ActionQueue.objects w) (ActionQueue.items (ActionQueue.queue w))
  <> [] ->
  Forall (fun s => wellTimed deltaTime w (ActionQueue.action s))
         (ActionQueue.expansion (ActionQueue.objects w)
                                (ActionQueue.items (ActionQueue.queue w))) ->
  ready deltaTime (ActionQueue.start w)
  /\ stepsLeft (ActionQueue.start w)
     = length (ActionQueue.expansion (ActionQueue.objects w)
                                     (ActionQueue.items (ActionQueue.queue w)))
  /\ emits 0 0 w (ActionQueue.start w).
Proof.
  intros Hs Hidx Hne Hall.
  destruct (ActionQueue.expansion (ActionQueue.objects w)
                                  (ActionQueue.items (ActionQueue.queue w)))
    as [| s rest] eqn:Hexp; [contradiction |].
  destruct (start_enters w s rest Hs Hidx Hexp) as [-> Hcur].
  remember (ActionQueue.onQueue (ActionQueue.setState RUNNING) (ActionQueue.expandItems w))
    as w1 eqn:Hw1.
  assert (Hobj : ActionQueue.objects w1 = ActionQueue.objects w) by (rewrite Hw1; reflexivity).
  assert (Hfired : ActionQueue.fired w1 = ActionQueue.fired w) by (rewrite Hw1; reflexivity).
  assert (Hexp1 : ActionQueue.expandedActions (ActionQueue.queue w1) = s :: rest)
    by (rewrite Hw1; simpl; exact Hexp).
  assert (Hidx1 : ActionQueue.expandedIndex (ActionQueue.queue w1) = 0%nat)
    by (rewrite Hw1; simpl; exact Hidx).
  assert (Hs1 : ActionQueue.state (ActionQueue.queue w1) = RUNNING)
    by (rewrite Hw1; reflexivity).
  clear Hw1.
  destruct (enter_ready deltaTime w1 s Hs1 Hcur) as (Hr & He & Hc).
  - apply (wellTimed_objects deltaTime w); [exact Hobj |].
    apply (Forall_inv Hall).
  - intros j s' Hj Hs'. rewrite Hexp1 in Hs'.
    apply (wellTimed_objects deltaTime w); [exact Hobj |].
    apply (Forall_lookup_1 _ _ j s' Hall). exact Hs'.
  - split; [exact Hr |]. split.
    + unfold stepsLeft. unfold cursor in Hc. rewrite queue_notifyChange in *.
      injection Hc as _ Hi Hl.
      rewrite Hi, Hl, Hidx1, Hexp1. simpl. lia.
    + apply (emits_eq 0 0 w1 w _ _ (eq_sym Hfired) eq_refl He).
Qed.

(** X25.  With callback handlers that only observe (they do not call back
    into the queue): an idle queue with the cursor at 0 whose expansion is
    not empty and has, at every step, an action that one frame of
    [deltaTime] completes: [start()] followed by as many calls of
    [update(deltaTime)] as the expansion has steps leaves the queue
    [COMPLETE] with the cursor at the end of the expansion, having called
    [onActionComplete] once per step and [onQueueComplete] exactly once. *)
Theorem X25_ActionQueue_start_to_end (handle : ActionQueue.Handler)
    (deltaTime : float) (w : ActionQueue.World) :
  observes handle ->
  ActionQueue.state (ActionQueue.queue w) = IDLE ->
  ActionQueue.expandedIndex (ActionQueue.queue w) = 0%nat ->
  ActionQueue.expansion (ActionQueue.objects w) (ActionQueue.items (ActionQueue.queue w))
  <> [] ->
  Forall (fun s => wellTimed deltaTime w (ActionQueue.action s))
         (ActionQueue.expansion (ActionQueue.objects w)
                                (ActionQueue.items (ActionQueue.queue w))) ->
  ActionQueue.state
    (ActionQueue.queue
       (updatesWith handle
          (replicate (length (ActionQueue.expansion (ActionQueue.objects w)
                                (ActionQueue.items (ActionQueue.queue w))))
                     deltaTime)
          (ActionQueue.startWith handle w))) = COMPLETE
  /\ ActionQueue.expandedIndex
       (ActionQueue.queue
          (updatesWith handle
             (replicate (length (ActionQueue.expansion (ActionQueue.objects w)
                                   (ActionQueue.items (ActionQueue.queue w))))
                        deltaTime)
             (ActionQueue.startWith handle w)))
     = length (ActionQueue.expansion (ActionQueue.objects w)
                                     (ActionQueue.items (ActionQueue.queue w)))
  /\ emits (length (ActionQueue.expansion (ActionQueue.objects w)
                                          (ActionQueue.items (ActionQueue.queue w))))
           1 w
           (updatesWith handle
              (replicate (length (ActionQueue.expansion (ActionQueue.objects w)
                                    (ActionQueue.items (ActionQueue.queue w))))
                         deltaTime)
              (ActionQueue.startWith handle w)).
Proof.
  intros Hobs.
  rewrite (startWith_observes handle Hobs), (updatesWith_observes handle Hobs).
  intros Hs Hidx Hne Hall.
  destruct (start_ready deltaTime w Hs Hidx Hne Hall) as (Hr & Hn & He).
  destruct (plays_to_the_end deltaTime _ (ActionQueue.start w) Hr Hn) as (Hc & Hi & Hem & _).
  split; [exact Hc |]. split.
  - rewrite Hi. unfold stepsLeft in Hn.
    destruct Hr as (_ & (info & a & Hinfo & _) & _).
    apply getCurrentItemInfo_Some in Hinfo as (Hlt & _).
    assert (Hz : ActionQueue.expandedIndex (ActionQueue.queue (ActionQueue.start w)) = 0%nat).
    { destruct (ActionQueue.expansion (ActionQueue.objects w)
                                      (ActionQueue.items (ActionQueue.queue w)))
        as [| s rest] eqn:Hexp; [contradiction |].
      destruct (start_enters w s rest Hs Hidx Hexp) as [Hst Hcur].
      rewrite Hst, queue_notifyChange.
      pose proof (steady_cursor _ _ (steady_openStep s
                    (ActionQueue.onQueue (ActionQueue.setState RUNNING)
                                         (ActionQueue.expandItems w)))) as Hcu.
      unfold cursor in Hcu. injection Hcu as _ Hi2 _. rewrite Hi2. simpl. exact Hidx. }
    lia.
  - apply (emits_trans 0 0 _ 1 w (ActionQueue.start w)); [exact He | exact Hem].
Qed.

(** The mixed queue, started: nine steps of 300 ms, played by nine frames
    of 300 ms. *)
Lemma X23_ActionQueue_plays_to_the_end_witness :
  observes awayFromFinish
  /\ ready 300 (ActionQueue.start mixedQueue)
  /\ stepsLeft (ActionQueue.start mixedQueue) = 9%nat
  /\ ActionQueue.state
       (ActionQueue.queue
          (updatesWith awayFromFinish (replicate 9 300%float)
                       (ActionQueue.start mixedQueue)))
     = COMPLETE
  /\ emits 9 1 (ActionQueue.start mixedQueue)
           (updatesWith awayFromFinish (replicate 9 300%float)
                        (ActionQueue.start mixedQueue)).
Proof.
  assert (Hready : ready 300 (ActionQueue.start mixedQueue)).
  { split; [reflexivity |]. split.
    - eexists. exists (Action.newDefault MOVE_UP).
      split; [reflexivity |]. split; reflexivity.
    - vm_compute.
      repeat (constructor; [eexists; split; reflexivity |]). constructor. }
  split; [exact awayFromFinish_observes |].
  split; [exact Hready |]. split; [reflexivity |].
  destruct (X23_ActionQueue_plays_to_the_end awayFromFinish 300
              (ActionQueue.start mixedQueue) awayFromFinish_observes Hready)
    as (Hc & _ & He & _).
  split; [exact Hc | exact He].
Defined.

(** The mixed queue: a plain action, a group of two, two passes over one
    action, a recursion of depth 2 over one pre-action and one post-action;
    nine steps in all. *)
Lemma X25_ActionQueue_start_to_end_witness :
  observes awayFromFinish
  /\ ActionQueue.state (ActionQueue.queue mixedQueue) = IDLE
  /\ ActionQueue.expandedIndex (ActionQueue.queue mixedQueue) = 0%nat
  /\ length (ActionQueue.expansion (ActionQueue.objects mixedQueue)
                                   (ActionQueue.items (ActionQueue.queue mixedQueue)))
     = 9%nat
  /\ ActionQueue.state
       (ActionQueue.queue
          (updatesWith awayFromFinish (replicate 9 300%float)
                       (ActionQueue.startWith awayFromFinish mixedQueue)))
     = COMPLETE
  /\ emits 9 1 mixedQueue
           (updatesWith awayFromFinish (replicate 9 300%float)
                        (ActionQueue.startWith awayFromFinish mixedQueue)).
Proof.
  split; [exact awayFromFinish_observes |].
  split; [reflexivity |]. split; [reflexivity |]. split; [reflexivity |].
  assert (Hall : Forall (fun s => wellTimed 300 mixedQueue (ActionQueue.action s))
                        (ActionQueue.expansion (ActionQueue.objects mixedQueue)
                           (ActionQueue.items (ActionQueue.queue mixedQueue)))).
  { vm_compute. repeat (constructor; [eexists; split; reflexivity |]). constructor. }
  assert (Hne : ActionQueue.expansion (ActionQueue.objects mixedQueue)
                  (ActionQueue.items (ActionQueue.queue mixedQueue)) <> [])
    by (vm_compute; discriminate).
  destruct (X25_ActionQueue_start_to_end awayFromFinish 300 mixedQueue
              awayFromFinish_observes eq_refl eq_refl Hne Hall)
    as (Hc & _ & He).
  split; [exact Hc | exact He].
Defined.

(** ** What playback reports *)

Lemma final_emits (deltaTime : float) (w : ActionQueue.World)
    (info : ActionQueue.ExpandedStep) (a : Action.t) :
  ActionQueue.state (ActionQueue.queue w) = RUNNING ->
  ActionQueue.readAction w (ActionQueue.action info) = Some a ->
  emits 1 (if finished (final deltaTime w info a) then 1 else 0) w
        (final deltaTime w info a).
Proof.
  intros Hs Hread.
  pose proof (kept_closed deltaTime w info a Hread) as Hk.
  pose proof (emits_closed deltaTime w info a Hread) as He.
  pose proof (kept_settled _ _ Hk) as (Hcur & _ & _).
  unfold cursor in Hcur. injection Hcur as Hst _ _.
  change (final deltaTime w info a)
    with (ActionQueue.notifyChange (enterNext (moved deltaTime w info a))).
  assert (Hm : moved deltaTime w info a
               = ActionQueue.onQueue
                   (fun q => ActionQueue.setExpandedIndex
                               (S (ActionQueue.expandedIndex q)) q)
                   (ActionQueue.closeStep info (reported deltaTime w info a)))
    by reflexivity.
  remember (ActionQueue.closeStep info (reported deltaTime w info a)) as c eqn:Hc0.
  remember (moved deltaTime w info a) as m eqn:Hm0.
  clear Hc0 Hm0.
  assert (Hms : ActionQueue.state (ActionQueue.queue m) = RUNNING)
    by (rewrite Hm; simpl; rewrite Hst; exact Hs).
  assert (Hem : emits 1 0 w m)
    by (apply (emits_eq 1 0 w w c m); auto; rewrite Hm; reflexivity).
  unfold enterNext, finished. rewrite queue_notifyChange.
  destruct (ActionQueue.getCurrentItemInfo (ActionQueue.queue m)) as [next |].
  - destruct (calm_openStep next m) as [Hko Heo].
    pose proof (kept_settled _ _ Hko) as (Hcuro & _ & _).
    unfold cursor in Hcuro. injection Hcuro as Hsto _ _.
    rewrite Hsto, Hms. cbn [QueueState_eqb].
    apply (emits_trans 1 0 0 0 w (ActionQueue.openStep next m));
      [| apply calm_notifyChange].
    apply (emits_trans 1 0 0 0 w m); assumption.
  - cbn [ActionQueue.queue ActionQueue.fire ActionQueue.onQueue ActionQueue.setState
         ActionQueue.state QueueState_eqb].
    apply (emits_trans 1 0 0 1 w m); [exact Hem |].
    apply (emits_trans 0 1 0 0 m
             (ActionQueue.fire onQueueComplete
                (ActionQueue.onQueue (ActionQueue.setState COMPLETE) m)));
      [| apply calm_notifyChange].
    apply (emits_eq 0 1 (ActionQueue.onQueue (ActionQueue.setState COMPLETE) m) m
             (ActionQueue.fire onQueueComplete
                (ActionQueue.onQueue (ActionQueue.setState COMPLETE) m))
             (ActionQueue.fire onQueueComplete
                (ActionQueue.onQueue (ActionQueue.setState COMPLETE) m)));
      [reflexivity | reflexivity |].
    apply (emits_fire onQueueComplete).
Qed.

(** A call that leaves the cursor, the state and the record of completions
    as they were. *)
Lemma playback_idle (w w' : ActionQueue.World) :
  ActionQueue.expandedIndex (ActionQueue.queue w')
  = ActionQueue.expandedIndex (ActionQueue.queue w) ->
  finished w' = finished w ->
  emits 0 0 w w' ->
  (ActionQueue.expandedIndex (ActionQueue.queue w)
   <= ActionQueue.expandedIndex (ActionQueue.queue w'))%nat
  /\ emits (ActionQueue.expandedIndex (ActionQueue.queue w')
            - ActionQueue.expandedIndex (ActionQueue.queue w))
           (if negb (finished w) && finished w' then 1 else 0) w w'
  /\ (finished w = true -> finished w' = true).
Proof.
  intros -> -> He. rewrite Nat.sub_diag.
  split; [lia |]. split; [| auto].
  destruct (finished w); exact He.
Qed.

Lemma playback_update (deltaTime : float) (w : ActionQueue.World) :
  (ActionQueue.expandedIndex (ActionQueue.queue w)
   <= ActionQueue.expandedIndex (ActionQueue.queue (fst (ActionQueue.update deltaTime w))))%nat
  /\ emits (ActionQueue.expandedIndex (ActionQueue.queue (fst (ActionQueue.update deltaTime w)))
            - ActionQueue.expandedIndex (ActionQueue.queue w))
           (if negb (finished w) && finished (fst (ActionQueue.update deltaTime w))
            then 1 else 0)
           w (fst (ActionQueue.update deltaTime w))
  /\ (finished w = true -> finished (fst (ActionQueue.update deltaTime w)) = true).
Proof.
  destruct (update_cases deltaTime w)
    as [-> | [(Hs & Hnone & ->) | (info & a & Hs & Hinfo & Ha & [(Hc & ->) | (Hc & ->)])]].
  - apply playback_idle; [reflexivity | reflexivity | apply emits_refl].
  - assert (Hf : finished w = false) by (unfold finished; rewrite Hs; reflexivity).
    rewrite Hf. cbn [ActionQueue.queue ActionQueue.fire ActionQueue.onQueue
                     ActionQueue.setState ActionQueue.expandedIndex].
    rewrite Nat.sub_diag. split; [lia |]. split; [| discriminate].
    apply (emits_eq 0 1 (ActionQueue.onQueue (ActionQueue.setState COMPLETE) w) w
             (ActionQueue.fire onQueueComplete
                (ActionQueue.onQueue (ActionQueue.setState COMPLETE) w))
             (ActionQueue.fire onQueueComplete
                (ActionQueue.onQueue (ActionQueue.setState COMPLETE) w)));
      [reflexivity | reflexivity |].
    apply (emits_fire onQueueComplete).
  - destruct (update_keeps_type deltaTime a) as [Ht Hd].
    destruct (calm_writeAction info a (fst (Action.update deltaTime a)) w Ha Ht Hd)
      as [Hk He].
    pose proof (kept_settled _ _ Hk) as (Hcur & _ & _).
    unfold cursor in Hcur. injection Hcur as Hst Hidx _.
    apply playback_idle; [exact Hidx | | exact He].
    unfold finished. rewrite Hst. reflexivity.
  - assert (Hf : finished w = false) by (unfold finished; rewrite Hs; reflexivity).
    fold (reported deltaTime w info a). fold (moved deltaTime w info a).
    fold (final deltaTime w info a).
    rewrite Hf, (final_index deltaTime w info a).
    replace (S (ActionQueue.expandedIndex (ActionQueue.queue w))
             - ActionQueue.expandedIndex (ActionQueue.queue w))%nat with 1%nat by lia.
    split; [lia |]. split; [| discriminate].
    cbn [negb andb]. apply final_emits; assumption.
Qed.

Lemma playback_step (op : Op) (w : ActionQueue.World) :
  isPlayback op = true ->
  (ActionQueue.expandedIndex (ActionQueue.queue w)
   <= ActionQueue.expandedIndex (ActionQueue.queue (step op w)))%nat
  /\ emits (ActionQueue.expandedIndex (ActionQueue.queue (step op w))
            - ActionQueue.expandedIndex (ActionQueue.queue w))
           (if negb (finished w) && finished (step op w) then 1 else 0) w (step op w)
  /\ (finished w = true -> finished (step op w) = true).
Proof.
  destruct op; try discriminate; intros _; cbn [step].
  - apply playback_update.
  - unfold ActionQueue.pause, ActionQueue.when.
    destruct (ActionQueue.state (ActionQueue.queue w)) eqn:Hs; cbn [QueueState_eqb];
      apply playback_idle; try reflexivity; try apply emits_refl.
    + unfold finished. simpl. rewrite Hs. reflexivity.
    + apply emits_same_fired. reflexivity.
  - unfold ActionQueue.resume, ActionQueue.when.
    destruct (ActionQueue.state (ActionQueue.queue w)) eqn:Hs; cbn [QueueState_eqb];
      apply playback_idle; try reflexivity; try apply emits_refl.
    + unfold finished. simpl. rewrite Hs. reflexivity.
    + apply emits_same_fired. reflexivity.
  - unfold ActionQueue.add.
    destruct (_ <=? _); [apply playback_idle; try reflexivity; apply emits_refl |].
    destruct (QueueState_eqb _ _);
      [apply playback_idle; try reflexivity; apply emits_refl |].
    cbn [fst]. apply playback_idle; try reflexivity.
    apply (emits_eq 0 0 (ActionQueue.onQueue
                           (fun q => ActionQueue.setItems (ActionQueue.items q ++ [item]) q)
                           w) w _ _ eq_refl eq_refl).
    apply calm_notifyChange.
  - unfold ActionQueue.removeAt.
    destruct (QueueState_eqb _ _);
      [apply playback_idle; try reflexivity; apply emits_refl |].
    destruct (_ || _); [apply playback_idle; try reflexivity; apply emits_refl |].
    cbn [fst]. apply playback_idle; try reflexivity.
    apply (emits_eq 0 0 (ActionQueue.onQueue
                           (fun q => ActionQueue.setItems
                                       (delete (Z.to_nat index) (ActionQueue.items q)) q)
                           w) w _ _ eq_refl eq_refl).
    apply calm_notifyChange.
Qed.

Lemma playback_run (ops : list Op) :
  forall w : ActionQueue.World,
    forallb isPlayback ops = true ->
    (ActionQueue.expandedIndex (ActionQueue.queue w)
     <= ActionQueue.expandedIndex (ActionQueue.queue (run ops w)))%nat
    /\ emits (ActionQueue.expandedIndex (ActionQueue.queue (run ops w))
              - ActionQueue.expandedIndex (ActionQueue.queue w))
             (if negb (finished w) && finished (run ops w) then 1 else 0) w (run ops w)
    /\ (finished w = true -> finished (run ops w) = true).
Proof.
  induction ops as [| op ops IH]; intros w Hops.
  - apply playback_idle; [reflexivity | reflexivity | apply emits_refl].
  - cbn [forallb] in Hops. apply andb_prop in Hops as [Hop Hops].
    cbn [run fold_left]. fold (run ops (step op w)).
    destruct (playback_step op w Hop) as (Hle1 & He1 & Hf1).
    destruct (IH (step op w) Hops) as (Hle2 & He2 & Hf2).
    split; [lia |]. split; [| auto].
    pose proof (emits_trans _ _ _ _ w (step op w) (run ops (step op w)) He1 He2) as He.
    replace (ActionQueue.expandedIndex (ActionQueue.queue (run ops (step op w)))
             - ActionQueue.expandedIndex (ActionQueue.queue w))%nat
      with (ActionQueue.expandedIndex (ActionQueue.queue (step op w))
            - ActionQueue.expandedIndex (ActionQueue.queue w)
            + (ActionQueue.expandedIndex (ActionQueue.queue (run ops (step op w)))
               - ActionQueue.expandedIndex (ActionQueue.queue (step op w))))%nat by lia.
    replace (if negb (finished w) && finished (run ops (step op w)) then 1 else 0)%nat
      with ((if negb (finished w) && finished (step op w) then 1 else 0)
            + (if negb (finished (step op w)) && finished (run ops (step op w))
               then 1 else 0))%nat.
    + exact He.
    + destruct (finished w) eqn:F0, (finished (step op w)) eqn:F1,
        (finished (run ops (step op w))) eqn:F2; try reflexivity;
        first [discriminate (Hf1 eq_refl) | discriminate (Hf2 eq_refl)].
Qed.

(** X26.  With callback handlers that only observe (they do not call back
    into the queue): while a queue plays, through any sequence of [update],
    [pause], [resume], [add] and [removeAt] and whatever the frame times,
    the cursor never moves back, it moves by exactly as many steps as
    [onActionComplete] is called, and [onQueueComplete] is called exactly
    once if the sequence brings a queue that was not [COMPLETE] to
    [COMPLETE], and not at all otherwise. *)
Theorem X26_ActionQueue_playback_reports (handle : ActionQueue.Handler) (ops : list Op)
    (w : ActionQueue.World) :
  observes handle ->
  forallb isPlayback ops = true ->
  (ActionQueue.expandedIndex (ActionQueue.queue w)
   <= ActionQueue.expandedIndex (ActionQueue.queue (runWith handle ops w)))%nat
  /\ emits (ActionQueue.expandedIndex (ActionQueue.queue (runWith handle ops w))
            - ActionQueue.expandedIndex (ActionQueue.queue w))
           (if negb (finished w) && finished (runWith handle ops w) then 1 else 0)
           w (runWith handle ops w).
Proof.
  intros Hobs Hops. rewrite (runWith_observes handle Hobs).
  destruct (playback_run ops w Hops) as (Hle & He & _). auto.
Qed.

(** Scenario A, started, through a short frame, a pause, a frame while
    paused, and three frames of 300 ms: the cursor moves from 0 to 2. *)
Lemma X26_ActionQueue_playback_reports_witness :
  observes awayFromFinish
  /\ forallb isPlayback
       [OpUpdate 100; OpPause; OpUpdate 300; OpResume; OpUpdate 300; OpUpdate 300;
        OpUpdate 300]
     = true
  /\ ActionQueue.expandedIndex (ActionQueue.queue playingTwo) = 0%nat
  /\ ActionQueue.expandedIndex
       (ActionQueue.queue
          (runWith awayFromFinish
             [OpUpdate 100; OpPause; OpUpdate 300; OpResume; OpUpdate 300; OpUpdate 300;
              OpUpdate 300] playingTwo)) = 2%nat
  /\ emits 2 1 playingTwo
       (runWith awayFromFinish
          [OpUpdate 100; OpPause; OpUpdate 300; OpResume; OpUpdate 300; OpUpdate 300;
           OpUpdate 300] playingTwo).
Proof.
  split; [exact awayFromFinish_observes |].
  split; [reflexivity |]. split; [reflexivity |]. split; [reflexivity |].
  apply (proj2 (X26_ActionQueue_playback_reports awayFromFinish
                  [OpUpdate 100; OpPause; OpUpdate 300; OpResume; OpUpdate 300; OpUpdate 300;
                   OpUpdate 300] playingTwo awayFromFinish_observes eq_refl)).
Defined.

(** ** expandItems: steps and their items *)

Lemma repeatSteps_lookup (item : loc) (idx : nat) (b : RepeatBlock.t)
    (expandedRepeat : list RepeatBlock.Entry) (rest : list RepeatBlock.Entry) :
  forall (lastIteration : Z) (actionIndex k : nat) (s : ActionQueue.ExpandedStep),
    ActionQueue.repeatSteps item idx b expandedRepeat lastIteration actionIndex rest !! k
    = Some s ->
    exists last e,
      rest !! k = Some e
      /\ s = ActionQueue.repeatStep item idx b expandedRepeat last (actionIndex + k) e.
Proof.
  induction rest as [| e rest IH]; intros lastIteration actionIndex k s Hs; simpl in Hs.
  - rewrite lookup_nil in Hs. discriminate.
  - destruct k as [| k]; simpl in Hs.
    + injection Hs as <-. exists lastIteration, e. rewrite Nat.add_0_r. auto.
    + destruct (IH _ _ _ _ Hs) as (last & e' & He' & ->).
      exists last, e'. split; [exact He' |]. f_equal. lia.
Qed.

Lemma expandItem_lookup_itemIndex (objs : list Obj) (idx : nat) (item : loc)
    (k : nat) (s : ActionQueue.ExpandedStep) :
  ActionQueue.expandItem objs idx item !! k = Some s -> ActionQueue.itemIndex s = idx.
Proof.
  unfold ActionQueue.expandItem.
  destruct (objs !! item) as [[a | r | b | r] |]; intros Hs.
  - destruct k; [injection Hs as <-; reflexivity | discriminate].
  - rewrite list_lookup_imap in Hs.
    destruct (GroupReference.getActions r !! k); [| discriminate].
    injection Hs as <-. reflexivity.
  - apply repeatSteps_lookup in Hs as (last & e & _ & ->). reflexivity.
  - rewrite list_lookup_imap in Hs.
    destruct (RecursiveReference.getExpandedActions r !! k); [| discriminate].
    injection Hs as <-. reflexivity.
  - destruct k; [injection Hs as <-; reflexivity | discriminate].
Qed.

Lemma expansion_members (objs : list Obj) (its : list loc) :
  forall (f : nat -> nat) (s : ActionQueue.ExpandedStep),
    s ∈ concat (imap (fun i => ActionQueue.expandItem objs (f i)) its) ->
    exists i item,
      its !! i = Some item
      /\ ActionQueue.itemIndex s = f i
      /\ s ∈ ActionQueue.expandItem objs (f i) item.
Proof.
  induction its as [| item its IH]; intros f s Hs; simpl in Hs.
  - inversion Hs.
  - apply elem_of_app in Hs as [Hs | Hs].
    + exists 0%nat, item. split; [reflexivity |]. split; [| exact Hs].
      apply list_elem_of_lookup in Hs as (k & Hk).
      apply (expandItem_lookup_itemIndex _ _ _ _ _ Hk).
    + destruct (IH (f ∘ S) s Hs) as (i & item' & Hi & Hidx & Hin).
      exists (S i), item'. auto.
Qed.

Lemma constant_sorted {A} (g : A -> nat) (c : nat) (l : list A) :
  (forall x, x ∈ l -> g x = c) ->
  StronglySorted (fun s t => (g s <= g t)%nat) l.
Proof.
  induction l as [| x l IH]; intros Hall; constructor.
  - apply IH. intros y Hy. apply Hall. right. exact Hy.
  - apply List.Forall_forall. intros y Hy. apply list_elem_of_In in Hy.
    rewrite (Hall x), (Hall y); [lia | right; exact Hy | left].
Qed.

Lemma expansion_sorted (objs : list Obj) (its : list loc) :
  forall f : nat -> nat,
    (forall i j, (i <= j)%nat -> (f i <= f j)%nat) ->
    StronglySorted (fun s t => (ActionQueue.itemIndex s <= ActionQueue.itemIndex t)%nat)
                   (concat (imap (fun i => ActionQueue.expandItem objs (f i)) its)).
Proof.
  induction its as [| item its IH]; intros f Hf; simpl.
  - constructor.
  - apply StronglySorted_app_2.
    + intros s t Hs Ht.
      apply list_elem_of_lookup in Hs as (k & Hk).
      apply expandItem_lookup_itemIndex in Hk.
      apply (expansion_members objs its (f ∘ S)) in Ht as (i & _ & _ & Hi & _).
      rewrite Hk, Hi. apply Hf. lia.
    + apply (constant_sorted ActionQueue.itemIndex (f 0%nat)).
      intros s Hs. apply list_elem_of_lookup in Hs as (k & Hk).
      apply (expandItem_lookup_itemIndex _ _ _ _ _ Hk).
    + apply (IH (f ∘ S)). intros i j Hij. apply Hf. lia.
Qed.

(** X27.  In the array [expandItems()] builds, every step carries in
    [itemIndex] the index of an item of the queue and is one of the steps
    that item expands to; and the steps come in the order of the items: a
    step that comes later never has a smaller [itemIndex]. *)
Theorem X27_ActionQueue_expansion_by_item (objs : list Obj) (its : list loc) :
  (forall s, s ∈ ActionQueue.expansion objs its ->
             exists item, its !! ActionQueue.itemIndex s = Some item
                          /\ s ∈ ActionQueue.expandItem objs (ActionQueue.itemIndex s) item)
  /\ (forall (j k : nat) (s t : ActionQueue.ExpandedStep),
         (j <= k)%nat ->
         ActionQueue.expansion objs its !! j = Some s ->
         ActionQueue.expansion objs its !! k = Some t ->
         (ActionQueue.itemIndex s <= ActionQueue.itemIndex t)%nat).
Proof.
  split.
  - intros s Hs.
    destruct (expansion_members objs its (fun i => i) s Hs) as (i & item & Hi & Hidx & Hin).
    exists item. rewrite Hidx. auto.
  - intros j k s t Hjk Hs Ht.
    destruct (Nat.eq_dec j k) as [-> | Hne].
    + rewrite Hs in Ht. injection Ht as ->. lia.
    + apply (StronglySorted_lookup_lt _ _ (expansion_sorted objs its (fun i => i)
                                             (fun i j H => H)) j k s t);
        [lia | exact Hs | exact Ht].
Qed.

Lemma Z_eqb_0 (k : nat) : (Z.of_nat k =? 0) = (k =? 0)%nat.
Proof. destruct k; reflexivity. Qed.

Lemma Z_eqb_last (k n : nat) : (Z.of_nat k =? Z.of_nat n - 1) = (S k =? n)%nat.
Proof.
  destruct (Z.eqb_spec (Z.of_nat k) (Z.of_nat n - 1)), (Nat.eqb_spec (S k) n);
    try reflexivity; lia.
Qed.

(** X28.  Within the steps one item expands to, the step that opens the
    block (the first of a repeat, of a group, of a recursion) is the first
    step and no other, and the step that closes it is the last step and no
    other; the single step of a plain action neither opens nor closes
    anything. *)
Theorem X28_ActionQueue_block_boundaries (objs : list Obj) (idx : nat) (item : loc)
    (k : nat) (s : ActionQueue.ExpandedStep) :
  ActionQueue.expandItem objs idx item !! k = Some s ->
  opens s = inBlock s && (k =? 0)%nat
  /\ closes s = inBlock s && (S k =? length (ActionQueue.expandItem objs idx item))%nat.
Proof.
  unfold ActionQueue.expandItem.
  destruct (objs !! item) as [[a | r | b | r] |]; intros Hs.
  - destruct k; [injection Hs as <-; split; reflexivity | discriminate].
  - rewrite length_imap. rewrite list_lookup_imap in Hs.
    destruct (GroupReference.getActions r !! k); [| discriminate].
    injection Hs as <-. unfold opens, closes, inBlock. cbn.
    rewrite Z_eqb_0, Z_eqb_last, !orb_false_r. split; reflexivity.
  - rewrite length_repeatSteps.
    apply repeatSteps_lookup in Hs as (last & e & _ & ->).
    unfold opens, closes, inBlock. cbn.
    rewrite Z_eqb_0, Z_eqb_last, !orb_false_r. split; reflexivity.
  - rewrite length_imap. rewrite list_lookup_imap in Hs.
    destruct (RecursiveReference.getExpandedActions r !! k); [| discriminate].
    injection Hs as <-. unfold opens, closes, inBlock. cbn.
    rewrite Z_eqb_0, Z_eqb_last. split; reflexivity.
  - destruct k; [injection Hs as <-; split; reflexivity | discriminate].
Qed.

(** The repeat block of scenario B: its second step neither opens nor
    closes the block. *)
Lemma X28_ActionQueue_block_boundaries_witness :
  ActionQueue.expandItem [ObjRepeat blockB] 0 0%nat !! 1%nat
  = Some (ActionQueue.repeatStep 0%nat 0%nat blockB (RepeatBlock.getExpandedActions blockB) 0
                                 1%nat
                                 (RepeatBlock.mkEntry (Action.newDefault MOVE_RIGHT) 1 true))
  /\ opens (ActionQueue.repeatStep 0%nat 0%nat blockB (RepeatBlock.getExpandedActions blockB)
                                   0 1%nat
                                   (RepeatBlock.mkEntry (Action.newDefault MOVE_RIGHT) 1 true))
     = false
  /\ closes (ActionQueue.repeatStep 0%nat 0%nat blockB (RepeatBlock.getExpandedActions blockB)
                                    0 1%nat
                                    (RepeatBlock.mkEntry (Action.newDefault MOVE_RIGHT) 1 true))
     = false.
Proof.
  split; [reflexivity |].
  apply (X28_ActionQueue_block_boundaries [ObjRepeat blockB] 0 0%nat 1%nat). reflexivity.
Defined.

(** ** The expansion does not depend on the playback state *)

Lemma expandItem_resetItem (it : Z) (item : RepeatBlock.Item) :
  RepeatBlock.expandItem it (RepeatBlock.resetItem item) = RepeatBlock.expandItem it item.
Proof. destruct item as [a | r | g]; reflexivity. Qed.

Lemma pass_resetItems (it : Z) (l : list RepeatBlock.Item) :
  flat_map (RepeatBlock.expandItem it) (map RepeatBlock.resetItem l)
  = flat_map (RepeatBlock.expandItem it) l.
Proof.
  induction l as [| item l IH]; simpl; [reflexivity |].
  rewrite expandItem_resetItem, IH. reflexivity.
Qed.

Lemma getExpandedActions_reset (b : RepeatBlock.t) :
  RepeatBlock.getExpandedActions (RepeatBlock.reset b) = RepeatBlock.getExpandedActions b.
Proof.
  unfold RepeatBlock.getExpandedActions, RepeatBlock.reset. simpl.
  induction (RepeatBlock.iterations (RepeatBlock.count b)) as [| it l IH]; simpl;
    [reflexivity |].
  rewrite IH, pass_resetItems. reflexivity.
Qed.

Lemma repeatSteps_reset (item : loc) (idx : nat) (b : RepeatBlock.t)
    (expandedRepeat : list RepeatBlock.Entry) (rest : list RepeatBlock.Entry) :
  forall (lastIteration : Z) (actionIndex : nat),
    ActionQueue.repeatSteps item idx (RepeatBlock.reset b) expandedRepeat lastIteration
                            actionIndex rest
    = ActionQueue.repeatSteps item idx b expandedRepeat lastIteration actionIndex rest.
Proof.
  induction rest as [| e rest IH]; intros lastIteration actionIndex; simpl;
    [reflexivity |].
  rewrite IH. reflexivity.
Qed.

Lemma expandItem_reset (objs objs' : list Obj) (idx : nat) (item : loc) :
  objs' !! item = Obj.reset <$> objs !! item ->
  ActionQueue.expandItem objs' idx item = ActionQueue.expandItem objs idx item.
Proof.
  unfold ActionQueue.expandItem. intros ->.
  destruct (objs !! item) as [[a | r | b | r] |]; simpl; try reflexivity.
  rewrite getExpandedActions_reset. apply repeatSteps_reset.
Qed.

Lemma expansion_reset (objs objs' : list Obj) (its : list loc) :
  (forall item, item ∈ its -> objs' !! item = Obj.reset <$> objs !! item) ->
  ActionQueue.expansion objs' its = ActionQueue.expansion objs its.
Proof.
  intros H. unfold ActionQueue.expansion. f_equal.
  apply imap_ext. intros i item Hi. apply expandItem_reset, H.
  apply (list_elem_of_lookup_2 _ _ _ Hi).
Qed.

(** X29.  What a queue plays does not depend on what it has played:
    [reset()] and [stop()] leave every item expanding to the steps it
    expanded to before, so [expandItems()] builds the same array after them
    as before them; and so do the resets of a repeat block and of a
    recursive group. *)
Theorem X29_ActionQueue_reset_keeps_expansion (w : ActionQueue.World)
    (b : RepeatBlock.t) (g : RecursiveGroup.t) (d : Z) :
  ActionQueue.expansion (ActionQueue.objects (ActionQueue.reset w))
                        (ActionQueue.items (ActionQueue.queue (ActionQueue.reset w)))
  = ActionQueue.expansion (ActionQueue.objects w) (ActionQueue.items (ActionQueue.queue w))
  /\ ActionQueue.expansion (ActionQueue.objects (ActionQueue.stop w))
                           (ActionQueue.items (ActionQueue.queue (ActionQueue.stop w)))
     = ActionQueue.expansion (ActionQueue.objects w) (ActionQueue.items (ActionQueue.queue w))
  /\ RepeatBlock.getExpandedActions (RepeatBlock.reset b) = RepeatBlock.getExpandedActions b
  /\ RecursiveGroup.getExpandedActions (RecursiveGroup.reset g) d
     = RecursiveGroup.getExpandedActions g d.
Proof.
  assert (H : forall w,
             ActionQueue.expansion (ActionQueue.objects (ActionQueue.reset w))
                                   (ActionQueue.items (ActionQueue.queue w))
             = ActionQueue.expansion (ActionQueue.objects w)
                                     (ActionQueue.items (ActionQueue.queue w))).
  { intros w0. apply expansion_reset. intros item Hin.
    unfold ActionQueue.reset. simpl.
    rewrite reset_items_lookup, decide_True by exact Hin. reflexivity. }
  split; [exact (H w) |].
  split; [exact (H (ActionQueue.onQueue (ActionQueue.setState IDLE) w)) |].
  split; [apply getExpandedActions_reset |].
  apply getExpandedActions_ext; simpl; [reflexivity | |];
    rewrite map_map; apply map_ext; reflexivity.
Qed.

(** ** The iterations of a repeat block *)

Lemma repeatSteps_app (item : loc) (idx : nat) (b : RepeatBlock.t)
    (expandedRepeat : list RepeatBlock.Entry) (p : list RepeatBlock.Entry) :
  forall (rest : list RepeatBlock.Entry) (lastIteration : Z) (actionIndex : nat),
    ActionQueue.repeatSteps item idx b expandedRepeat lastIteration actionIndex (p ++ rest)
    = ActionQueue.repeatSteps item idx b expandedRepeat lastIteration actionIndex p
      ++ ActionQueue.repeatSteps item idx b expandedRepeat
           (match last p with
            | Some e => RepeatBlock.iteration e
            | None => lastIteration
            end)
           (actionIndex + length p) rest.
Proof.
  induction p as [| e p IH]; intros rest lastIteration actionIndex.
  - simpl. rewrite Nat.add_0_r. reflexivity.
  - cbn [app ActionQueue.repeatSteps length]. rewrite IH. cbn [app].
    assert (Hl : match last p with
                 | Some e' => RepeatBlock.iteration e'
                 | None => RepeatBlock.iteration e
                 end
                 = match last (e :: p) with
                   | Some e' => RepeatBlock.iteration e'
                   | None => lastIteration
                   end).
    { destruct p as [| e' p]; [reflexivity |].
      change (last (e :: e' :: p)) with (last (e' :: p)).
      destruct (last (e' :: p)) eqn:Hl; [reflexivity |].
      apply last_None in Hl. discriminate. }
    rewrite Hl.
    replace (S actionIndex + length p)%nat with (actionIndex + S (length p))%nat by lia.
    reflexivity.
Qed.

(** The steps of one pass: only the first can open an iteration, and it
    does unless the pass before was of the same iteration. *)
Lemma firsts_of_pass (item : loc) (idx : nat) (b : RepeatBlock.t)
    (expandedRepeat : list RepeatBlock.Entry) (it : Z) (p : list RepeatBlock.Entry) :
  (forall e, e ∈ p -> RepeatBlock.iteration e = it) ->
  forall (lastIteration : Z) (actionIndex : nat),
    length (List.filter ActionQueue.isFirstInIteration
              (ActionQueue.repeatSteps item idx b expandedRepeat lastIteration actionIndex p))
    = match p with
      | [] => 0%nat
      | _ :: _ => if it =? lastIteration then 0%nat else 1%nat
      end.
Proof.
  induction p as [| e p IH]; intros Hall lastIteration actionIndex; [reflexivity |].
  cbn [ActionQueue.repeatSteps List.filter].
  assert (He : RepeatBlock.iteration e = it) by (apply Hall; left).
  assert (Hrest : length (List.filter ActionQueue.isFirstInIteration
                            (ActionQueue.repeatSteps item idx b expandedRepeat
                               (RepeatBlock.iteration e) (S actionIndex) p)) = 0%nat).
  { rewrite IH by (intros e' He'; apply Hall; right; exact He').
    destruct p; [reflexivity |]. rewrite He, Z.eqb_refl. reflexivity. }
  unfold ActionQueue.repeatStep at 1. cbn [ActionQueue.isFirstInIteration].
  rewrite He in *.
  destruct (it =? lastIteration); cbn [negb length]; rewrite Hrest; reflexivity.
Qed.

Lemma last_iteration_of_pass (it : Z) (p : list RepeatBlock.Entry) (lastIteration : Z) :
  (forall e, e ∈ p -> RepeatBlock.iteration e = it) ->
  match last p with Some e => RepeatBlock.iteration e | None => lastIteration end
  = match p with [] => lastIteration | _ :: _ => it end.
Proof.
  intros Hall. destruct p as [| e p]; [reflexivity |].
  destruct (last (e :: p)) as [e' |] eqn:Hl.
  - apply Hall. apply last_Some_elem_of in Hl. exact Hl.
  - apply last_None in Hl. discriminate.
Qed.

Lemma pass_same_iteration (b : RepeatBlock.t) (it : Z) :
  forall e, e ∈ pass b it -> RepeatBlock.iteration e = it.
Proof.
  intros e He. apply list_elem_of_In in He.
  pose proof (pass_iteration b it) as H. rewrite List.Forall_forall in H. apply H, He.
Qed.

(** The passes from iteration [start] on, after a pass of an earlier
    iteration (or none). *)
Lemma firsts_of_passes (item : loc) (idx : nat) (b : RepeatBlock.t)
    (expandedRepeat : list RepeatBlock.Entry) (len : nat) :
  forall (start : nat) (lastIteration : Z) (actionIndex : nat),
    lastIteration < Z.of_nat start ->
    length (List.filter ActionQueue.isFirstInIteration
              (ActionQueue.repeatSteps item idx b expandedRepeat lastIteration actionIndex
                 (flat_map (pass b) (map Z.of_nat (seq start len)))))
    = match pass b 0 with
      | [] => 0%nat
      | _ :: _ => len
      end.
Proof.
  induction len as [| len IH]; intros start lastIteration actionIndex Hlast.
  - simpl. destruct (pass b 0); reflexivity.
  - cbn [seq map flat_map].
    rewrite repeatSteps_app, List.filter_app, length_app.
    rewrite (firsts_of_pass item idx b expandedRepeat (Z.of_nat start))
      by apply pass_same_iteration.
    rewrite (last_iteration_of_pass (Z.of_nat start)) by apply pass_same_iteration.
    pose proof (length_pass b (Z.of_nat start) 0) as Hlen.
    unfold pass in *.
    destruct (flat_map (RepeatBlock.expandItem (Z.of_nat start)) (RepeatBlock.items b))
      as [| e p] eqn:Hp;
      destruct (flat_map (RepeatBlock.expandItem 0) (RepeatBlock.items b))
        as [| e0 p0] eqn:Hp0; try discriminate Hlen.
    + rewrite (IH (S start)) by lia. reflexivity.
    + rewrite (IH (S start)) by lia.
      destruct (Z.eqb_spec (Z.of_nat start) lastIteration); [lia | reflexivity].
Qed.

(** X30.  Among the steps [expandItems()] makes of a repeat block, those
    marked [isFirstInIteration] (on which [onRepeatIteration] is called) are
    as many as the block has iterations: one per pass, for a block whose
    pass is not empty, and none for a block that expands to nothing. *)
Theorem X30_ActionQueue_iteration_openers (objs : list Obj) (idx : nat) (item : loc)
    (b : RepeatBlock.t) :
  objs !! item = Some (ObjRepeat b) ->
  length (List.filter ActionQueue.isFirstInIteration (ActionQueue.expandItem objs idx item))
  = match pass b 0 with
    | [] => 0%nat
    | _ :: _ => Z.to_nat (RepeatBlock.count b)
    end.
Proof.
  intros Hb. unfold ActionQueue.expandItem. rewrite Hb.
  exact (firsts_of_passes item idx b (RepeatBlock.getExpandedActions b)
           (Z.to_nat (RepeatBlock.count b)) 0 (-1) 0 eq_refl).
Qed.

(** The block of scenario B: three iterations, three openers. *)
Lemma X30_ActionQueue_iteration_openers_witness :
  [ObjRepeat blockB] !! 0%nat = Some (ObjRepeat blockB)
  /\ length (List.filter ActionQueue.isFirstInIteration
               (ActionQueue.expandItem [ObjRepeat blockB] 0 0%nat)) = 3%nat.
Proof.
  split; [reflexivity |].
  apply (X30_ActionQueue_iteration_openers [ObjRepeat blockB] 0 0%nat blockB). reflexivity.
Defined.
